(** * Bank audit service: security-signal extraction and risk scoring

    A shallow embedding of [BankAuditService] (bank-audit.service.ts) and of
    the records of bank.interface.ts, followed by the properties of the
    audit engine: the risk scorer, the four signal extractors and the
    [auditBank] orchestrator.

    Conventions.
    - JavaScript numbers that only ever hold small integers are [Z].
    - Strings are [string]; a non-ASCII character is the sequence of its
      UTF-8 bytes, so [includes] and [startsWith] agree with JavaScript on
      well-formed text.  [toUpperCase] maps every code point to its
      Unicode upper-case form; [toLowerCase] is only applied to HTTP header
      names, which are ASCII, and maps the ASCII letters.
    - A [Record<string,string>] is the list of its entries in enumeration
      order (module [JsObject]); order matters when two keys collide after
      lower-casing.
    - Awaited calls to collaborators (MongoDB, Puppeteer) may reject.  What
      they do in one run is given by an [Env]; the calls made and the content
      of the two collections are the [World] threaded through the monad [M].
    - Logger calls have no effect on any result and are left out. *)

From Stdlib Require Import String Ascii List ZArith NArith Bool Lia Permutation Sorted.
From Stdlib Require DecimalString DecimalZ.
Import ListNotations.
Open Scope string_scope.
Open Scope Z_scope.

(* ------------------------------------------------------------------ *)
(** ** Text: UTF-8 and the Unicode upper-case mapping *)

(** Strings are the UTF-8 bytes of the JavaScript string. *)
Module Utf8.

(** The six payload bits of a continuation byte [10xxxxxx]. *)
Definition cont (b : ascii) : option N :=
  let n := N_of_ascii b in
  if (128 <=? n)%N && (n <=? 191)%N then Some (n - 128)%N else None.

(** The code point of a well-formed sequence of two, three or four bytes:
    shortest form only, no surrogate, at most U+10FFFF. *)
Definition decode2 (b1 b2 : ascii) : option N :=
  let n1 := N_of_ascii b1 in
  match cont b2 with
  | Some c2 =>
      if (194 <=? n1)%N && (n1 <=? 223)%N
      then Some ((n1 - 192) * 64 + c2)%N else None
  | None => None
  end.

Definition decode3 (b1 b2 b3 : ascii) : option N :=
  let n1 := N_of_ascii b1 in
  match cont b2, cont b3 with
  | Some c2, Some c3 =>
      let cp := ((n1 - 224) * 4096 + c2 * 64 + c3)%N in
      if (224 <=? n1)%N && (n1 <=? 239)%N && (2048 <=? cp)%N
         && negb ((55296 <=? cp)%N && (cp <=? 57343)%N)
      then Some cp else None
  | _, _ => None
  end.

Definition decode4 (b1 b2 b3 b4 : ascii) : option N :=
  let n1 := N_of_ascii b1 in
  match cont b2, cont b3, cont b4 with
  | Some c2, Some c3, Some c4 =>
      let cp := ((n1 - 240) * 262144 + c2 * 4096 + c3 * 64 + c4)%N in
      if (240 <=? n1)%N && (n1 <=? 244)%N && (65536 <=? cp)%N && (cp <=? 1114111)%N
      then Some cp else None
  | _, _, _ => None
  end.

Definition byte (n : N) (rest : string) : string := String (ascii_of_N n) rest.

(** The bytes of a code point. *)
Definition encode (cp : N) : string :=
  (if cp <? 128 then byte cp EmptyString
   else if cp <? 2048 then
     byte (192 + cp / 64) (byte (128 + cp mod 64) EmptyString)
   else if cp <? 65536 then
     byte (224 + cp / 4096)
       (byte (128 + (cp / 64) mod 64) (byte (128 + cp mod 64) EmptyString))
   else
     byte (240 + cp / 262144)
       (byte (128 + (cp / 4096) mod 64)
          (byte (128 + (cp / 64) mod 64) (byte (128 + cp mod 64) EmptyString))))%N.

Definition encode_all (cps : list N) : string :=
  fold_right (fun cp acc => encode cp ++ acc) EmptyString cps.

End Utf8.

(** Upper-case mappings of the code points above U+007F (Unicode 14.0:
    the simple mappings of UnicodeData.txt and the unconditional ones of
    SpecialCasing.txt), which is what [String.prototype.toUpperCase]
    applies to each code point. *)
Module UnicodeUpper.

(** Code points with an upper-case form of several code points. *)
Definition special : list (N * list N) :=
  [
    (223, [83; 83]); (329, [700; 78]); (496, [74; 780]);
    (912, [921; 776; 769]); (944, [933; 776; 769]); (1415, [1333; 1362]);
    (7830, [72; 817]); (7831, [84; 776]); (7832, [87; 778]);
    (7833, [89; 778]); (7834, [65; 702]); (8016, [933; 787]);
    (8018, [933; 787; 768]); (8020, [933; 787; 769]); (8022, [933; 787; 834]);
    (8064, [7944; 921]); (8065, [7945; 921]); (8066, [7946; 921]);
    (8067, [7947; 921]); (8068, [7948; 921]); (8069, [7949; 921]);
    (8070, [7950; 921]); (8071, [7951; 921]); (8072, [7944; 921]);
    (8073, [7945; 921]); (8074, [7946; 921]); (8075, [7947; 921]);
    (8076, [7948; 921]); (8077, [7949; 921]); (8078, [7950; 921]);
    (8079, [7951; 921]); (8080, [7976; 921]); (8081, [7977; 921]);
    (8082, [7978; 921]); (8083, [7979; 921]); (8084, [7980; 921]);
    (8085, [7981; 921]); (8086, [7982; 921]); (8087, [7983; 921]);
    (8088, [7976; 921]); (8089, [7977; 921]); (8090, [7978; 921]);
    (8091, [7979; 921]); (8092, [7980; 921]); (8093, [7981; 921]);
    (8094, [7982; 921]); (8095, [7983; 921]); (8096, [8040; 921]);
    (8097, [8041; 921]); (8098, [8042; 921]); (8099, [8043; 921]);
    (8100, [8044; 921]); (8101, [8045; 921]); (8102, [8046; 921]);
    (8103, [8047; 921]); (8104, [8040; 921]); (8105, [8041; 921]);
    (8106, [8042; 921]); (8107, [8043; 921]); (8108, [8044; 921]);
    (8109, [8045; 921]); (8110, [8046; 921]); (8111, [8047; 921]);
    (8114, [8122; 921]); (8115, [913; 921]); (8116, [902; 921]);
    (8118, [913; 834]); (8119, [913; 834; 921]); (8124, [913; 921]);
    (8130, [8138; 921]); (8131, [919; 921]); (8132, [905; 921]);
    (8134, [919; 834]); (8135, [919; 834; 921]); (8140, [919; 921]);
    (8146, [921; 776; 768]); (8147, [921; 776; 769]); (8150, [921; 834]);
    (8151, [921; 776; 834]); (8162, [933; 776; 768]); (8163, [933; 776; 769]);
    (8164, [929; 787]); (8166, [933; 834]); (8167, [933; 776; 834]);
    (8178, [8186; 921]); (8179, [937; 921]); (8180, [911; 921]);
    (8182, [937; 834]); (8183, [937; 834; 921]); (8188, [937; 921]);
    (64256, [70; 70]); (64257, [70; 73]); (64258, [70; 76]);
    (64259, [70; 70; 73]); (64260, [70; 70; 76]); (64261, [83; 84]);
    (64262, [83; 84]); (64275, [1348; 1350]); (64276, [1348; 1333]);
    (64277, [1348; 1339]); (64278, [1358; 1350]); (64279, [1348; 1341])
  ]%N.

(** Runs [(first, last, step, delta)]: every code point [first],
    [first + step], ..., [last] maps to itself plus [delta]. *)
Definition simple : list (N * N * N * Z) :=
  [
    (181, 181, 1, 743%Z); (224, 246, 1, (-32)%Z); (248, 254, 1, (-32)%Z);
    (255, 255, 1, 121%Z); (257, 303, 2, (-1)%Z); (305, 305, 1, (-232)%Z);
    (307, 311, 2, (-1)%Z); (314, 328, 2, (-1)%Z); (331, 375, 2, (-1)%Z);
    (378, 382, 2, (-1)%Z); (383, 383, 1, (-300)%Z); (384, 384, 1, 195%Z);
    (387, 389, 2, (-1)%Z); (392, 392, 1, (-1)%Z); (396, 396, 1, (-1)%Z);
    (402, 402, 1, (-1)%Z); (405, 405, 1, 97%Z); (409, 409, 1, (-1)%Z);
    (410, 410, 1, 163%Z); (414, 414, 1, 130%Z); (417, 421, 2, (-1)%Z);
    (424, 424, 1, (-1)%Z); (429, 429, 1, (-1)%Z); (432, 432, 1, (-1)%Z);
    (436, 438, 2, (-1)%Z); (441, 441, 1, (-1)%Z); (445, 445, 1, (-1)%Z);
    (447, 447, 1, 56%Z); (453, 453, 1, (-1)%Z); (454, 454, 1, (-2)%Z);
    (456, 456, 1, (-1)%Z); (457, 457, 1, (-2)%Z); (459, 459, 1, (-1)%Z);
    (460, 460, 1, (-2)%Z); (462, 476, 2, (-1)%Z); (477, 477, 1, (-79)%Z);
    (479, 495, 2, (-1)%Z); (498, 498, 1, (-1)%Z); (499, 499, 1, (-2)%Z);
    (501, 501, 1, (-1)%Z); (505, 543, 2, (-1)%Z); (547, 563, 2, (-1)%Z);
    (572, 572, 1, (-1)%Z); (575, 576, 1, 10815%Z); (578, 578, 1, (-1)%Z);
    (583, 591, 2, (-1)%Z); (592, 592, 1, 10783%Z); (593, 593, 1, 10780%Z);
    (594, 594, 1, 10782%Z); (595, 595, 1, (-210)%Z); (596, 596, 1, (-206)%Z);
    (598, 599, 1, (-205)%Z); (601, 601, 1, (-202)%Z); (603, 603, 1, (-203)%Z);
    (604, 604, 1, 42319%Z); (608, 608, 1, (-205)%Z); (609, 609, 1, 42315%Z);
    (611, 611, 1, (-207)%Z); (613, 613, 1, 42280%Z); (614, 614, 1, 42308%Z);
    (616, 616, 1, (-209)%Z); (617, 617, 1, (-211)%Z); (618, 618, 1, 42308%Z);
    (619, 619, 1, 10743%Z); (620, 620, 1, 42305%Z); (623, 623, 1, (-211)%Z);
    (625, 625, 1, 10749%Z); (626, 626, 1, (-213)%Z); (629, 629, 1, (-214)%Z);
    (637, 637, 1, 10727%Z); (640, 640, 1, (-218)%Z); (642, 642, 1, 42307%Z);
    (643, 643, 1, (-218)%Z); (647, 647, 1, 42282%Z); (648, 648, 1, (-218)%Z);
    (649, 649, 1, (-69)%Z); (650, 651, 1, (-217)%Z); (652, 652, 1, (-71)%Z);
    (658, 658, 1, (-219)%Z); (669, 669, 1, 42261%Z); (670, 670, 1, 42258%Z);
    (837, 837, 1, 84%Z); (881, 883, 2, (-1)%Z); (887, 887, 1, (-1)%Z);
    (891, 893, 1, 130%Z); (940, 940, 1, (-38)%Z); (941, 943, 1, (-37)%Z);
    (945, 961, 1, (-32)%Z); (962, 962, 1, (-31)%Z); (963, 971, 1, (-32)%Z);
    (972, 972, 1, (-64)%Z); (973, 974, 1, (-63)%Z); (976, 976, 1, (-62)%Z);
    (977, 977, 1, (-57)%Z); (981, 981, 1, (-47)%Z); (982, 982, 1, (-54)%Z);
    (983, 983, 1, (-8)%Z); (985, 1007, 2, (-1)%Z); (1008, 1008, 1, (-86)%Z);
    (1009, 1009, 1, (-80)%Z); (1010, 1010, 1, 7%Z); (1011, 1011, 1, (-116)%Z);
    (1013, 1013, 1, (-96)%Z); (1016, 1016, 1, (-1)%Z); (1019, 1019, 1, (-1)%Z);
    (1072, 1103, 1, (-32)%Z); (1104, 1119, 1, (-80)%Z); (1121, 1153, 2, (-1)%Z);
    (1163, 1215, 2, (-1)%Z); (1218, 1230, 2, (-1)%Z); (1231, 1231, 1, (-15)%Z);
    (1233, 1327, 2, (-1)%Z); (1377, 1414, 1, (-48)%Z); (4304, 4346, 1, 3008%Z);
    (4349, 4351, 1, 3008%Z); (5112, 5117, 1, (-8)%Z); (7296, 7296, 1, (-6254)%Z);
    (7297, 7297, 1, (-6253)%Z); (7298, 7298, 1, (-6244)%Z); (7299, 7300, 1, (-6242)%Z);
    (7301, 7301, 1, (-6243)%Z); (7302, 7302, 1, (-6236)%Z); (7303, 7303, 1, (-6181)%Z);
    (7304, 7304, 1, 35266%Z); (7545, 7545, 1, 35332%Z); (7549, 7549, 1, 3814%Z);
    (7566, 7566, 1, 35384%Z); (7681, 7829, 2, (-1)%Z); (7835, 7835, 1, (-59)%Z);
    (7841, 7935, 2, (-1)%Z); (7936, 7943, 1, 8%Z); (7952, 7957, 1, 8%Z);
    (7968, 7975, 1, 8%Z); (7984, 7991, 1, 8%Z); (8000, 8005, 1, 8%Z);
    (8017, 8023, 2, 8%Z); (8032, 8039, 1, 8%Z); (8048, 8049, 1, 74%Z);
    (8050, 8053, 1, 86%Z); (8054, 8055, 1, 100%Z); (8056, 8057, 1, 128%Z);
    (8058, 8059, 1, 112%Z); (8060, 8061, 1, 126%Z); (8112, 8113, 1, 8%Z);
    (8126, 8126, 1, (-7205)%Z); (8144, 8145, 1, 8%Z); (8160, 8161, 1, 8%Z);
    (8165, 8165, 1, 7%Z); (8526, 8526, 1, (-28)%Z); (8560, 8575, 1, (-16)%Z);
    (8580, 8580, 1, (-1)%Z); (9424, 9449, 1, (-26)%Z); (11312, 11359, 1, (-48)%Z);
    (11361, 11361, 1, (-1)%Z); (11365, 11365, 1, (-10795)%Z); (11366, 11366, 1, (-10792)%Z);
    (11368, 11372, 2, (-1)%Z); (11379, 11379, 1, (-1)%Z); (11382, 11382, 1, (-1)%Z);
    (11393, 11491, 2, (-1)%Z); (11500, 11502, 2, (-1)%Z); (11507, 11507, 1, (-1)%Z);
    (11520, 11557, 1, (-7264)%Z); (11559, 11559, 1, (-7264)%Z); (11565, 11565, 1, (-7264)%Z);
    (42561, 42605, 2, (-1)%Z); (42625, 42651, 2, (-1)%Z); (42787, 42799, 2, (-1)%Z);
    (42803, 42863, 2, (-1)%Z); (42874, 42876, 2, (-1)%Z); (42879, 42887, 2, (-1)%Z);
    (42892, 42892, 1, (-1)%Z); (42897, 42899, 2, (-1)%Z); (42900, 42900, 1, 48%Z);
    (42903, 42921, 2, (-1)%Z); (42933, 42947, 2, (-1)%Z); (42952, 42954, 2, (-1)%Z);
    (42961, 42961, 1, (-1)%Z); (42967, 42969, 2, (-1)%Z); (42998, 42998, 1, (-1)%Z);
    (43859, 43859, 1, (-928)%Z); (43888, 43967, 1, (-38864)%Z); (65345, 65370, 1, (-32)%Z);
    (66600, 66639, 1, (-40)%Z); (66776, 66811, 1, (-40)%Z); (66967, 66977, 1, (-39)%Z);
    (66979, 66993, 1, (-39)%Z); (66995, 67001, 1, (-39)%Z); (67003, 67004, 1, (-39)%Z);
    (68800, 68850, 1, (-64)%Z); (71872, 71903, 1, (-32)%Z); (93792, 93823, 1, (-32)%Z);
    (125218, 125251, 1, (-34)%Z)
  ]%N.

Definition in_run (cp : N) (r : N * N * N * Z) : bool :=
  let '(first, last, step, _) := r in
  ((first <=? cp) && (cp <=? last) && ((cp - first) mod step =? 0))%N.

(** The upper-case form of a code point that has one other than itself. *)
Definition lookup (cp : N) : option (list N) :=
  match find (fun e => (fst e =? cp)%N) special with
  | Some e => Some (snd e)
  | None =>
      match find (in_run cp) simple with
      | Some (_, _, _, delta) => Some [Z.to_N (Z.of_N cp + delta)]
      | None => None
      end
  end.

End UnicodeUpper.

(* ------------------------------------------------------------------ *)
(** ** JavaScript strings *)

Module JsString.

Definition toUpperChar (c : ascii) : ascii :=
  let n := N_of_ascii c in
  if (97 <=? n)%N && (n <=? 122)%N then ascii_of_N (n - 32) else c.

Definition toLowerChar (c : ascii) : ascii :=
  let n := N_of_ascii c in
  if (65 <=? n)%N && (n <=? 90)%N then ascii_of_N (n + 32) else c.

Fixpoint map_chars (f : ascii -> ascii) (s : string) : string :=
  match s with
  | EmptyString => EmptyString
  | String c rest => String (f c) (map_chars f rest)
  end.

(** The upper-case form of the code point [cp], read from [bytes]. *)
Definition upper_seq (cp : N) (bytes : string) : string :=
  match UnicodeUpper.lookup cp with
  | Some cps => Utf8.encode_all cps
  | None => bytes
  end.

(** [s.toUpperCase()]: each code point is replaced by its upper-case form;
    a byte that begins no well-formed sequence is kept. *)
Fixpoint toUpperCase (s : string) : string :=
  match s with
  | EmptyString => EmptyString
  | String b1 r1 =>
      if (N_of_ascii b1 <? 128)%N then String (toUpperChar b1) (toUpperCase r1)
      else
        match r1 with
        | EmptyString => String b1 (toUpperCase r1)
        | String b2 r2 =>
            match Utf8.decode2 b1 b2 with
            | Some cp => upper_seq cp (String b1 (String b2 EmptyString)) ++ toUpperCase r2
            | None =>
                match r2 with
                | EmptyString => String b1 (toUpperCase r1)
                | String b3 r3 =>
                    match Utf8.decode3 b1 b2 b3 with
                    | Some cp =>
                        upper_seq cp (String b1 (String b2 (String b3 EmptyString)))
                        ++ toUpperCase r3
                    | None =>
                        match r3 with
                        | EmptyString => String b1 (toUpperCase r1)
                        | String b4 r4 =>
                            match Utf8.decode4 b1 b2 b3 b4 with
                            | Some cp =>
                                upper_seq cp
                                  (String b1 (String b2 (String b3 (String b4 EmptyString))))
                                ++ toUpperCase r4
                            | None => String b1 (toUpperCase r1)
                            end
                        end
                    end
                end
            end
        end
  end.

(** [k.toLowerCase()] for an HTTP header name [k]: field names are ASCII
    tokens, for which only the letters [A] to [Z] change. *)
Definition toLowerCase : string -> string := map_chars toLowerChar.

(** The well-formed sequence of several bytes that begins with [b1]
    followed by [r1]: its code point, its bytes and what follows it. *)
Definition head_seq (b1 : ascii) (r1 : string) : option (N * string * string) :=
  match r1 with
  | EmptyString => None
  | String b2 r2 =>
      match Utf8.decode2 b1 b2 with
      | Some cp => Some (cp, String b1 (String b2 EmptyString), r2)
      | None =>
          match r2 with
          | EmptyString => None
          | String b3 r3 =>
              match Utf8.decode3 b1 b2 b3 with
              | Some cp => Some (cp, String b1 (String b2 (String b3 EmptyString)), r3)
              | None =>
                  match r3 with
                  | EmptyString => None
                  | String b4 r4 =>
                      match Utf8.decode4 b1 b2 b3 b4 with
                      | Some cp =>
                          Some (cp,
                                String b1 (String b2 (String b3 (String b4 EmptyString))),
                                r4)
                      | None => None
                      end
                  end
              end
          end
      end
  end.

(** A letter [a] to [z]. *)
Definition is_lower (b : ascii) : bool :=
  ((97 <=? N_of_ascii b) && (N_of_ascii b <=? 122))%N.

(** No byte of [s] is a letter [a] to [z]. *)
Fixpoint lower_free (s : string) : bool :=
  match s with
  | EmptyString => true
  | String b r => negb (is_lower b) && lower_free r
  end.

(** Every byte of [s] is an ASCII character. *)
Fixpoint is_ascii (s : string) : bool :=
  match s with
  | EmptyString => true
  | String b r => (N_of_ascii b <? 128)%N && is_ascii r
  end.

(** [s.startsWith(p)] *)
Definition startsWith (s p : string) : bool := String.prefix p s.

(** [s.includes(needle)] *)
Fixpoint includes (s needle : string) : bool :=
  match s with
  | EmptyString => String.prefix needle EmptyString
  | String _ rest => String.prefix needle s || includes rest needle
  end.

(** [!!v] for [v : string | undefined | null] *)
Definition truthy (v : option string) : bool :=
  match v with
  | Some (String _ _) => true
  | _ => false
  end.

End JsString.

(* ------------------------------------------------------------------ *)
(** ** Plain objects used as string maps *)

Module JsObject.

(** Entries in enumeration order. *)
Definition t := list (string * string).

Definition empty : t := [].

(** [o[k]] *)
Fixpoint get (o : t) (k : string) : option string :=
  match o with
  | [] => None
  | (k', v) :: rest => if String.eqb k' k then Some v else get rest k
  end.

(** [o[k] = v]: an existing key keeps its place, a new one goes last.
    (JavaScript lists keys that are array indices, such as "0" or "42",
    before all others; header names of that form are not given that
    precedence here, which bears on the order of the entries only.) *)
Fixpoint set (o : t) (k v : string) : t :=
  match o with
  | [] => [(k, v)]
  | (k', v') :: rest =>
      if String.eqb k' k then (k', v) :: rest else (k', v') :: set rest k v
  end.

(** [Object.entries(o)] *)
Definition entries (o : t) : list (string * string) := o.

(** [Object.fromEntries(es)] *)
Definition fromEntries (es : list (string * string)) : t :=
  fold_left (fun o kv => set o (fst kv) (snd kv)) es empty.

(** [Object.assign(target, source)] *)
Definition assign (target source : t) : t :=
  fold_left (fun o kv => set o (fst kv) (snd kv)) (entries source) target.

End JsObject.

(* ------------------------------------------------------------------ *)
(** ** Data model (bank.interface.ts) *)

Inductive SSLGrade : Type :=
| SSL_Aplus | SSL_A | SSL_B | SSL_C | SSL_D | SSL_F | SSL_UNKNOWN.

Inductive Grade : Type :=
| Grade_A | Grade_B | Grade_C | Grade_D | Grade_F.

Inductive AuditStatus : Type :=
| completed | failed | timeout.

Inductive TokenType : Type :=
| hidden_field | header_token | cookie_token | unknown_token.

Record IChileanBank : Type := {
  bank_id : option string;
  bank_name : string;
  bank_code : string;
  bank_loginUrl : string;
  bank_description : option string;
  bank_active : bool;
  bank_createdAt : option Z;
  bank_updatedAt : option Z
}.

Record ISSLAnalysis : Type := {
  ssl_enabled : bool;
  ssl_protocol : option string;
  ssl_validCertificate : option bool;
  ssl_issuer : option string;
  ssl_expiryDate : option Z;
  ssl_grade : SSLGrade;
  ssl_issues : list string
}.

Record ISecurityHeaders : Type := {
  strictTransportSecurity : bool;
  contentSecurityPolicy : bool;
  xFrameOptions : bool;
  xContentTypeOptions : bool;
  referrerPolicy : bool;
  permissionsPolicy : bool;
  hdr_headers : JsObject.t;
  hdr_grade : Grade
}.

Record SessionManagement : Type := {
  sm_timeout : option Z;
  sm_secureFlag : option bool;
  sm_httpOnlyFlag : option bool
}.

Record IAuthenticationAnalysis : Type := {
  auth_methods : list string;
  mfaAvailable : bool;
  mfaTypes : list string;
  passwordRequirements : list string;
  sessionManagement : SessionManagement;
  auth_grade : Grade
}.

Record ICSRFAnalysis : Type := {
  tokenPresent : bool;
  tokenType : option TokenType;
  tokenValue : option string;
  isProtected : bool;
  csrf_grade : Grade
}.

Record ISecurityAuditResult : Type := {
  bankCode : string;
  bankName : string;
  loginUrl : string;
  timestamp : Z;
  ssl : ISSLAnalysis;
  headers : ISecurityHeaders;
  authentication : IAuthenticationAnalysis;
  csrf : ICSRFAnalysis;
  recommendations : list string;
  riskScore : Z;
  status : AuditStatus;
  error : option string
}.

(* ------------------------------------------------------------------ *)
(** ** Risk scorer *)

(** The value returned by [calculateRiskScore]. *)
Record RiskAssessment : Type := {
  ra_riskScore : Z;
  ra_recommendations : list string
}.

(** [riskScore += n; recommendations.push(msg)] *)
Definition penalize (n : Z) (msg : string) (st : RiskAssessment) : RiskAssessment :=
  {| ra_riskScore := ra_riskScore st + n;
     ra_recommendations := ra_recommendations st ++ [msg] |}.

(** [if (c) { riskScore += n; recommendations.push(msg); }] *)
Definition penalize_if (c : bool) (n : Z) (msg : string) (st : RiskAssessment)
  : RiskAssessment :=
  if c then penalize n msg st else st.

(** [if (recommendations.length === 0) { recommendations.push(msg); }] *)
Definition push_if_none (msg : string) (st : RiskAssessment) : RiskAssessment :=
  if Z.of_nat (length (ra_recommendations st)) =? 0 then
    {| ra_riskScore := ra_riskScore st;
       ra_recommendations := ra_recommendations st ++ [msg] |}
  else st.

Definition calculateRiskScore
    (ssl : ISSLAnalysis) (headers : ISecurityHeaders)
    (authentication : IAuthenticationAnalysis) (csrf : ICSRFAnalysis)
  : RiskAssessment :=
  let st := {| ra_riskScore := 0; ra_recommendations := [] |} in
  (* SSL analysis *)
  let st :=
    if negb (ssl_enabled ssl) then
      penalize 40 "CRITICAL: Implement HTTPS for login page" st
    else
      penalize_if (0 <? Z.of_nat (length (ssl_issues ssl)))
        10 "Review SSL/TLS configuration issues" st in
  (* Headers analysis *)
  let st :=
    penalize_if (negb (strictTransportSecurity headers))
      10 "Implement HSTS (Strict-Transport-Security header)" st in
  let st :=
    penalize_if (negb (contentSecurityPolicy headers))
      10 "Implement Content Security Policy (CSP)" st in
  let st :=
    penalize_if (negb (xFrameOptions headers))
      5 "Add X-Frame-Options header to prevent clickjacking" st in
  (* Authentication analysis *)
  let st :=
    penalize_if (negb (mfaAvailable authentication))
      15 "Implement Multi-Factor Authentication (MFA/2FA)" st in
  (* CSRF analysis *)
  let st :=
    penalize_if (negb (isProtected csrf))
      10 "Implement CSRF protection tokens" st in
  push_if_none "✅ Excellent security posture!" st.

(* ------------------------------------------------------------------ *)
(** ** Header inspector *)

Definition set_hdr_grade (analysis : ISecurityHeaders) (g : Grade) : ISecurityHeaders :=
  {| strictTransportSecurity := strictTransportSecurity analysis;
     contentSecurityPolicy := contentSecurityPolicy analysis;
     xFrameOptions := xFrameOptions analysis;
     xContentTypeOptions := xContentTypeOptions analysis;
     referrerPolicy := referrerPolicy analysis;
     permissionsPolicy := permissionsPolicy analysis;
     hdr_headers := hdr_headers analysis;
     hdr_grade := g |}.

(** The local [score] of [analyzeSecurityHeaders]. *)
Definition headerScore (analysis : ISecurityHeaders) : Z :=
  (if strictTransportSecurity analysis then 20 else 0) +
  (if contentSecurityPolicy analysis then 25 else 0) +
  (if xFrameOptions analysis then 15 else 0) +
  (if xContentTypeOptions analysis then 15 else 0) +
  (if referrerPolicy analysis then 10 else 0) +
  (if permissionsPolicy analysis then 15 else 0).

Definition analyzeSecurityHeaders (headers : JsObject.t) : ISecurityHeaders :=
  let lowerHeaders :=
    JsObject.fromEntries
      (map (fun kv => (JsString.toLowerCase (fst kv), snd kv)) (JsObject.entries headers)) in
  let present k := JsString.truthy (JsObject.get lowerHeaders k) in
  let analysis :=
    {| strictTransportSecurity := present "strict-transport-security";
       contentSecurityPolicy := present "content-security-policy";
       xFrameOptions := present "x-frame-options";
       xContentTypeOptions := present "x-content-type-options";
       referrerPolicy := present "referrer-policy";
       permissionsPolicy := present "permissions-policy";
       hdr_headers := lowerHeaders;
       hdr_grade := Grade_F |} in
  (* Calculate grade *)
  let score := headerScore analysis in
  if score >=? 90 then set_hdr_grade analysis Grade_A
  else if score >=? 75 then set_hdr_grade analysis Grade_B
  else if score >=? 60 then set_hdr_grade analysis Grade_C
  else if score >=? 40 then set_hdr_grade analysis Grade_D
  else analysis.

(** The grading rule as the specification words it: a table of weights,
    one per presence flag, and a table of thresholds.  It is compared with
    [analyzeSecurityHeaders] below. *)
Module HeaderSpec.

Definition weights : list ((ISecurityHeaders -> bool) * Z) :=
  [ (strictTransportSecurity, 20); (contentSecurityPolicy, 25);
    (xFrameOptions, 15); (xContentTypeOptions, 15);
    (referrerPolicy, 10); (permissionsPolicy, 15) ].

Definition weighted_sum (h : ISecurityHeaders) : Z :=
  fold_right
    (fun (fw : (ISecurityHeaders -> bool) * Z) acc =>
       (if fst fw h then snd fw else 0) + acc)
    0 weights.

Definition thresholds : list (Z * Grade) :=
  [ (90, Grade_A); (75, Grade_B); (60, Grade_C); (40, Grade_D) ].

Fixpoint bucket (ts : list (Z * Grade)) (score : Z) : Grade :=
  match ts with
  | [] => Grade_F
  | (t, g) :: rest => if t <=? score then g else bucket rest score
  end.

Definition grade_of (h : ISecurityHeaders) : Grade :=
  bucket thresholds (weighted_sum h).

End HeaderSpec.

(* ------------------------------------------------------------------ *)
(** ** Collaborators: exceptions, the browser, the database *)

Inductive Exn : Type :=
| Error (msg : string)
| NotFoundException (msg : string).

(** [error.message] *)
Definition message (e : Exn) : string :=
  match e with
  | Error msg => msg
  | NotFoundException msg => msg
  end.

(** How an awaited promise settles. *)
Inductive Outcome (A : Type) : Type :=
| Resolves (a : A)
| Rejects (e : Exn).
Arguments Resolves {A} a.
Arguments Rejects {A} e.

Record SecurityDetails : Type := {
  sd_protocol : string;
  sd_issuer : string
}.

(** The part of [puppeteer.HTTPResponse] the service reads. *)
Record HTTPResponse : Type := {
  resp_securityDetails : option SecurityDetails
}.

Record ElementHandle : Type := {
  el_value : string
}.

Record Cookie : Type := {
  cookie_secure : bool;
  cookie_httpOnly : bool
}.

(** One loaded page.  [pg_query sel] is the first element matching the CSS
    selector [sel], if the DOM can be read at all; [pg_responses] are the
    'response' events (url, headers) fired while [goto] runs. *)
Record Page : Type := {
  pg_setUserAgent : Outcome unit;
  pg_setRequestInterception : Outcome unit;
  pg_goto : string -> Outcome (option HTTPResponse);
  pg_responses : list (string * JsObject.t);
  pg_query : string -> Outcome (option ElementHandle);
  pg_content : Outcome string;
  pg_cookies : Outcome (list Cookie)
}.

Record Browser : Type := {
  br_newPage : Outcome Page;
  br_close : Outcome unit
}.

(** What the outside world does during one run. *)
Record Env : Type := {
  findOne_fault : option Exn;
  insertOne_fault : ISecurityAuditResult -> option Exn;
  puppeteer_launch : Outcome Browser;
  now : Z
}.

(** Calls made to the collaborators. *)
Inductive Event : Type :=
| CallFindOne (code : string)
| CallInsertOne (doc : ISecurityAuditResult)
| CallLaunch
| CallNewPage
| CallSetUserAgent (ua : string)
| CallSetRequestInterception (on : bool)
| CallGoto (url : string) (timeoutMs : Z)
| CallSecurityDetails
| CallQuery (selector : string)
| CallEval (selector : string)
| CallContent
| CallCookies
| CallClose.

Record World : Type := {
  banks : list IChileanBank;
  audits : list ISecurityAuditResult;
  trace : list Event
}.

Definition log (ev : Event) (w : World) : World :=
  {| banks := banks w; audits := audits w; trace := trace w ++ [ev] |}.

Definition store (doc : ISecurityAuditResult) (w : World) : World :=
  {| banks := banks w; audits := audits w ++ [doc]; trace := trace w |}.

(** ** The monad of asynchronous computations *)

Definition M (A : Type) : Type := World -> Outcome A * World.

Definition ret {A} (a : A) : M A := fun w => (Resolves a, w).

Definition throw {A} (e : Exn) : M A := fun w => (Rejects e, w).

Definition bind {A B} (m : M A) (k : A -> M B) : M B :=
  fun w =>
    match m w with
    | (Resolves a, w1) => k a w1
    | (Rejects e, w1) => (Rejects e, w1)
    end.

Notation "x <- m ;; k" := (bind m (fun x => k))
  (at level 61, m at next level, right associativity).

(** A call to a collaborator: recorded, then settled as the world decides. *)
Definition call {A} (ev : Event) (o : Outcome A) : M A :=
  fun w => (o, log ev w).

(** [m.catch(h)] *)
Definition catch {A} (m : M A) (h : Exn -> M A) : M A :=
  fun w =>
    match m w with
    | (Resolves a, w1) => (Resolves a, w1)
    | (Rejects e, w1) => h e w1
    end.

(** [try { body } catch (e) { handler e } finally { final }] *)
Definition try_catch_finally {A} (body : M A) (handler : Exn -> M A) (final : M unit) : M A :=
  fun w =>
    let '(o, w1) := catch body handler w in
    match final w1 with
    | (Resolves _, w2) => (o, w2)
    | (Rejects e, w2) => (Rejects e, w2)
    end.

(* ------------------------------------------------------------------ *)
(** ** Collaborator calls *)

Definition dquote : string := String (ascii_of_N 34) EmptyString.

(** [banksCollection.findOne({ code })] *)
Definition findOne (env : Env) (code : string) : M (option IChileanBank) :=
  fun w =>
    match findOne_fault env with
    | Some e => (Rejects e, log (CallFindOne code) w)
    | None =>
        (Resolves (find (fun b => String.eqb (bank_code b) code) (banks w)),
         log (CallFindOne code) w)
    end.

(** [auditsCollection.insertOne(doc)] *)
Definition insertOne (env : Env) (doc : ISecurityAuditResult) : M unit :=
  fun w =>
    match insertOne_fault env doc with
    | Some e => (Rejects e, log (CallInsertOne doc) w)
    | None => (Resolves tt, store doc (log (CallInsertOne doc) w))
    end.

Definition browser_newPage (browser : Browser) : M Page :=
  call CallNewPage (br_newPage browser).

Definition browser_close (browser : Browser) : M unit :=
  call CallClose (br_close browser).

Definition page_setUserAgent (page : Page) (ua : string) : M unit :=
  call (CallSetUserAgent ua) (pg_setUserAgent page).

Definition page_setRequestInterception (page : Page) (on : bool) : M unit :=
  call (CallSetRequestInterception on) (pg_setRequestInterception page).

Definition page_goto (page : Page) (url : string) (timeoutMs : Z) : M (option HTTPResponse) :=
  call (CallGoto url timeoutMs) (pg_goto page url).

(** [page.$(selector)] *)
Definition page_query (page : Page) (selector : string) : M (option ElementHandle) :=
  call (CallQuery selector) (pg_query page selector).

(** [page.$eval(selector, el => el.value)]: rejects when nothing matches. *)
Definition page_eval_value (page : Page) (selector : string) : M string :=
  call (CallEval selector)
    match pg_query page selector with
    | Rejects e => Rejects e
    | Resolves None =>
        Rejects (Error ("Error: failed to find element matching selector "
                          ++ dquote ++ selector ++ dquote))
    | Resolves (Some el) => Resolves (el_value el)
    end.

Definition page_content (page : Page) : M string :=
  call CallContent (pg_content page).

Definition page_cookies (page : Page) : M (list Cookie) :=
  call CallCookies (pg_cookies page).

(** [response.securityDetails()] *)
Definition response_securityDetails (response : HTTPResponse) : M (option SecurityDetails) :=
  call CallSecurityDetails (Resolves (resp_securityDetails response)).

(* ------------------------------------------------------------------ *)
(** ** BankAuditService *)

Definition getBankByCode (env : Env) (code : string) : M IChileanBank :=
  bank <- findOne env (JsString.toUpperCase code) ;;
  match bank with
  | None => throw (NotFoundException ("Bank with code " ++ code ++ " not found"))
  | Some bank => ret bank
  end.

(** The launch options come from configuration, not from [verbose], and
    nothing downstream reads them. *)
Definition launchBrowser (env : Env) (verbose : bool) : M Browser :=
  call CallLaunch (puppeteer_launch env).

Definition analyzeSSL (response : HTTPResponse) (url : string) : M ISSLAnalysis :=
  let issues : list string := [] in
  let grade := SSL_Aplus in
  let isHTTPS := JsString.startsWith url "https://" in
  if negb isHTTPS then
    let issues := (issues ++ ["CRITICAL: Login page not served over HTTPS"])%list in
    let grade := SSL_F in
    ret {| ssl_enabled := false; ssl_protocol := None; ssl_validCertificate := None;
           ssl_issuer := None; ssl_expiryDate := None;
           ssl_grade := grade; ssl_issues := issues |}
  else
    (* Check security details *)
    securityDetails <- response_securityDetails response ;;
    let issues :=
      match securityDetails with
      | None => (issues ++ ["Unable to retrieve SSL certificate details"])%list
      | Some _ => issues
      end in
    let grade :=
      match securityDetails with
      | None => SSL_C
      | Some _ => grade
      end in
    ret {| ssl_enabled := true;
           ssl_protocol := option_map sd_protocol securityDetails;
           ssl_validCertificate := Some true;
           ssl_issuer := option_map sd_issuer securityDetails;
           ssl_expiryDate := None;
           ssl_grade := grade; ssl_issues := issues |}.

Definition passwordSelector : string :=
  "input[type=" ++ dquote ++ "password" ++ dquote ++ "]".

Definition usernameSelector : string :=
  "input[type=" ++ dquote ++ "text" ++ dquote ++ "], " ++
  "input[type=" ++ dquote ++ "email" ++ dquote ++ "], " ++
  "input[name*=" ++ dquote ++ "user" ++ dquote ++ "], " ++
  "input[name*=" ++ dquote ++ "rut" ++ dquote ++ "]".

Definition csrfSelector : string :=
  "input[name*=" ++ dquote ++ "csrf" ++ dquote ++ "], " ++
  "input[name*=" ++ dquote ++ "token" ++ dquote ++ "], " ++
  "input[name*=" ++ dquote ++ "_token" ++ dquote ++ "]".

Definition isSome {A} (o : option A) : bool :=
  match o with Some _ => true | None => false end.

(** The MFA keyword test on the page text. *)
Definition mentionsMFA (pageContent : string) : bool :=
  JsString.includes pageContent "MFA" ||
  JsString.includes pageContent "2FA" ||
  JsString.includes pageContent "autenticación de dos factores" ||
  JsString.includes pageContent "segundo factor" ||
  JsString.includes pageContent "token" ||
  JsString.includes pageContent "SMS" ||
  JsString.includes pageContent "código".

Definition analyzeAuthentication (page : Page) : M IAuthenticationAnalysis :=
  let methods : list string := [] in
  let passwordRequirements : list string := [] in
  (* Look for form elements *)
  hasPasswordField <- page_query page passwordSelector ;;
  hasUsernameField <- page_query page usernameSelector ;;
  let methods :=
    if isSome hasPasswordField && isSome hasUsernameField
    then (methods ++ ["username-password"])%list else methods in
  (* Look for MFA indicators *)
  pageContent <- page_content page ;;
  let mfaAvailable := if mentionsMFA pageContent then true else false in
  let mfaTypes :=
    if mentionsMFA pageContent then ["Detected via page content analysis"] else [] in
  (* Session management analysis *)
  cookies <- page_cookies page ;;
  let sessionManagement :=
    {| sm_timeout := None;
       sm_secureFlag := Some (existsb cookie_secure cookies);
       sm_httpOnlyFlag := Some (existsb cookie_httpOnly cookies) |} in
  (* Calculate grade *)
  let grade :=
    if (0 <? Z.of_nat (length methods)) && mfaAvailable then Grade_A
    else if (0 <? Z.of_nat (length methods)) then Grade_C
    else Grade_F in
  ret {| auth_methods := methods; mfaAvailable := mfaAvailable; mfaTypes := mfaTypes;
         passwordRequirements := passwordRequirements;
         sessionManagement := sessionManagement; auth_grade := grade |}.

Definition analyzeCSRF (page : Page) : M ICSRFAnalysis :=
  (* Look for CSRF tokens in forms *)
  csrfToken <- catch (v <- page_eval_value page csrfSelector ;; ret (Some v))
                     (fun _ => ret None) ;;
  let tokenPresent := JsString.truthy csrfToken in
  let isProtected := tokenPresent in
  ret {| tokenPresent := tokenPresent;
         tokenType := if tokenPresent then Some hidden_field else None;
         tokenValue := if tokenPresent then Some "[PRESENT]" else None;
         isProtected := isProtected;
         csrf_grade := if isProtected then Grade_A else Grade_F |}.

(* ------------------------------------------------------------------ *)
(** ** The orchestrator *)

Definition userAgent : string :=
  "Mozilla/5.0 (X11; Linux x86_64) AppleWebKit/537.36 (KHTML, like Gecko) Chrome/120.0.0.0 Safari/537.36 - Educational Security Research".

(** The 'response' handler: headers of responses for the login URL are
    merged into [responseHeaders]. *)
Definition onResponse (loginUrl : string) (responseHeaders : JsObject.t)
    (ev : string * JsObject.t) : JsObject.t :=
  if String.eqb (fst ev) loginUrl
  then JsObject.assign responseHeaders (snd ev)
  else responseHeaders.

(** The body of the [try] block of [auditBank]. *)
Definition auditBank_try (env : Env) (bank : IChileanBank) (browser : Browser)
  : M ISecurityAuditResult :=
  page <- browser_newPage browser ;;
  (* Set user agent *)
  _ <- page_setUserAgent page userAgent ;;
  (* Enable request interception for header analysis *)
  _ <- page_setRequestInterception page true ;;
  (* Navigate to login page *)
  response <- page_goto page (bank_loginUrl bank) 30000 ;;
  let responseHeaders :=
    fold_left (onResponse (bank_loginUrl bank)) (pg_responses page) JsObject.empty in
  match response with
  | None => throw (Error "Failed to load page - no response received")
  | Some response =>
      (* Analyze SSL *)
      ssl <- analyzeSSL response (bank_loginUrl bank) ;;
      (* Analyze security headers *)
      let headers := analyzeSecurityHeaders responseHeaders in
      (* Analyze authentication methods *)
      authentication <- analyzeAuthentication page ;;
      (* Analyze CSRF protection *)
      csrf <- analyzeCSRF page ;;
      (* Calculate risk score and recommendations *)
      let assessment := calculateRiskScore ssl headers authentication csrf in
      let auditResult :=
        {| bankCode := bank_code bank;
           bankName := bank_name bank;
           loginUrl := bank_loginUrl bank;
           timestamp := now env;
           ssl := ssl;
           headers := headers;
           authentication := authentication;
           csrf := csrf;
           recommendations := ra_recommendations assessment;
           riskScore := ra_riskScore assessment;
           status := completed;
           error := None |} in
      (* Save audit result to MongoDB *)
      _ <- insertOne env auditResult ;;
      ret auditResult
  end.

(** The record built in the [catch] block of [auditBank]. *)
Definition failedResult (env : Env) (bank : IChileanBank) (err : Exn)
  : ISecurityAuditResult :=
  {| bankCode := bank_code bank;
     bankName := bank_name bank;
     loginUrl := bank_loginUrl bank;
     timestamp := now env;
     ssl := {| ssl_enabled := false; ssl_protocol := None; ssl_validCertificate := None;
               ssl_issuer := None; ssl_expiryDate := None;
               ssl_grade := SSL_F; ssl_issues := ["Audit failed"] |};
     headers := {| strictTransportSecurity := false;
                   contentSecurityPolicy := false;
                   xFrameOptions := false;
                   xContentTypeOptions := false;
                   referrerPolicy := false;
                   permissionsPolicy := false;
                   hdr_headers := JsObject.empty;
                   hdr_grade := Grade_F |};
     authentication := {| auth_methods := []; mfaAvailable := false; mfaTypes := [];
                          passwordRequirements := [];
                          sessionManagement :=
                            {| sm_timeout := None; sm_secureFlag := None;
                               sm_httpOnlyFlag := None |};
                          auth_grade := Grade_F |};
     csrf := {| tokenPresent := false; tokenType := None; tokenValue := None;
                isProtected := false; csrf_grade := Grade_F |};
     recommendations := ["Audit failed - please retry"];
     riskScore := 100;
     status := failed;
     error := Some (message err) |}.

(** The [catch] block of [auditBank]. *)
Definition auditBank_catch (env : Env) (bank : IChileanBank) (err : Exn)
  : M ISecurityAuditResult :=
  _ <- insertOne env (failedResult env bank err) ;;
  throw err.

Definition auditBank (env : Env) (bankCode : string) (verbose : bool)
  : M ISecurityAuditResult :=
  bank <- getBankByCode env bankCode ;;
  browser <- launchBrowser env verbose ;;
  try_catch_finally
    (auditBank_try env bank browser)
    (auditBank_catch env bank)
    (browser_close browser).

(** ** Observations on a run *)

Definition is_launch (ev : Event) : bool :=
  match ev with CallLaunch => true | _ => false end.

Definition is_close (ev : Event) : bool :=
  match ev with CallClose => true | _ => false end.

Definition is_insert (ev : Event) : bool :=
  match ev with CallInsertOne _ => true | _ => false end.

Definition count (p : Event -> bool) (t : list Event) : nat :=
  length (filter p t).

(** The invariant of an SSL record: a disabled transport is graded F. *)
Definition ssl_invariant (s : ISSLAnalysis) : Prop :=
  ssl_enabled s = false -> ssl_grade s = SSL_F.

(* ------------------------------------------------------------------ *)
(** ** Vocabulary of the properties *)

(** Why [analyzeAuthentication] can reject: one of its four reads did. *)
Definition auth_read_rejects (page : Page) (e : Exn) : Prop :=
  pg_query page passwordSelector = Rejects e \/
  pg_query page usernameSelector = Rejects e \/
  pg_content page = Rejects e \/
  pg_cookies page = Rejects e.

(** The first input whose name matches the token pattern exists and holds
    a non-empty value. *)
Definition csrf_token_readable (page : Page) : Prop :=
  exists el, pg_query page csrfSelector = Resolves (Some el) /\
             el_value el <> EmptyString.

(** The extractors only read: the collections stay as they are and no
    event selected by [p] is added, as long as [p] selects none of the
    reads. *)
Definition reads_only (p : Event -> bool) (w w' : World) : Prop :=
  banks w' = banks w /\ audits w' = audits w /\
  count p (trace w') = count p (trace w).

(** [post m w Q]: run from [w], [m] settles with an outcome and a world
    related by [Q]. *)
Definition post {A} (m : M A) (w : World) (Q : Outcome A -> World -> Prop) : Prop :=
  Q (fst (m w)) (snd (m w)).

(** Computations that move the world along the relation [R]. *)
Definition respects (R : World -> World -> Prop) {A} (m : M A) : Prop :=
  forall w, R w (snd (m w)).

(** [p] selects session events only: launches and closes. *)
Definition session_only (p : Event -> bool) : Prop :=
  forall ev, p ev = true -> is_launch ev = true \/ is_close ev = true.

Definition is_eval (ev : Event) : bool :=
  match ev with CallEval _ => true | _ => false end.

(** What the [try] block guarantees when started in [w0]. *)
Definition try_post (p : Event -> bool) (w0 : World)
    (o : Outcome ISecurityAuditResult) (w' : World) : Prop :=
  banks w' = banks w0 /\
  count p (trace w') = count p (trace w0) /\
  match o with
  | Rejects _ => audits w' = audits w0
  | Resolves r =>
      audits w' = (audits w0 ++ [r])%list /\
      status r = completed /\ ssl_invariant (ssl r)
  end.

(** Navigation succeeded: the browser was launched, the page was set up
    and [goto] returned a response. *)
Definition navigated (env : Env) (bank : IChileanBank) (browser : Browser)
    (page : Page) (response : HTTPResponse) : Prop :=
  puppeteer_launch env = Resolves browser /\
  br_newPage browser = Resolves page /\
  pg_setUserAgent page = Resolves tt /\
  pg_setRequestInterception page = Resolves tt /\
  pg_goto page (bank_loginUrl bank) = Resolves (Some response).

(** The part of the [try] block that follows a successful navigation. *)
Definition auditBank_extract (env : Env) (bank : IChileanBank) (page : Page)
    (response : HTTPResponse) : M ISecurityAuditResult :=
  let responseHeaders :=
    fold_left (onResponse (bank_loginUrl bank)) (pg_responses page) JsObject.empty in
  ssl <- analyzeSSL response (bank_loginUrl bank) ;;
  let headers := analyzeSecurityHeaders responseHeaders in
  authentication <- analyzeAuthentication page ;;
  csrf <- analyzeCSRF page ;;
  let assessment := calculateRiskScore ssl headers authentication csrf in
  let auditResult :=
    {| bankCode := bank_code bank;
       bankName := bank_name bank;
       loginUrl := bank_loginUrl bank;
       timestamp := now env;
       ssl := ssl;
       headers := headers;
       authentication := authentication;
       csrf := csrf;
       recommendations := ra_recommendations assessment;
       riskScore := ra_riskScore assessment;
       status := completed;
       error := None |} in
  _ <- insertOne env auditResult ;;
  ret auditResult.

(** The world once the page is set up and loaded. *)
Definition after_navigation (bank : IChileanBank) (w : World) : World :=
  log (CallGoto (bank_loginUrl bank) 30000)
    (log (CallSetRequestInterception true)
       (log (CallSetUserAgent userAgent) (log CallNewPage w))).

(** What a stored or returned record must satisfy as far as TLS goes. *)
Definition ssl_sound (r : ISecurityAuditResult) : Prop :=
  ssl_invariant (ssl r) /\
  (status r = failed -> ssl_enabled (ssl r) = false /\ ssl_grade (ssl r) = SSL_F).

(** What [try]/[catch] together guarantee when started in [w0]. *)
Definition guarded_post (p : Event -> bool) (w0 : World)
    (o : Outcome ISecurityAuditResult) (w' : World) : Prop :=
  banks w' = banks w0 /\
  count p (trace w') = count p (trace w0) /\
  (audits w' = audits w0 \/
   exists r, audits w' = (audits w0 ++ [r])%list /\ ssl_sound r) /\
  match o with
  | Resolves r => ssl_sound r
  | Rejects _ => True
  end.

(* ------------------------------------------------------------------ *)
(** ** Sample inputs *)

Module Samples.

Definition ssl_off : ISSLAnalysis :=
  {| ssl_enabled := false; ssl_protocol := None; ssl_validCertificate := None;
     ssl_issuer := None; ssl_expiryDate := None; ssl_grade := SSL_F;
     ssl_issues := ["No HTTPS"; "Expired cert"] |}.

Definition ssl_on : ISSLAnalysis :=
  {| ssl_enabled := true; ssl_protocol := Some "TLS 1.3";
     ssl_validCertificate := Some true; ssl_issuer := Some "Let's Encrypt";
     ssl_expiryDate := None; ssl_grade := SSL_Aplus; ssl_issues := [] |}.

Definition headers_none : ISecurityHeaders :=
  {| strictTransportSecurity := false; contentSecurityPolicy := false;
     xFrameOptions := false; xContentTypeOptions := false;
     referrerPolicy := false; permissionsPolicy := false;
     hdr_headers := JsObject.empty; hdr_grade := Grade_F |}.

Definition headers_all : ISecurityHeaders :=
  {| strictTransportSecurity := true; contentSecurityPolicy := true;
     xFrameOptions := true; xContentTypeOptions := true;
     referrerPolicy := true; permissionsPolicy := true;
     hdr_headers := JsObject.empty; hdr_grade := Grade_A |}.

Definition no_session : SessionManagement :=
  {| sm_timeout := None; sm_secureFlag := None; sm_httpOnlyFlag := None |}.

Definition auth_none : IAuthenticationAnalysis :=
  {| auth_methods := []; mfaAvailable := false; mfaTypes := [];
     passwordRequirements := []; sessionManagement := no_session;
     auth_grade := Grade_F |}.

Definition auth_mfa : IAuthenticationAnalysis :=
  {| auth_methods := ["username-password"]; mfaAvailable := true;
     mfaTypes := ["Detected via page content analysis"];
     passwordRequirements := []; sessionManagement := no_session;
     auth_grade := Grade_A |}.

Definition csrf_off : ICSRFAnalysis :=
  {| tokenPresent := false; tokenType := None; tokenValue := None;
     isProtected := false; csrf_grade := Grade_F |}.

Definition csrf_on : ICSRFAnalysis :=
  {| tokenPresent := true; tokenType := Some hidden_field;
     tokenValue := Some "[PRESENT]"; isProtected := true; csrf_grade := Grade_A |}.

(** Response headers as a server may send them, names in mixed case. *)
Definition hsts_csp_headers : JsObject.t :=
  [ ("Strict-Transport-Security", "max-age=31536000");
    ("Content-Security-Policy", "default-src 'self'");
    ("Content-Type", "text/html") ].

End Samples.

(** Pages and worlds used as concrete inputs. *)
Module SamplePages.

Definition resolves_unit : Outcome unit := Resolves tt.

(** A login form with a user field, a password field and a CSRF input
    whose value is [token_value]; the text mentions no MFA keyword. *)
Definition login_page (token_value : string) : Page :=
  {| pg_setUserAgent := resolves_unit;
     pg_setRequestInterception := resolves_unit;
     pg_goto := fun _ => Resolves (Some {| resp_securityDetails :=
                  Some {| sd_protocol := "TLS 1.3"; sd_issuer := "Let's Encrypt" |} |});
     pg_responses := [("https://example.test", Samples.hsts_csp_headers)];
     pg_query := fun sel =>
       if String.eqb sel csrfSelector
       then Resolves (Some {| el_value := token_value |})
       else Resolves (Some {| el_value := EmptyString |});
     pg_content := Resolves "Login page";
     pg_cookies := Resolves [] |}.

(** The same form without any CSRF input. *)
Definition page_without_token : Page :=
  {| pg_setUserAgent := resolves_unit;
     pg_setRequestInterception := resolves_unit;
     pg_goto := pg_goto (login_page EmptyString);
     pg_responses := pg_responses (login_page EmptyString);
     pg_query := fun sel =>
       if String.eqb sel csrfSelector
       then Resolves None
       else Resolves (Some {| el_value := EmptyString |});
     pg_content := Resolves "Login page";
     pg_cookies := Resolves [] |}.

(** A page whose DOM cannot be read once loaded (for instance the frame
    got detached): every query rejects. *)
Definition detached_page : Page :=
  {| pg_setUserAgent := resolves_unit;
     pg_setRequestInterception := resolves_unit;
     pg_goto := pg_goto (login_page EmptyString);
     pg_responses := pg_responses (login_page EmptyString);
     pg_query := fun _ => Rejects (Error "Execution context was destroyed");
     pg_content := Resolves "Login page";
     pg_cookies := Resolves [] |}.

(** A page whose navigation times out. *)
Definition unreachable_page : Page :=
  {| pg_setUserAgent := resolves_unit;
     pg_setRequestInterception := resolves_unit;
     pg_goto := fun _ => Rejects (Error "Navigation timeout of 30000 ms exceeded");
     pg_responses := [];
     pg_query := fun _ => Resolves None;
     pg_content := Resolves EmptyString;
     pg_cookies := Resolves [] |}.

(** Headers of a well-configured server. *)
Definition all_six_headers : JsObject.t :=
  [ ("strict-transport-security", "max-age=31536000");
    ("content-security-policy", "default-src 'self'");
    ("x-frame-options", "DENY");
    ("x-content-type-options", "nosniff");
    ("referrer-policy", "no-referrer");
    ("permissions-policy", "geolocation=()") ].

(** A login page with every signal in place: the six headers, user and
    password fields, an MFA keyword in the text, a CSRF input with a value. *)
Definition hardened_page : Page :=
  {| pg_setUserAgent := resolves_unit;
     pg_setRequestInterception := resolves_unit;
     pg_goto := pg_goto (login_page EmptyString);
     pg_responses :=
       [ ("https://cdn.example.test/app.js", [("x-powered-by", "cdn")]);
         ("https://example.test", all_six_headers) ];
     pg_query := pg_query (login_page "7f3a9c");
     pg_content := Resolves "Ingrese su usuario, clave y token";
     pg_cookies := Resolves [ {| cookie_secure := true; cookie_httpOnly := true |} ] |}.

Definition browser_with (page : Page) : Browser :=
  {| br_newPage := Resolves page; br_close := Resolves tt |}.

Definition env_with (launch : Outcome Browser) : Env :=
  {| findOne_fault := None;
     insertOne_fault := fun _ => None;
     puppeteer_launch := launch;
     now := 1762000000000 |}.

Definition bank_T1 : IChileanBank :=
  {| bank_id := None; bank_name := "Test Bank"; bank_code := "T1";
     bank_loginUrl := "https://example.test"; bank_description := None;
     bank_active := true; bank_createdAt := None; bank_updatedAt := None |}.

Definition world0 : World :=
  {| banks := [bank_T1]; audits := []; trace := [] |}.

End SamplePages.

(* ------------------------------------------------------------------ *)
(** ** BankAuditService: bank registration and audit history *)

Record CreateBankDto : Type := {
  dto_name : string;
  dto_code : string;
  dto_loginUrl : string;
  dto_description : option string;
  dto_active : option bool
}.

(** What the database does with one insert into the banks collection: it
    fails for a reason of its own, or assigns [bank_insert_id]. *)
Record BankInsert : Type := {
  bank_insert_fault : option Exn;
  bank_insert_id : string
}.

Definition add_bank (bank : IChileanBank) (w : World) : World :=
  {| banks := banks w ++ [bank]; audits := audits w; trace := trace w |}.

Definition code_taken (code : string) (w : World) : bool :=
  existsb (fun b => String.eqb (bank_code b) code) (banks w).

Definition with_id (bank : IChileanBank) (id : string) : IChileanBank :=
  {| bank_id := Some id;
     bank_name := bank_name bank;
     bank_code := bank_code bank;
     bank_loginUrl := bank_loginUrl bank;
     bank_description := bank_description bank;
     bank_active := bank_active bank;
     bank_createdAt := bank_createdAt bank;
     bank_updatedAt := bank_updatedAt bank |}.

(** [banksCollection.insertOne(bank)], under the unique index on [code]
    that [initializeMongoDB] creates.  The driver sets [_id] on the
    document it is given when it has none, so the caller's object is the
    stored document. *)
Definition banks_insertOne (db : BankInsert) (bank : IChileanBank) : M IChileanBank :=
  fun w =>
    match bank_insert_fault db with
    | Some e => (Rejects e, w)
    | None =>
        if code_taken (bank_code bank) w then
          (Rejects (Error "E11000 duplicate key error collection: chilean-banks-audit.banks index: code_1"), w)
        else
          let doc :=
            match bank_id bank with
            | Some _ => bank
            | None => with_id bank (bank_insert_id db)
            end in
          (Resolves doc, add_bank doc w)
    end.

(** What the database does with one [find(...).toArray()]: it answers
    the query, or fails for a reason of its own. *)
Record FindQuery : Type := {
  find_fault : option Exn
}.

(** [banksCollection.find().toArray()] *)
Definition getAllBanks (db : FindQuery) : M (list IChileanBank) :=
  fun w =>
    match find_fault db with
    | Some e => (Rejects e, w)
    | None => (Resolves (banks w), w)
    end.

(** [createdAt] and [updatedAt] are the two clock readings [t1], [t2]. *)
Definition createBank (db : BankInsert) (t1 t2 : Z) (createBankDto : CreateBankDto)
  : M IChileanBank :=
  let bank :=
    {| bank_id := None;
       bank_name := dto_name createBankDto;
       bank_code := JsString.toUpperCase (dto_code createBankDto);
       bank_loginUrl := dto_loginUrl createBankDto;
       bank_description := dto_description createBankDto;
       bank_active := match dto_active createBankDto with
                      | Some b => b
                      | None => true
                      end;
       bank_createdAt := Some t1;
       bank_updatedAt := Some t2 |} in
  bank <- banks_insertOne db bank ;;
  ret bank.

(** [.sort({ timestamp: -1 })]: newest first.  Records with equal
    timestamps keep their stored order (the database promises no order
    among them). *)
Fixpoint insert_desc (r : ISecurityAuditResult) (l : list ISecurityAuditResult)
  : list ISecurityAuditResult :=
  match l with
  | [] => [r]
  | x :: rest =>
      if timestamp r <? timestamp x then x :: insert_desc r rest else r :: l
  end.

Definition sort_desc (l : list ISecurityAuditResult) : list ISecurityAuditResult :=
  fold_right insert_desc [] l.

(** [.limit(n)]: 0 means no limit; a negative [n] asks for a single batch
    of at most [-n] documents. *)
Definition cursor_limit (n : Z) (l : list ISecurityAuditResult)
  : list ISecurityAuditResult :=
  if n =? 0 then l else firstn (Z.abs_nat n) l.

(** [getAuditHistory(bankCode, limit = 10)], for a limit that is an
    integer. *)
Definition getAuditHistory (db : FindQuery) (code : string) (limit : option Z)
  : M (list ISecurityAuditResult) :=
  let limit := match limit with Some n => n | None => 10 end in
  fun w =>
    match find_fault db with
    | Some e => (Rejects e, w)
    | None =>
        (Resolves
           (cursor_limit limit
              (sort_desc
                 (filter (fun r => String.eqb (bankCode r) (JsString.toUpperCase code))
                    (audits w)))),
         w)
    end.


(** Inputs for the bank registry. *)
Module SampleBanks.

Definition db_ok : BankInsert :=
  {| bank_insert_fault := None; bank_insert_id := "65f0c0ffee0000000000abcd" |}.

Definition dto_bchile : CreateBankDto :=
  {| dto_name := "Banco de Chile";
     dto_code := "bchile";
     dto_loginUrl := "https://login.portal.bancochile.cl";
     dto_description := None;
     dto_active := None |}.

Definition empty_world : World :=
  {| banks := []; audits := []; trace := [] |}.

Definition env_ok : Env :=
  {| findOne_fault := None;
     insertOne_fault := fun _ => None;
     puppeteer_launch := Rejects (Error "Failed to launch the browser process");
     now := 1762000000000 |}.

Definition find_ok : FindQuery := {| find_fault := None |}.


(** A bank whose code has a letter outside ASCII. *)
Definition bank_banco : IChileanBank :=
  {| bank_id := None; bank_name := "Banco Ñandú"; bank_code := "BAÑCO";
     bank_loginUrl := "https://example.test"; bank_description := None;
     bank_active := true; bank_createdAt := None; bank_updatedAt := None |}.

Definition dto_banco : CreateBankDto :=
  {| dto_name := "Banco Ñandú";
     dto_code := "bañco";
     dto_loginUrl := "https://example.test";
     dto_description := None;
     dto_active := None |}.

Definition world_banco : World :=
  {| banks := [bank_banco]; audits := []; trace := [] |}.

(** A registry with an earlier audit of T1 and a later audit of another
    bank. *)
Definition earlier_audit : ISecurityAuditResult :=
  failedResult
    {| findOne_fault := None; insertOne_fault := fun _ => None;
       puppeteer_launch := Rejects (Error "Failed to launch the browser process");
       now := 1761000000000 |}
    SamplePages.bank_T1 (Error "net::ERR_NAME_NOT_RESOLVED").

Definition other_audit : ISecurityAuditResult :=
  failedResult
    {| findOne_fault := None; insertOne_fault := fun _ => None;
       puppeteer_launch := Rejects (Error "Failed to launch the browser process");
       now := 1763000000000 |}
    bank_banco (Error "net::ERR_NAME_NOT_RESOLVED").

Definition world_with_history : World :=
  {| banks := [SamplePages.bank_T1; bank_banco];
     audits := [earlier_audit; other_audit];
     trace := [] |}.

End SampleBanks.


(** [a] comes no later in a newest-first listing than [b]. *)
Definition newer_or_equal (a b : ISecurityAuditResult) : Prop :=
  timestamp b <= timestamp a.

(** The stored audits of the bank that [code] designates. *)
Definition audits_of (code : string) (w : World) : list ISecurityAuditResult :=
  filter (fun r => String.eqb (bankCode r) (JsString.toUpperCase code)) (audits w).


(** A record as the [try] block of [auditBank] assembles it for [bank],
    from the page it opened. *)
Definition completed_shape (env : Env) (bank : IChileanBank) (page : Page)
    (r : ISecurityAuditResult) : Prop :=
  bankCode r = bank_code bank /\
  bankName r = bank_name bank /\
  loginUrl r = bank_loginUrl bank /\
  timestamp r = now env /\
  status r = completed /\
  error r = None /\
  headers r =
    analyzeSecurityHeaders
      (fold_left (onResponse (bank_loginUrl bank)) (pg_responses page) JsObject.empty) /\
  riskScore r =
    ra_riskScore (calculateRiskScore (ssl r) (headers r) (authentication r) (csrf r)) /\
  recommendations r =
    ra_recommendations (calculateRiskScore (ssl r) (headers r) (authentication r) (csrf r)).

(** The three ways a run of [auditBank] can end, seen from the audits
    collection: nothing stored, a completed record stored, a failed record
    stored. *)
Definition audit_outcome (env : Env) (code : string) (w : World)
    (o : Outcome ISecurityAuditResult) (w' : World) : Prop :=
  (audits w' = audits w /\ exists e, o = Rejects e) \/
  (exists bank browser page r,
     fst (getBankByCode env code w) = Resolves bank /\
     puppeteer_launch env = Resolves browser /\
     br_newPage browser = Resolves page /\
     completed_shape env bank page r /\
     audits w' = (audits w ++ [r])%list /\
     (o = Resolves r \/ exists e, o = Rejects e /\ br_close browser = Rejects e)) \/
  (exists bank e,
     fst (getBankByCode env code w) = Resolves bank /\
     audits w' = (audits w ++ [failedResult env bank e])%list /\
     exists e', o = Rejects e').


(** What every record written by [auditBank] for [code] looks like. *)
Definition audit_record_ok (env : Env) (code : string) (r : ISecurityAuditResult) : Prop :=
  bankCode r = JsString.toUpperCase code /\
  timestamp r = now env /\
  recommendations r <> [] /\
  ((status r = completed /\ error r = None /\ 0 <= riskScore r <= 90 /\
    riskScore r =
      ra_riskScore (calculateRiskScore (ssl r) (headers r) (authentication r) (csrf r)) /\
    recommendations r =
      ra_recommendations (calculateRiskScore (ssl r) (headers r) (authentication r) (csrf r)))
   \/
   (status r = failed /\ riskScore r = 100 /\ error r <> None /\
    recommendations r = ["Audit failed - please retry"])).

(** A browser that shows [page] but fails to close. *)
Definition stuck_browser (page : Page) : Browser :=
  {| br_newPage := Resolves page;
     br_close := Rejects (Error "Protocol error: Connection closed") |}.


(** The value a server sent last under [name], header names compared
    without regard to ASCII letter case. *)
Definition sent_last (raw : JsObject.t) (name : string) : option string :=
  option_map snd
    (find (fun kv => String.eqb (JsString.toLowerCase (fst kv)) name) (rev raw)).

(** The grading rule as the specification words it, read on the raw
    header map.  A header is [present] when the response carries it, and
    [counted] when moreover the value sent last under its name is not
    empty.  It is compared with [analyzeSecurityHeaders] below. *)
Module RawHeaderSpec.

Definition present (raw : JsObject.t) (name : string) : bool :=
  match sent_last raw name with
  | Some _ => true
  | None => false
  end.

Definition counted (raw : JsObject.t) (name : string) : bool :=
  match sent_last raw name with
  | Some v => negb (String.eqb v EmptyString)
  | None => false
  end.

Definition weights : list (string * Z) :=
  [ ("strict-transport-security", 20); ("content-security-policy", 25);
    ("x-frame-options", 15); ("x-content-type-options", 15);
    ("referrer-policy", 10); ("permissions-policy", 15) ].

Definition score (raw : JsObject.t) : Z :=
  fold_right
    (fun (nw : string * Z) acc => (if counted raw (fst nw) then snd nw else 0) + acc)
    0 weights.

Definition grade (raw : JsObject.t) : Grade :=
  HeaderSpec.bucket HeaderSpec.thresholds (score raw).

End RawHeaderSpec.

(** A response that carries HSTS with an empty value, and CSP. *)
Definition hsts_empty_csp : JsObject.t :=
  [ ("strict-transport-security", EmptyString);
    ("content-security-policy", "default-src 'self'") ].

(** Grades in increasing order of merit. *)
Definition grade_rank (g : Grade) : Z :=
  match g with
  | Grade_F => 0 | Grade_D => 1 | Grade_C => 2 | Grade_B => 3 | Grade_A => 4
  end.

(** Every header flagged in [h1] is flagged in [h2]. *)
Definition flags_le (h1 h2 : ISecurityHeaders) : Prop :=
  (strictTransportSecurity h1 = true -> strictTransportSecurity h2 = true) /\
  (contentSecurityPolicy h1 = true -> contentSecurityPolicy h2 = true) /\
  (xFrameOptions h1 = true -> xFrameOptions h2 = true) /\
  (xContentTypeOptions h1 = true -> xContentTypeOptions h2 = true) /\
  (referrerPolicy h1 = true -> referrerPolicy h2 = true) /\
  (permissionsPolicy h1 = true -> permissionsPolicy h2 = true).


(** The hardened page, except that the server answers under the URL with
    a trailing slash, as a browser reports it for a bare origin. *)
Definition slash_page : Page :=
  {| pg_setUserAgent := SamplePages.resolves_unit;
     pg_setRequestInterception := SamplePages.resolves_unit;
     pg_goto := pg_goto SamplePages.hardened_page;
     pg_responses := [ ("https://example.test/", SamplePages.all_six_headers) ];
     pg_query := pg_query SamplePages.hardened_page;
     pg_content := pg_content SamplePages.hardened_page;
     pg_cookies := pg_cookies SamplePages.hardened_page |}.


(* ------------------------------------------------------------------ *)
(** ** AuditRunner (scripts): one attempt per bank, errors collected *)

Record AuditAttempt : Type := {
  att_bankCode : string;
  att_bankName : string;
  att_attempt : Z;
  att_timestamp : Z;
  att_success : bool;
  att_result : option ISecurityAuditResult;
  att_error : option string;
  att_errorStack : option string;
  att_duration : Z
}.

(** What the runner's surroundings do during one attempt: the clock
    readings, the stack an error carries, and whether appending to the
    error log file fails. *)
Record RunnerEnv : Type := {
  run_started : Z;
  run_stamped : Z;
  run_finished : Z;
  run_stack : Exn -> option string;
  run_log_fault : option Exn
}.

(** The runner's own state: [this.attempts], and the attempts written to
    errors.log (the text written is a rendering of the attempt). *)
Record RunnerState : Type := {
  attempts : list AuditAttempt;
  errorLog : list AuditAttempt
}.

Definition with_bankName (a : AuditAttempt) (name : string) : AuditAttempt :=
  {| att_bankCode := att_bankCode a; att_bankName := name;
     att_attempt := att_attempt a; att_timestamp := att_timestamp a;
     att_success := att_success a; att_result := att_result a;
     att_error := att_error a; att_errorStack := att_errorStack a;
     att_duration := att_duration a |}.

Definition with_success (a : AuditAttempt) (result : ISecurityAuditResult) (duration : Z)
  : AuditAttempt :=
  {| att_bankCode := att_bankCode a; att_bankName := att_bankName a;
     att_attempt := att_attempt a; att_timestamp := att_timestamp a;
     att_success := true; att_result := Some result;
     att_error := att_error a; att_errorStack := att_errorStack a;
     att_duration := duration |}.

Definition with_failure (a : AuditAttempt) (msg : string) (stack : option string)
    (duration : Z) : AuditAttempt :=
  {| att_bankCode := att_bankCode a; att_bankName := att_bankName a;
     att_attempt := att_attempt a; att_timestamp := att_timestamp a;
     att_success := false; att_result := att_result a;
     att_error := Some msg; att_errorStack := stack;
     att_duration := duration |}.

(** [this.attempts.push(attempt); return attempt;] *)
Definition runner_push (attempt : AuditAttempt) (w : World) (st : RunnerState)
  : Outcome AuditAttempt * (World * RunnerState) :=
  (Resolves attempt,
   (w, {| attempts := attempts st ++ [attempt]; errorLog := errorLog st |})).

(** The [catch] block of [AuditRunner.auditBank], followed by the push. *)
Definition runner_catch (renv : RunnerEnv) (attempt : AuditAttempt) (err : Exn)
    (w : World) (st : RunnerState) : Outcome AuditAttempt * (World * RunnerState) :=
  let attempt :=
    with_failure attempt (message err) (run_stack renv err)
      (run_finished renv - run_started renv) in
  (* this.logError(attempt) *)
  match run_log_fault renv with
  | Some e => (Rejects e, (w, st))
  | None =>
      runner_push attempt w
        {| attempts := attempts st; errorLog := errorLog st ++ [attempt] |}
  end.

(** [AuditRunner.auditBank(bankCode, attemptNumber = 1)] *)
Definition runner_auditBank (env : Env) (renv : RunnerEnv) (code : string)
    (attemptNumber : option Z) (w : World) (st : RunnerState)
  : Outcome AuditAttempt * (World * RunnerState) :=
  let attempt :=
    {| att_bankCode := code; att_bankName := EmptyString;
       att_attempt := match attemptNumber with Some n => n | None => 1 end;
       att_timestamp := run_stamped renv;
       att_success := false; att_result := None;
       att_error := None; att_errorStack := None;
       att_duration := 0 |} in
  (* Get bank details first *)
  match getBankByCode env code w with
  | (Rejects err, w1) => runner_catch renv attempt err w1 st
  | (Resolves bank, w1) =>
      let attempt := with_bankName attempt (bank_name bank) in
      (* Run the audit *)
      match auditBank env code true w1 with
      | (Rejects err, w2) => runner_catch renv attempt err w2 st
      | (Resolves result, w2) =>
          let attempt :=
            with_success attempt result (run_finished renv - run_started renv) in
          runner_push attempt w2 st
      end
  end.

Inductive ErrorType : Type :=
| TIMEOUT | NAVIGATION_FAILED | NETWORK_ERROR | ELEMENT_NOT_FOUND
| DATABASE_ERROR | UNKNOWN_ERROR.

Definition errorType_eqb (a b : ErrorType) : bool :=
  match a, b with
  | TIMEOUT, TIMEOUT | NAVIGATION_FAILED, NAVIGATION_FAILED
  | NETWORK_ERROR, NETWORK_ERROR | ELEMENT_NOT_FOUND, ELEMENT_NOT_FOUND
  | DATABASE_ERROR, DATABASE_ERROR | UNKNOWN_ERROR, UNKNOWN_ERROR => true
  | _, _ => false
  end.

Definition categorizeError (errorMessage : string) : ErrorType :=
  if JsString.includes errorMessage "timeout" || JsString.includes errorMessage "Timeout"
  then TIMEOUT
  else if JsString.includes errorMessage "navigation"
          || JsString.includes errorMessage "Navigation"
  then NAVIGATION_FAILED
  else if JsString.includes errorMessage "net::ERR" then NETWORK_ERROR
  else if JsString.includes errorMessage "Cannot find" then ELEMENT_NOT_FOUND
  else if JsString.includes errorMessage "MONGODB_URI"
          || JsString.includes errorMessage "database"
  then DATABASE_ERROR
  else UNKNOWN_ERROR.

Record ErrorPattern : Type := {
  errorType : ErrorType;
  pat_count : Z;
  affectedBanks : list string;
  sampleMessage : string
}.

(** [attempt.error || ''] *)
Definition error_or_empty (a : AuditAttempt) : string :=
  match att_error a with
  | Some (String c s) => String c s
  | _ => EmptyString
  end.

(** [errorMap.has(errorType)] on the map kept in insertion order. *)
Definition errorMap_has (m : list ErrorPattern) (t : ErrorType) : bool :=
  existsb (fun p => errorType_eqb (errorType p) t) m.

(** [pattern.count++] and the conditional push onto [affectedBanks], on
    the entry of the map whose key is [t]. *)
Fixpoint errorMap_bump (m : list ErrorPattern) (t : ErrorType) (code : string)
  : list ErrorPattern :=
  match m with
  | [] => []
  | p :: rest =>
      if errorType_eqb (errorType p) t then
        {| errorType := errorType p;
           pat_count := pat_count p + 1;
           affectedBanks :=
             if existsb (String.eqb code) (affectedBanks p)
             then affectedBanks p
             else affectedBanks p ++ [code];
           sampleMessage := sampleMessage p |} :: rest
      else p :: errorMap_bump rest t code
  end.

(** The body of the [forEach] over the failed attempts. *)
Definition errorMap_step (m : list ErrorPattern) (attempt : AuditAttempt)
  : list ErrorPattern :=
  let t := categorizeError (error_or_empty attempt) in
  let m :=
    if negb (errorMap_has m t) then
      (m ++ [ {| errorType := t; pat_count := 0; affectedBanks := [];
                 sampleMessage := error_or_empty attempt |} ])%list
    else m in
  errorMap_bump m t (att_bankCode attempt).

(** [.sort((a, b) => b.count - a.count)]: stable, largest count first. *)
Fixpoint insert_by_count (p : ErrorPattern) (l : list ErrorPattern) : list ErrorPattern :=
  match l with
  | [] => [p]
  | x :: rest =>
      if pat_count p <? pat_count x then x :: insert_by_count p rest else p :: l
  end.

Definition sort_by_count (l : list ErrorPattern) : list ErrorPattern :=
  fold_right insert_by_count [] l.

Definition analyzeErrorPatterns (st : RunnerState) : list ErrorPattern :=
  let errorMap :=
    fold_left errorMap_step
      (filter (fun a => negb (att_success a)) (attempts st)) [] in
  sort_by_count errorMap.


(** A clock and a log that works. *)
Definition sample_renv : RunnerEnv :=
  {| run_started := 1762000000000;
     run_stamped := 1762000000001;
     run_finished := 1762000004200;
     run_stack := fun _ => None;
     run_log_fault := None |}.

Definition no_attempts : RunnerState := {| attempts := []; errorLog := [] |}.


(** Vocabulary for the error patterns. *)
Definition category (a : AuditAttempt) : ErrorType :=
  categorizeError (error_or_empty a).

Definition failed_attempts (st : RunnerState) : list AuditAttempt :=
  filter (fun a => negb (att_success a)) (attempts st).

(** How many of [l] fall in category [t]. *)
Definition count_of (t : ErrorType) (l : list AuditAttempt) : Z :=
  Z.of_nat (length (filter (fun a => errorType_eqb (category a) t) l)).

Definition total_count (ps : list ErrorPattern) : Z :=
  fold_right (fun p acc => pat_count p + acc) 0 ps.

(** The entry for [t] after one more attempt on bank [code]. *)
Definition bumped (t : ErrorType) (code : string) (p : ErrorPattern) : ErrorPattern :=
  if errorType_eqb (errorType p) t then
    {| errorType := errorType p;
       pat_count := pat_count p + 1;
       affectedBanks :=
         if existsb (String.eqb code) (affectedBanks p)
         then affectedBanks p
         else affectedBanks p ++ [code];
       sampleMessage := sampleMessage p |}
  else p.

(** A pattern that reports exactly the attempts of [l] in its category. *)
Definition pattern_exact (l : list AuditAttempt) (p : ErrorPattern) : Prop :=
  pat_count p = count_of (errorType p) l /\
  NoDup (affectedBanks p) /\
  (forall c, In c (affectedBanks p) <->
             exists a, In a l /\ category a = errorType p /\ att_bankCode a = c).

Definition more_frequent (a b : ErrorPattern) : Prop := pat_count b <= pat_count a.


(** The error map after the attempts [done] have been folded in. *)
Definition errorMap_inv (done : list AuditAttempt) (m : list ErrorPattern) : Prop :=
  NoDup (map errorType m) /\
  Forall (pattern_exact done) m /\
  (forall t, In t (map errorType m) <-> exists a, In a done /\ category a = t) /\
  total_count m = Z.of_nat (length done).


(** The recommendations pushed by the [switch] for one pattern. *)
Definition improvements_for (t : ErrorType) : list string :=
  match t with
  | TIMEOUT =>
      [ "⏰ Increase timeout values for slower-loading pages (current: 30s)";
        "🔄 Implement retry logic with exponential backoff" ]
  | NAVIGATION_FAILED =>
      [ "🌐 Add URL validation and reachability checks before audit";
        "🔄 Implement fallback URLs for banks with multiple portals" ]
  | NETWORK_ERROR =>
      [ "📡 Add network connectivity checks before starting audit";
        "🔄 Implement request retry mechanism" ]
  | ELEMENT_NOT_FOUND =>
      [ "🔍 Make element selectors more flexible (multiple fallback selectors)";
        "📸 Capture screenshots when elements not found for debugging" ]
  | DATABASE_ERROR =>
      [ "🗄️  Ensure MongoDB Atlas URI is configured in .env file";
        "✅ Validate database connection before running audits" ]
  | UNKNOWN_ERROR => []
  end.

Definition newline : string := String (ascii_of_N 10) EmptyString.

(** [list.join(sep)] *)
Fixpoint join (sep : string) (l : list string) : string :=
  match l with
  | [] => EmptyString
  | x :: rest =>
      match rest with
      | [] => x
      | _ => x ++ sep ++ join sep rest
      end
  end.

(** A non-negative integer in a template string. *)
Definition nat_to_string (n : nat) : string :=
  DecimalString.NilEmpty.string_of_uint (Nat.to_uint n).

(** [list.map((rec, idx) => `${idx + 1}. ${rec}`)], from index [idx]. *)
Fixpoint numbered_from (idx : nat) (l : list string) : list string :=
  match l with
  | [] => []
  | rec :: rest => (nat_to_string (idx + 1) ++ ". " ++ rec) :: numbered_from (S idx) rest
  end.

Definition generateImprovementRecommendations (st : RunnerState) : string :=
  let patterns := analyzeErrorPatterns st in
  let recommendations := flat_map (fun p => improvements_for (errorType p)) patterns in
  if Z.of_nat (length recommendations) =? 0 then
    "✅ All audits successful! No improvements needed at this time."
  else join newline (numbered_from 0 recommendations).

(** Two attempts on an unregistered code. *)
Definition two_unknown_banks : RunnerState :=
  let failure code :=
    {| att_bankCode := code; att_bankName := EmptyString; att_attempt := 1;
       att_timestamp := 1762000000001; att_success := false; att_result := None;
       att_error := Some ("Bank with code " ++ code ++ " not found");
       att_errorStack := None; att_duration := 12 |} in
  {| attempts := [failure "NOPE"; failure "NADA"]; errorLog := [] |}.


(* ------------------------------------------------------------------ *)
(** ** BankAuditController: the cached endpoints *)

(** cache.config.ts *)
Module CacheKeys.

Definition AUDIT_RESULT (code : string) : string := "audit:result:" ++ code.

(** An integer of magnitude below 10^21 in a template string: all its
    digits.  (From 10^21 on JavaScript writes an exponent.) *)
Definition z_to_string (n : Z) : string :=
  DecimalString.NilZero.string_of_int (Z.to_int n).

Definition AUDIT_HISTORY (code : string) (limit : Z) : string :=
  "audit:history:" ++ code ++ ":" ++ z_to_string limit.

Definition ALL_BANKS : string := "banks:all".

Definition BANK_BY_CODE (code : string) : string := "bank:" ++ code.

End CacheKeys.

(** [getInvalidationKeys(bankCode)]; [seq 0 10] is the index [i] of
    [Array.from({ length: 10 }, ...)]. *)
Definition getInvalidationKeys (code : string) : list string :=
  ([CacheKeys.ALL_BANKS;
    CacheKeys.BANK_BY_CODE code;
    CacheKeys.AUDIT_RESULT code] ++
   map (fun i => CacheKeys.AUDIT_HISTORY code ((Z.of_nat i + 1) * 5)) (seq 0 10))%list.

Module CacheTTL.

Definition AUDIT_RESULT : Z := 300000.
Definition AUDIT_HISTORY : Z := 120000.

End CacheTTL.

Record AuditBankDto : Type := {
  req_bankCode : string;
  req_verbose : option bool
}.

(** What the audit endpoint returns: the record, and the [cached] field
    that only a cache hit adds. *)
Record AuditResponse : Type := {
  res_body : ISecurityAuditResult;
  res_cached : option bool
}.

(** Calls made to the cache manager. *)
Inductive CacheCall : Type :=
| CacheGet (key : string)
| CacheSetAudit (key : string) (value : ISecurityAuditResult) (ttl : Z)
| CacheSetHistory (key : string) (value : list ISecurityAuditResult) (ttl : Z).

(** What the cache does during one request: what it holds under each key
    (entries expire and are evicted on its own schedule), and whether its
    calls fail. *)
Record CacheEnv : Type := {
  cached_audit : string -> option ISecurityAuditResult;
  cached_history : string -> option (list ISecurityAuditResult);
  cache_get_fault : option Exn;
  cache_set_fault : option Exn
}.

Definition CWorld : Type := (World * list CacheCall)%type.

(** [!!v] for [v : boolean | undefined] *)
Definition truthy_flag (v : option bool) : bool :=
  match v with Some true => true | _ => false end.

(** [BankAuditController.auditBank(auditBankDto)] *)
Definition controller_auditBank (env : Env) (cenv : CacheEnv) (auditBankDto : AuditBankDto)
    (cw : CWorld) : Outcome AuditResponse * CWorld :=
  let '(w, calls) := cw in
  let cacheKey := CacheKeys.AUDIT_RESULT (req_bankCode auditBankDto) in
  (* Run audit, then cache the result (only if not verbose) *)
  let run (calls : list CacheCall) : Outcome AuditResponse * CWorld :=
    match auditBank env (req_bankCode auditBankDto)
            (truthy_flag (req_verbose auditBankDto)) w with
    | (Rejects e, w') => (Rejects e, (w', calls))
    | (Resolves result, w') =>
        if negb (truthy_flag (req_verbose auditBankDto)) then
          let calls := (calls ++ [CacheSetAudit cacheKey result CacheTTL.AUDIT_RESULT])%list in
          match cache_set_fault cenv with
          | Some e => (Rejects e, (w', calls))
          | None => (Resolves {| res_body := result; res_cached := None |}, (w', calls))
          end
        else (Resolves {| res_body := result; res_cached := None |}, (w', calls))
    end in
  (* Check cache (skip for verbose mode) *)
  if negb (truthy_flag (req_verbose auditBankDto)) then
    let calls := (calls ++ [CacheGet cacheKey])%list in
    match cache_get_fault cenv with
    | Some e => (Rejects e, (w, calls))
    | None =>
        match cached_audit cenv cacheKey with
        | Some cached =>
            (Resolves {| res_body := cached; res_cached := Some true |}, (w, calls))
        | None => run calls
        end
    end
  else run calls.


(** An empty cache that works. *)
Definition cold_cache : CacheEnv :=
  {| cached_audit := fun _ => None;
     cached_history := fun _ => None;
     cache_get_fault := None;
     cache_set_fault := None |}.

(** A cache holding [r] under [key]. *)
Definition warm_cache (key : string) (r : ISecurityAuditResult) : CacheEnv :=
  {| cached_audit := fun k => if String.eqb k key then Some r else None;
     cached_history := fun _ => None;
     cache_get_fault := None;
     cache_set_fault := None |}.

(** The audits cached by a sequence of cache calls. *)
Definition cached_audits (calls : list CacheCall) : list ISecurityAuditResult :=
  flat_map (fun c => match c with CacheSetAudit _ v _ => [v] | _ => [] end) calls.


(* ================================================================== *)
(** * Properties *)

(** ** Risk scorer *)

Lemma penalize_if_score c n msg st :
  ra_riskScore (penalize_if c n msg st) = ra_riskScore st + (if c then n else 0).
Proof. destruct c; simpl; lia. Qed.

Lemma penalize_if_recs c n msg st :
  ra_recommendations (penalize_if c n msg st) =
  (ra_recommendations st ++ (if c then [msg] else []))%list.
Proof. destruct c; simpl; [reflexivity | now rewrite app_nil_r]. Qed.

Lemma push_if_none_score msg st :
  ra_riskScore (push_if_none msg st) = ra_riskScore st.
Proof. unfold push_if_none. now destruct (_ =? _). Qed.

Lemma push_if_none_recs msg st :
  ra_recommendations (push_if_none msg st) =
  match ra_recommendations st with
  | [] => [msg]
  | _ => ra_recommendations st
  end.
Proof.
  unfold push_if_none.
  destruct (ra_recommendations st) eqn:E; simpl; [reflexivity | exact E].
Qed.

(** The score is the sum of the penalties that apply. *)
Lemma calculateRiskScore_sum ssl headers authentication csrf :
  ra_riskScore (calculateRiskScore ssl headers authentication csrf) =
  (if negb (ssl_enabled ssl) then 40
   else if 0 <? Z.of_nat (length (ssl_issues ssl)) then 10 else 0) +
  (if negb (strictTransportSecurity headers) then 10 else 0) +
  (if negb (contentSecurityPolicy headers) then 10 else 0) +
  (if negb (xFrameOptions headers) then 5 else 0) +
  (if negb (mfaAvailable authentication) then 15 else 0) +
  (if negb (isProtected csrf) then 10 else 0).
Proof.
  unfold calculateRiskScore.
  rewrite push_if_none_score, !penalize_if_score.
  destruct (negb (ssl_enabled ssl)).
  - reflexivity.
  - rewrite penalize_if_score. reflexivity.
Qed.

(** The recommendations follow the evaluation order: SSL, then the three
    headers, then MFA, then CSRF; the positive message appears only when
    nothing else was recommended. *)
Lemma calculateRiskScore_order ssl headers authentication csrf :
  let found :=
    ((if negb (ssl_enabled ssl) then ["CRITICAL: Implement HTTPS for login page"]
      else if 0 <? Z.of_nat (length (ssl_issues ssl))
           then ["Review SSL/TLS configuration issues"] else []) ++
     (if negb (strictTransportSecurity headers)
      then ["Implement HSTS (Strict-Transport-Security header)"] else []) ++
     (if negb (contentSecurityPolicy headers)
      then ["Implement Content Security Policy (CSP)"] else []) ++
     (if negb (xFrameOptions headers)
      then ["Add X-Frame-Options header to prevent clickjacking"] else []) ++
     (if negb (mfaAvailable authentication)
      then ["Implement Multi-Factor Authentication (MFA/2FA)"] else []) ++
     (if negb (isProtected csrf)
      then ["Implement CSRF protection tokens"] else []))%list in
  ra_recommendations (calculateRiskScore ssl headers authentication csrf) =
  match found with
  | [] => ["✅ Excellent security posture!"]
  | _ => found
  end.
Proof.
  intros found. unfold calculateRiskScore.
  rewrite push_if_none_recs, !penalize_if_recs.
  assert (E : ra_recommendations
                (if negb (ssl_enabled ssl)
                 then penalize 40 "CRITICAL: Implement HTTPS for login page"
                        {| ra_riskScore := 0; ra_recommendations := [] |}
                 else penalize_if (0 <? Z.of_nat (length (ssl_issues ssl))) 10
                        "Review SSL/TLS configuration issues"
                        {| ra_riskScore := 0; ra_recommendations := [] |}) =
              (if negb (ssl_enabled ssl) then ["CRITICAL: Implement HTTPS for login page"]
               else if 0 <? Z.of_nat (length (ssl_issues ssl))
                    then ["Review SSL/TLS configuration issues"] else [])).
  { destruct (negb (ssl_enabled ssl)); [reflexivity |].
    rewrite penalize_if_recs. reflexivity. }
  rewrite E. subst found. rewrite <- !app_assoc. reflexivity.
Qed.

(** C3. With TLS disabled, all six header flags false, no authentication
    method, no MFA and no CSRF protection, the scorer returns 90 and six
    recommendations (so at least five), emitted in evaluation order (SSL,
    headers, authentication, CSRF), the first one being the HTTPS one. *)
Theorem calculateRiskScore_all_bad ssl headers authentication csrf :
  ssl_enabled ssl = false ->
  strictTransportSecurity headers = false ->
  contentSecurityPolicy headers = false ->
  xFrameOptions headers = false ->
  xContentTypeOptions headers = false ->
  referrerPolicy headers = false ->
  permissionsPolicy headers = false ->
  auth_methods authentication = [] ->
  mfaAvailable authentication = false ->
  isProtected csrf = false ->
  let r := calculateRiskScore ssl headers authentication csrf in
  ra_riskScore r = 90 /\
  (5 <= length (ra_recommendations r))%nat /\
  hd_error (ra_recommendations r) = Some "CRITICAL: Implement HTTPS for login page" /\
  ra_recommendations r =
    [ "CRITICAL: Implement HTTPS for login page";
      "Implement HSTS (Strict-Transport-Security header)";
      "Implement Content Security Policy (CSP)";
      "Add X-Frame-Options header to prevent clickjacking";
      "Implement Multi-Factor Authentication (MFA/2FA)";
      "Implement CSRF protection tokens" ].
Proof.
  intros Hssl Hhsts Hcsp Hxfo _ _ _ _ Hmfa Hcsrf r.
  assert (Hrecs : ra_recommendations r =
    [ "CRITICAL: Implement HTTPS for login page";
      "Implement HSTS (Strict-Transport-Security header)";
      "Implement Content Security Policy (CSP)";
      "Add X-Frame-Options header to prevent clickjacking";
      "Implement Multi-Factor Authentication (MFA/2FA)";
      "Implement CSRF protection tokens" ]).
  { subst r. rewrite calculateRiskScore_order.
    rewrite Hssl, Hhsts, Hcsp, Hxfo, Hmfa, Hcsrf. reflexivity. }
  split.
  - subst r. rewrite calculateRiskScore_sum.
    rewrite Hssl, Hhsts, Hcsp, Hxfo, Hmfa, Hcsrf. reflexivity.
  - rewrite Hrecs. repeat split. simpl. lia.
Qed.

Lemma calculateRiskScore_all_bad_witness :
  let r := calculateRiskScore Samples.ssl_off Samples.headers_none
             Samples.auth_none Samples.csrf_off in
  ra_riskScore r = 90 /\
  (5 <= length (ra_recommendations r))%nat /\
  hd_error (ra_recommendations r) = Some "CRITICAL: Implement HTTPS for login page" /\
  ra_recommendations r =
    [ "CRITICAL: Implement HTTPS for login page";
      "Implement HSTS (Strict-Transport-Security header)";
      "Implement Content Security Policy (CSP)";
      "Add X-Frame-Options header to prevent clickjacking";
      "Implement Multi-Factor Authentication (MFA/2FA)";
      "Implement CSRF protection tokens" ].
Proof.
  apply (calculateRiskScore_all_bad Samples.ssl_off Samples.headers_none
           Samples.auth_none Samples.csrf_off); reflexivity.
Defined.

(** C4. With TLS enabled and free of issues, all six header flags true, at
    least one authentication method with MFA, and CSRF protection, the
    scorer returns 0 and exactly the one positive message. *)
Theorem calculateRiskScore_all_good ssl headers authentication csrf :
  ssl_enabled ssl = true ->
  ssl_issues ssl = [] ->
  strictTransportSecurity headers = true ->
  contentSecurityPolicy headers = true ->
  xFrameOptions headers = true ->
  xContentTypeOptions headers = true ->
  referrerPolicy headers = true ->
  permissionsPolicy headers = true ->
  auth_methods authentication <> [] ->
  mfaAvailable authentication = true ->
  isProtected csrf = true ->
  let r := calculateRiskScore ssl headers authentication csrf in
  ra_riskScore r = 0 /\
  ra_recommendations r = ["✅ Excellent security posture!"].
Proof.
  intros Hssl Hissues Hhsts Hcsp Hxfo _ _ _ _ Hmfa Hcsrf r. subst r. split.
  - rewrite calculateRiskScore_sum.
    rewrite Hssl, Hissues, Hhsts, Hcsp, Hxfo, Hmfa, Hcsrf. reflexivity.
  - rewrite calculateRiskScore_order.
    rewrite Hssl, Hissues, Hhsts, Hcsp, Hxfo, Hmfa, Hcsrf. reflexivity.
Qed.

Lemma calculateRiskScore_all_good_witness :
  let r := calculateRiskScore Samples.ssl_on Samples.headers_all
             Samples.auth_mfa Samples.csrf_on in
  ra_riskScore r = 0 /\
  ra_recommendations r = ["✅ Excellent security posture!"].
Proof.
  apply (calculateRiskScore_all_good Samples.ssl_on Samples.headers_all
           Samples.auth_mfa Samples.csrf_on); try reflexivity.
  discriminate.
Defined.

(** C9. Whatever the four signal records, the risk score lies between 0
    and 90: the two TLS penalties (40 and 10) exclude each other, so the
    sum never exceeds 40+10+10+5+15+10 and needs no clamp to stay in 0..100. *)
Theorem calculateRiskScore_bounds ssl headers authentication csrf :
  0 <= ra_riskScore (calculateRiskScore ssl headers authentication csrf) <= 90.
Proof.
  rewrite calculateRiskScore_sum.
  destruct (negb (ssl_enabled ssl)), (0 <? Z.of_nat (length (ssl_issues ssl))),
    (negb (strictTransportSecurity headers)), (negb (contentSecurityPolicy headers)),
    (negb (xFrameOptions headers)), (negb (mfaAvailable authentication)),
    (negb (isProtected csrf)); lia.
Qed.

(** The bound 90 is reached, so it is the least upper bound. *)
Example calculateRiskScore_max_reached :
  ra_riskScore (calculateRiskScore Samples.ssl_off Samples.headers_none
                  Samples.auth_none Samples.csrf_off) = 90.
Proof. reflexivity. Qed.

(** ** Header inspector *)

(** The score computed in the code is the weighted sum of the specification. *)
Lemma headerScore_weighted_sum h : headerScore h = HeaderSpec.weighted_sum h.
Proof.
  unfold headerScore, HeaderSpec.weighted_sum, HeaderSpec.weights. simpl. lia.
Qed.

(** The cascade of comparisons is the threshold table. *)
Lemma grade_cascade_bucket (analysis : ISecurityHeaders) (score : Z) :
  hdr_grade analysis = Grade_F ->
  hdr_grade
    (if score >=? 90 then set_hdr_grade analysis Grade_A
     else if score >=? 75 then set_hdr_grade analysis Grade_B
     else if score >=? 60 then set_hdr_grade analysis Grade_C
     else if score >=? 40 then set_hdr_grade analysis Grade_D
     else analysis)
  = HeaderSpec.bucket HeaderSpec.thresholds score.
Proof.
  intros HF. unfold HeaderSpec.thresholds, HeaderSpec.bucket.
  rewrite !Z.geb_leb.
  destruct (90 <=? score); [reflexivity |].
  destruct (75 <=? score); [reflexivity |].
  destruct (60 <=? score); [reflexivity |].
  destruct (40 <=? score); [reflexivity | exact HF].
Qed.

Lemma cascade_weighted_sum (analysis : ISecurityHeaders) (score : Z) :
  HeaderSpec.weighted_sum
    (if score >=? 90 then set_hdr_grade analysis Grade_A
     else if score >=? 75 then set_hdr_grade analysis Grade_B
     else if score >=? 60 then set_hdr_grade analysis Grade_C
     else if score >=? 40 then set_hdr_grade analysis Grade_D
     else analysis)
  = HeaderSpec.weighted_sum analysis.
Proof.
  destruct (score >=? 90), (score >=? 75), (score >=? 60), (score >=? 40); reflexivity.
Qed.

(** Keys that collide after lower-casing: the entry enumerated last wins,
    here an empty value, so the flag is off. *)
Example analyzeSecurityHeaders_collision :
  strictTransportSecurity
    (analyzeSecurityHeaders
       [ ("Strict-Transport-Security", "max-age=1");
         ("strict-transport-security", EmptyString) ]) = false.
Proof. reflexivity. Qed.

(** ** Running computations *)

Lemma bind_resolves {A B} (m : M A) (k : A -> M B) w a w1 :
  m w = (Resolves a, w1) -> bind m k w = k a w1.
Proof. intros H. unfold bind. now rewrite H. Qed.

Lemma bind_rejects {A B} (m : M A) (k : A -> M B) w e w1 :
  m w = (Rejects e, w1) -> bind m k w = (Rejects e, w1).
Proof. intros H. unfold bind. now rewrite H. Qed.

(** Computations that move the world along a preorder. *)
Section Respects.

Variable R : World -> World -> Prop.
Hypothesis R_refl : forall w, R w w.
Hypothesis R_trans : forall w1 w2 w3, R w1 w2 -> R w2 w3 -> R w1 w3.

Lemma respects_ret {A} (a : A) : respects R (ret a).
Proof. intros w. apply R_refl. Qed.

Lemma respects_bind {A B} (m : M A) (k : A -> M B) :
  respects R m -> (forall a, respects R (k a)) -> respects R (bind m k).
Proof.
  intros Hm Hk w. unfold bind. specialize (Hm w).
  destruct (m w) as [[a | e] w1]; simpl in *.
  - eapply R_trans; [exact Hm | apply Hk].
  - exact Hm.
Qed.

Lemma respects_catch {A} (m : M A) (h : Exn -> M A) :
  respects R m -> (forall e, respects R (h e)) -> respects R (catch m h).
Proof.
  intros Hm Hh w. unfold catch. specialize (Hm w).
  destruct (m w) as [[a | e] w1]; simpl in *.
  - exact Hm.
  - eapply R_trans; [exact Hm | apply Hh].
Qed.

End Respects.

Lemma reads_only_refl p w : reads_only p w w.
Proof. now unfold reads_only. Qed.

Lemma reads_only_trans p w1 w2 w3 :
  reads_only p w1 w2 -> reads_only p w2 w3 -> reads_only p w1 w3.
Proof. unfold reads_only. intros (? & ? & ?) (? & ? & ?). repeat split; congruence. Qed.

Lemma count_app p t1 t2 : count p (t1 ++ t2) = (count p t1 + count p t2)%nat.
Proof. unfold count. now rewrite filter_app, length_app. Qed.

Lemma reads_only_log p ev w : p ev = false -> reads_only p w (log ev w).
Proof.
  intros H. unfold reads_only, log. simpl. repeat split.
  rewrite count_app. unfold count at 2. simpl. rewrite H. simpl. lia.
Qed.

(** ** Authentication inspector *)

(** C6. For every page, either the inspector returns a record whose grade
    is A exactly when a method was detected and MFA is available, C when a
    method was detected without MFA, and F when no method was detected; or
    one of its four page reads rejected and it rejects with that error. *)
Theorem analyzeAuthentication_grade (page : Page) (w : World) :
  match analyzeAuthentication page w with
  | (Resolves r, _) =>
      (auth_grade r = Grade_A <-> auth_methods r <> [] /\ mfaAvailable r = true) /\
      (auth_methods r <> [] -> mfaAvailable r = false -> auth_grade r = Grade_C) /\
      (auth_methods r = [] -> auth_grade r = Grade_F)
  | (Rejects e, _) => auth_read_rejects page e
  end.
Proof.
  unfold analyzeAuthentication, auth_read_rejects, bind, page_query, page_content,
    page_cookies, call, ret.
  destruct (pg_query page passwordSelector) as [pw | e]; [| now left].
  destruct (pg_query page usernameSelector) as [un | e]; [| now right; left].
  destruct (pg_content page) as [content | e]; [| now right; right; left].
  destruct (pg_cookies page) as [cookies | e]; [| now right; right; right].
  cbn [auth_grade auth_methods mfaAvailable].
  destruct (isSome pw && isSome un), (mentionsMFA content); simpl;
    repeat split; intros; try tauto; try congruence; try discriminate.
  all: try (destruct H; congruence).
Qed.

(** The repository's own scenario: user and password fields, no MFA
    keyword in the text. *)
Example analyzeAuthentication_no_mfa :
  exists r w',
    analyzeAuthentication SamplePages.page_without_token SamplePages.world0
    = (Resolves r, w') /\
    auth_methods r = ["username-password"] /\ mfaAvailable r = false /\
    auth_grade r = Grade_C.
Proof. eexists. eexists. split; [vm_compute; reflexivity |]. repeat split. Qed.

(** Keywords outside ASCII are matched byte for byte. *)
Example mentionsMFA_codigo : mentionsMFA "Ingrese el código enviado" = true.
Proof. reflexivity. Qed.

Example mentionsMFA_plain : mentionsMFA "Login page" = false.
Proof. reflexivity. Qed.

(** ** CSRF inspector *)

(** C8 (amended). For every page the CSRF inspector returns, and no
    exception of the extraction attempt propagates: it gives tokenPresent,
    protected and grade A when the first matching input is found with a
    non-empty value, and tokenPresent=false, protected=false and grade F in
    every other case (no such input, an extraction error, or an empty
    value). *)
Theorem analyzeCSRF_total (page : Page) (w : World) :
  exists r,
    analyzeCSRF page w = (Resolves r, log (CallEval csrfSelector) w) /\
    (csrf_token_readable page ->
       tokenPresent r = true /\ isProtected r = true /\ csrf_grade r = Grade_A) /\
    (~ csrf_token_readable page ->
       tokenPresent r = false /\ isProtected r = false /\ csrf_grade r = Grade_F).
Proof.
  unfold analyzeCSRF, csrf_token_readable, bind, catch, page_eval_value, call, ret.
  destruct (pg_query page csrfSelector) as [[[v] |] | e]; simpl.
  - destruct v as [| c v]; simpl; eexists; (split; [reflexivity |]); split.
    + intros (el & Hel & Hv). inversion Hel; subst. now contradiction Hv.
    + now intros _.
    + now intros _.
    + intros Hno. exfalso. apply Hno. eexists. split; [reflexivity | discriminate].
  - eexists. split; [reflexivity |]. split; [| now intros _].
    intros (el & Hel & _). discriminate.
  - eexists. split; [reflexivity |]. split; [| now intros _].
    intros (el & Hel & _). discriminate.
Qed.

Lemma analyzeCSRF_total_witness :
  exists r,
    analyzeCSRF (SamplePages.login_page "csrf-token-value") SamplePages.world0
    = (Resolves r, log (CallEval csrfSelector) SamplePages.world0) /\
    tokenPresent r = true /\ isProtected r = true /\ csrf_grade r = Grade_A.
Proof.
  destruct (analyzeCSRF_total (SamplePages.login_page "csrf-token-value")
              SamplePages.world0) as (r & Hrun & Hyes & _).
  exists r. split; [exact Hrun |].
  apply Hyes. eexists. split; [reflexivity | discriminate].
Defined.

(** Counterexample to C8 as worded: a matching input that is found, but
    with an empty value, is graded F, so "found" alone does not give A. *)
Lemma analyzeCSRF_found_but_empty :
  ~ (forall (page : Page) (w : World) (el : ElementHandle),
       pg_query page csrfSelector = Resolves (Some el) ->
       exists r w',
         analyzeCSRF page w = (Resolves r, w') /\
         tokenPresent r = true /\ isProtected r = true /\ csrf_grade r = Grade_A).
Proof.
  intros claim.
  destruct (claim (SamplePages.login_page EmptyString) SamplePages.world0
              {| el_value := EmptyString |} eq_refl) as (r & w' & Hrun & Htok & _).
  vm_compute in Hrun. inversion Hrun; subst. discriminate Htok.
Qed.

(** ** Postconditions *)

Lemma post_run {A} (m : M A) w Q o w' : post m w Q -> m w = (o, w') -> Q o w'.
Proof. unfold post. intros H E. now rewrite E in H. Qed.

Lemma post_ret {A} (a : A) w (Q : Outcome A -> World -> Prop) :
  Q (Resolves a) w -> post (ret a) w Q.
Proof. trivial. Qed.

Lemma post_throw {A} (e : Exn) w (Q : Outcome A -> World -> Prop) :
  Q (Rejects e) w -> post (throw e) w Q.
Proof. trivial. Qed.

Lemma post_call {A} ev (o : Outcome A) w (Q : Outcome A -> World -> Prop) :
  Q o (log ev w) -> post (call ev o) w Q.
Proof. trivial. Qed.

Lemma post_bind {A B} (m : M A) (k : A -> M B) w (Q : Outcome B -> World -> Prop) :
  post m w (fun o w1 =>
              match o with
              | Resolves a => post (k a) w1 Q
              | Rejects e => Q (Rejects e) w1
              end) ->
  post (bind m k) w Q.
Proof. unfold post, bind. now destruct (m w) as [[a | e] w1]. Qed.

Lemma post_conseq {A} (m : M A) w (Q1 Q2 : Outcome A -> World -> Prop) :
  post m w Q1 -> (forall o w', Q1 o w' -> Q2 o w') -> post m w Q2.
Proof. unfold post. auto. Qed.

Lemma post_respects {A} R (m : M A) w : respects R m -> post m w (fun _ w' => R w w').
Proof. intros H. apply H. Qed.

Lemma count_log p ev w :
  count p (trace (log ev w)) = (count p (trace w) + (if p ev then 1 else 0))%nat.
Proof.
  unfold log. simpl. rewrite count_app. unfold count at 2. simpl.
  now destruct (p ev).
Qed.

(** ** What the extractors do to the world *)

Lemma call_reads p {A} ev (o : Outcome A) :
  p ev = false -> respects (reads_only p) (call ev o).
Proof. intros H w. now apply reads_only_log. Qed.

Lemma analyzeSSL_reads p response url :
  p CallSecurityDetails = false -> respects (reads_only p) (analyzeSSL response url).
Proof.
  intros Hp. unfold analyzeSSL.
  destruct (negb (JsString.startsWith url "https://")).
  - apply respects_ret, reads_only_refl.
  - apply respects_bind; [apply reads_only_trans | now apply call_reads |].
    intros sd. apply respects_ret, reads_only_refl.
Qed.

Lemma analyzeAuthentication_reads p page :
  (forall sel, p (CallQuery sel) = false) -> p CallContent = false ->
  p CallCookies = false ->
  respects (reads_only p) (analyzeAuthentication page).
Proof.
  intros Hq Hc Hk. unfold analyzeAuthentication.
  repeat first
    [ apply respects_ret, reads_only_refl
    | apply respects_bind; [apply reads_only_trans | apply call_reads; auto | intros ?] ].
Qed.

Lemma analyzeCSRF_reads p page :
  (forall sel, p (CallEval sel) = false) ->
  respects (reads_only p) (analyzeCSRF page).
Proof.
  intros Hq. unfold analyzeCSRF.
  apply respects_bind; [apply reads_only_trans | | intros ?; apply respects_ret, reads_only_refl].
  apply respects_catch; [apply reads_only_trans | | intros ?; apply respects_ret, reads_only_refl].
  apply respects_bind; [apply reads_only_trans | apply call_reads; auto |].
  intros ?. apply respects_ret, reads_only_refl.
Qed.

(** Every record [analyzeSSL] returns satisfies the invariant, and it
    always returns. *)
Lemma analyzeSSL_resolves response url w :
  exists r, fst (analyzeSSL response url w) = Resolves r /\ ssl_invariant r.
Proof.
  unfold analyzeSSL, ssl_invariant.
  destruct (negb (JsString.startsWith url "https://")).
  - eexists. split; reflexivity.
  - unfold bind, response_securityDetails, call, ret. simpl.
    eexists. split; [reflexivity | discriminate].
Qed.

(** The outcome of the authentication inspector depends on the page only. *)
Lemma analyzeAuthentication_outcome page w1 w2 :
  fst (analyzeAuthentication page w1) = fst (analyzeAuthentication page w2).
Proof.
  unfold analyzeAuthentication, bind, page_query, page_content, page_cookies, call, ret.
  destruct (pg_query page passwordSelector); [| reflexivity].
  destruct (pg_query page usernameSelector); [| reflexivity].
  destruct (pg_content page); [| reflexivity].
  destruct (pg_cookies page); reflexivity.
Qed.

(** The CSRF inspector always returns; its flags follow the truthiness of
    the value read. *)
Lemma analyzeCSRF_run page w :
  exists r,
    analyzeCSRF page w = (Resolves r, log (CallEval csrfSelector) w) /\
    isProtected r = tokenPresent r /\
    csrf_grade r = (if tokenPresent r then Grade_A else Grade_F) /\
    tokenPresent r =
      match pg_query page csrfSelector with
      | Resolves (Some el) => JsString.truthy (Some (el_value el))
      | _ => false
      end.
Proof.
  unfold analyzeCSRF, bind, catch, page_eval_value, call, ret.
  destruct (pg_query page csrfSelector) as [[el |] | e]; simpl;
    eexists; (split; [reflexivity |]); repeat split.
Qed.

Lemma unreadable_token page :
  ~ csrf_token_readable page ->
  match pg_query page csrfSelector with
  | Resolves (Some el) => JsString.truthy (Some (el_value el))
  | _ => false
  end = false.
Proof.
  intros Hno. destruct (pg_query page csrfSelector) as [[[v] |] | e] eqn:E;
    try reflexivity.
  destruct v as [| c v]; [reflexivity |].
  exfalso. apply Hno. unfold csrf_token_readable. rewrite E.
  eexists. split; [reflexivity | discriminate].
Qed.

Lemma session_only_false p ev :
  session_only p -> is_launch ev = false -> is_close ev = false -> p ev = false.
Proof.
  intros Hp Hl Hc. destruct (p ev) eqn:E; [| reflexivity].
  destruct (Hp ev E); congruence.
Qed.

Lemma analyzeSSL_post p response url w :
  p CallSecurityDetails = false ->
  post (analyzeSSL response url) w
    (fun o w' => reads_only p w w' /\ exists r, o = Resolves r /\ ssl_invariant r).
Proof.
  intros Hp. unfold post. split; [now apply analyzeSSL_reads | apply analyzeSSL_resolves].
Qed.

Lemma reject_try_post p w0 w' e :
  reads_only p w0 w' -> try_post p w0 (Rejects e) w'.
Proof. unfold reads_only, try_post. tauto. Qed.

Lemma insertOne_post env doc w :
  post (insertOne env doc) w
    (fun o w' =>
       banks w' = banks w /\
       (forall p, p (CallInsertOne doc) = false -> count p (trace w') = count p (trace w)) /\
       match o with
       | Resolves _ => audits w' = (audits w ++ [doc])%list
       | Rejects _ => audits w' = audits w
       end).
Proof.
  unfold post, insertOne.
  destruct (insertOne_fault env doc); simpl; repeat split;
    intros p Hp; rewrite count_app; unfold count at 2; simpl; rewrite Hp; simpl; lia.
Qed.

Ltac call_step F Hw ev x :=
  apply post_bind, post_call;
  let H := fresh "Hw" in
  pose proof (reads_only_trans _ _ _ _ Hw (F ev eq_refl eq_refl _)) as H;
  clear Hw; rename H into Hw;
  match goal with
  | |- match ?o with _ => _ end =>
      let e := fresh "e" in
      destruct o as [x | e]; [| now apply reject_try_post]
  end.

Lemma auditBank_try_post p env bank browser w :
  session_only p ->
  post (auditBank_try env bank browser) w (try_post p w).
Proof.
  intros Hp.
  assert (F : forall ev, is_launch ev = false -> is_close ev = false ->
                         forall w1, reads_only p w1 (log ev w1)).
  { intros ev Hl Hc w1. apply reads_only_log. now apply session_only_false. }
  assert (N : forall ev, is_launch ev = false -> is_close ev = false -> p ev = false).
  { intros ev Hl Hc. now apply session_only_false. }
  pose proof (reads_only_refl p w) as Hw.
  unfold auditBank_try.
  call_step F Hw CallNewPage page.
  call_step F Hw (CallSetUserAgent userAgent) u1.
  call_step F Hw (CallSetRequestInterception true) u2.
  call_step F Hw (CallGoto (bank_loginUrl bank) 30000) resp.
  destruct resp as [response |]; [| now apply post_throw, reject_try_post].
  apply post_bind.
  eapply post_conseq; [apply (analyzeSSL_post p); now apply N |].
  intros o w1 (Hw1 & ssl0 & -> & Hinv).
  pose proof (reads_only_trans _ _ _ _ Hw Hw1) as Hw2. clear Hw Hw1.
  apply post_bind.
  eapply post_conseq;
    [apply post_respects, (analyzeAuthentication_reads p); intros; now apply N |].
  intros o w2 Hw3. cbv beta in Hw3.
  pose proof (reads_only_trans _ _ _ _ Hw2 Hw3) as Hw4. clear Hw2 Hw3.
  destruct o as [auth0 | e]; [| now apply reject_try_post].
  apply post_bind.
  eapply post_conseq;
    [apply post_respects, (analyzeCSRF_reads p); intros; now apply N |].
  intros o w3 Hw5. cbv beta in Hw5.
  pose proof (reads_only_trans _ _ _ _ Hw4 Hw5) as Hw6. clear Hw4 Hw5.
  destruct o as [csrf0 | e]; [| now apply reject_try_post].
  apply post_bind.
  eapply post_conseq; [apply insertOne_post |].
  intros o w4 (Hb & Hc & Ha). destruct Hw6 as (Hb6 & Ha6 & Hc6).
  specialize (Hc p). lapply Hc; [clear Hc; intros Hc | apply N; reflexivity].
  destruct o as [u | e].
  - apply post_ret. unfold try_post. cbn [status ssl].
    repeat split; try congruence. exact Hinv.
  - unfold try_post. repeat split; congruence.
Qed.

(** ** The orchestrator, step by step *)

Lemma getBankByCode_world env code w :
  snd (getBankByCode env code w) = log (CallFindOne (JsString.toUpperCase code)) w.
Proof.
  unfold getBankByCode, bind, findOne.
  destruct (findOne_fault env); [reflexivity |].
  now destruct (find _ (banks w)).
Qed.

Lemma getBankByCode_not_found env code w :
  findOne_fault env = None ->
  find (fun b => String.eqb (bank_code b) (JsString.toUpperCase code)) (banks w) = None ->
  getBankByCode env code w =
  (Rejects (NotFoundException ("Bank with code " ++ code ++ " not found")),
   log (CallFindOne (JsString.toUpperCase code)) w).
Proof.
  intros Hf Hn. unfold getBankByCode, bind, findOne. now rewrite Hf, Hn.
Qed.

Lemma auditBank_unresolved env code verbose w e w0 :
  getBankByCode env code w = (Rejects e, w0) ->
  auditBank env code verbose w = (Rejects e, w0).
Proof. intros H. unfold auditBank. now apply bind_rejects. Qed.

Lemma auditBank_launch_rejects env code verbose w bank w0 e :
  getBankByCode env code w = (Resolves bank, w0) ->
  puppeteer_launch env = Rejects e ->
  auditBank env code verbose w = (Rejects e, log CallLaunch w0).
Proof.
  intros Hb Hl. unfold auditBank. rewrite (bind_resolves _ _ _ _ _ Hb).
  assert (Hl' : launchBrowser env verbose w0 = (Rejects e, log CallLaunch w0))
    by (unfold launchBrowser, call; now rewrite Hl).
  now rewrite (bind_rejects _ _ _ _ _ Hl').
Qed.

Lemma auditBank_launched env code verbose w bank w0 browser :
  getBankByCode env code w = (Resolves bank, w0) ->
  puppeteer_launch env = Resolves browser ->
  auditBank env code verbose w =
  try_catch_finally (auditBank_try env bank browser) (auditBank_catch env bank)
    (browser_close browser) (log CallLaunch w0).
Proof.
  intros Hb Hl. unfold auditBank. rewrite (bind_resolves _ _ _ _ _ Hb).
  assert (Hl' : launchBrowser env verbose w0 = (Resolves browser, log CallLaunch w0))
    by (unfold launchBrowser, call; now rewrite Hl).
  now rewrite (bind_resolves _ _ _ _ _ Hl').
Qed.

(** The [try] block rejected: the failed record is stored, the error is
    thrown again, the browser is closed. *)
Lemma try_rejected env bank browser w e w2 :
  auditBank_try env bank browser w = (Rejects e, w2) ->
  insertOne_fault env (failedResult env bank e) = None ->
  br_close browser = Resolves tt ->
  try_catch_finally (auditBank_try env bank browser) (auditBank_catch env bank)
    (browser_close browser) w =
  (Rejects e,
   log CallClose
     (store (failedResult env bank e)
        (log (CallInsertOne (failedResult env bank e)) w2))).
Proof.
  intros Hbody Hins Hclose.
  unfold try_catch_finally, catch. rewrite Hbody.
  unfold auditBank_catch, bind, insertOne, throw. rewrite Hins.
  unfold browser_close, call. now rewrite Hclose.
Qed.

(** The [try] block returned: the browser is closed and the record handed
    to the caller. *)
Lemma try_returned env bank browser w r w2 :
  auditBank_try env bank browser w = (Resolves r, w2) ->
  br_close browser = Resolves tt ->
  try_catch_finally (auditBank_try env bank browser) (auditBank_catch env bank)
    (browser_close browser) w =
  (Resolves r, log CallClose w2).
Proof.
  intros Hbody Hclose.
  unfold try_catch_finally, catch. rewrite Hbody.
  unfold browser_close, call. now rewrite Hclose.
Qed.

Lemma auditBank_try_navigated env bank browser page response w :
  navigated env bank browser page response ->
  auditBank_try env bank browser w =
  auditBank_extract env bank page response (after_navigation bank w).
Proof.
  intros (_ & Hp & Hua & Hri & Hgo).
  unfold auditBank_try, after_navigation.
  unfold bind at 1, browser_newPage, call. rewrite Hp.
  unfold bind at 1, page_setUserAgent, call. rewrite Hua.
  unfold bind at 1, page_setRequestInterception, call. rewrite Hri.
  unfold bind at 1, page_goto, call. rewrite Hgo.
  reflexivity.
Qed.

Lemma audits_log ev w : audits (log ev w) = audits w.
Proof. reflexivity. Qed.

Lemma audits_store doc w : audits (store doc w) = (audits w ++ [doc])%list.
Proof. reflexivity. Qed.

Lemma trace_store doc w : trace (store doc w) = trace w.
Proof. reflexivity. Qed.

(** After navigation, a rejection of the authentication inspector ends the
    extraction: the CSRF inspector is not run and nothing is stored. *)
Lemma extract_auth_rejects env bank page response w e :
  (exists w1, fst (analyzeAuthentication page w1) = Rejects e) ->
  exists w2,
    auditBank_extract env bank page response w = (Rejects e, w2) /\
    reads_only is_eval w w2 /\ reads_only is_close w w2.
Proof.
  intros (w1 & Hrej). unfold auditBank_extract.
  destruct (analyzeSSL_resolves response (bank_loginUrl bank) w) as (s & Hs & _).
  pose proof (analyzeSSL_reads is_eval response (bank_loginUrl bank) eq_refl w) as Re1.
  pose proof (analyzeSSL_reads is_close response (bank_loginUrl bank) eq_refl w) as Rc1.
  destruct (analyzeSSL response (bank_loginUrl bank) w) as [o1 wa] eqn:E1.
  simpl in Hs, Re1, Rc1. subst o1.
  rewrite (bind_resolves _ _ _ _ _ E1).
  pose proof (analyzeAuthentication_reads is_eval page
                (fun _ => eq_refl) eq_refl eq_refl wa) as Re2.
  pose proof (analyzeAuthentication_reads is_close page
                (fun _ => eq_refl) eq_refl eq_refl wa) as Rc2.
  pose proof (analyzeAuthentication_outcome page wa w1) as Ho.
  destruct (analyzeAuthentication page wa) as [o2 wb] eqn:E2.
  simpl in Re2, Rc2, Ho. rewrite Hrej in Ho. subst o2.
  exists wb. rewrite (bind_rejects _ _ _ _ _ E2).
  split; [reflexivity |].
  split; eapply reads_only_trans; eassumption.
Qed.

(** After navigation, when the authentication inspector returns, the
    extraction runs to the end whatever the CSRF lookup does. *)
Lemma extract_completes env bank page response w a :
  (exists w1, fst (analyzeAuthentication page w1) = Resolves a) ->
  (forall doc, insertOne_fault env doc = None) ->
  exists r w2,
    auditBank_extract env bank page response w
    = (Resolves r, store r (log (CallInsertOne r) w2)) /\
    reads_only is_close w w2 /\
    status r = completed /\ authentication r = a /\
    (~ csrf_token_readable page ->
       tokenPresent (csrf r) = false /\ csrf_grade (csrf r) = Grade_F).
Proof.
  intros (w1 & Hres) Hins. unfold auditBank_extract.
  destruct (analyzeSSL_resolves response (bank_loginUrl bank) w) as (s & Hs & _).
  pose proof (analyzeSSL_reads is_close response (bank_loginUrl bank) eq_refl w) as Rc1.
  destruct (analyzeSSL response (bank_loginUrl bank) w) as [o1 wa] eqn:E1.
  simpl in Hs, Rc1. subst o1.
  rewrite (bind_resolves _ _ _ _ _ E1).
  pose proof (analyzeAuthentication_reads is_close page
                (fun _ => eq_refl) eq_refl eq_refl wa) as Rc2.
  pose proof (analyzeAuthentication_outcome page wa w1) as Ho.
  destruct (analyzeAuthentication page wa) as [o2 wb] eqn:E2.
  simpl in Rc2, Ho. rewrite Hres in Ho. subst o2.
  rewrite (bind_resolves _ _ _ _ _ E2).
  destruct (analyzeCSRF_run page wb) as (c & E3 & _ & Hg & Ht).
  rewrite (bind_resolves _ _ _ _ _ E3).
  unfold bind, insertOne, ret. rewrite Hins.
  eexists. eexists. split; [reflexivity |].
  split.
  { eapply reads_only_trans; [exact Rc1 |].
    eapply reads_only_trans; [exact Rc2 |]. now apply reads_only_log. }
  cbn [status authentication csrf].
  split; [reflexivity |]. split; [reflexivity |].
  intros Hno. rewrite Hg, Ht, (unreadable_token page Hno). now split.
Qed.

Lemma session_only_close : session_only is_close.
Proof. intros ev H. now right. Qed.

Lemma failedResult_sound env bank e : ssl_sound (failedResult env bank e).
Proof. unfold ssl_sound, ssl_invariant. repeat split. Qed.

Lemma auditBank_guarded_post p env bank browser w :
  session_only p ->
  post (catch (auditBank_try env bank browser) (auditBank_catch env bank)) w
    (guarded_post p w).
Proof.
  intros Hp. unfold post, catch.
  pose proof (auditBank_try_post p env bank browser w Hp) as H. unfold post in H.
  destruct (auditBank_try env bank browser w) as [[r | e] w1];
    cbn [fst snd] in H |- *; destruct H as (Hb & Hc & Ha).
  - destruct Ha as (Ha & Hs & Hi).
    assert (Hr : ssl_sound r).
    { split; [exact Hi |]. rewrite Hs. discriminate. }
    unfold guarded_post.
    split; [exact Hb |]. split; [exact Hc |].
    split; [right; now exists r | exact Hr].
  - assert (N : p (CallInsertOne (failedResult env bank e)) = false)
      by now apply session_only_false.
    unfold auditBank_catch, bind, insertOne, throw.
    destruct (insertOne_fault env (failedResult env bank e)); cbn [fst snd];
      unfold guarded_post;
      rewrite ?trace_store, ?audits_store, ?count_log, ?audits_log, N, Nat.add_0_r.
    + split; [exact Hb |]. split; [exact Hc |]. split; [now left | exact I].
    + split; [exact Hb |]. split; [exact Hc |]. split; [| exact I].
      right. exists (failedResult env bank e). rewrite Ha.
      split; [reflexivity | apply failedResult_sound].
Qed.

(** C10. When the lookup of the target fails, [auditBank] raises the
    lookup's error right after it, before any session work: no browser is
    launched, no insert is attempted and the audits collection is
    unchanged.  When the database answered the lookup, so that it failed
    because no bank has the code, the error is the not-found error naming
    the code. *)
Theorem auditBank_target_not_found env code verbose w e w1 :
  getBankByCode env code w = (Rejects e, w1) ->
  auditBank env code verbose w = (Rejects e, w1) /\
  count is_launch (trace w1) = count is_launch (trace w) /\
  count is_insert (trace w1) = count is_insert (trace w) /\
  audits w1 = audits w /\
  (findOne_fault env = None ->
   e = NotFoundException ("Bank with code " ++ code ++ " not found")).
Proof.
  intros Hlook. split; [now apply auditBank_unresolved |].
  pose proof (getBankByCode_world env code w) as Hw.
  rewrite Hlook in Hw. cbn [snd] in Hw. subst w1.
  rewrite !count_log, audits_log. cbn. repeat split; try lia.
  intros Hf. unfold getBankByCode, bind, findOne in Hlook. rewrite Hf in Hlook.
  destruct (find _ (banks w)); inversion Hlook. reflexivity.
Qed.

Lemma auditBank_target_not_found_witness :
  let env := SamplePages.env_with
               (Resolves (SamplePages.browser_with SamplePages.page_without_token)) in
  let w' := log (CallFindOne "NOPE") SamplePages.world0 in
  auditBank env "nope" false SamplePages.world0 =
    (Rejects (NotFoundException "Bank with code nope not found"), w') /\
  count is_launch (trace w') = count is_launch (trace SamplePages.world0) /\
  count is_insert (trace w') = count is_insert (trace SamplePages.world0) /\
  audits w' = audits SamplePages.world0.
Proof.
  intros env w'.
  destruct (auditBank_target_not_found env "nope" false SamplePages.world0
              (NotFoundException "Bank with code nope not found") w' eq_refl)
    as (Hrun & Hl & Hi & Ha & _).
  repeat split; assumption.
Defined.

(** C2 (amended). Once the browser is launched, every error raised inside
    the guarded block (page set-up, navigation, missing response,
    extraction, storing the completed record) is recorded as exactly one
    failed record with risk score 100 and the message of that error, then
    raised again, and the browser is closed after the record is stored,
    provided storing the failed record and closing succeed.  Whatever
    happens after a successful launch, close is called exactly once. *)
Theorem auditBank_failure_recorded :
  (forall env code verbose w bank w0 browser e w2,
     getBankByCode env code w = (Resolves bank, w0) ->
     puppeteer_launch env = Resolves browser ->
     auditBank_try env bank browser (log CallLaunch w0) = (Rejects e, w2) ->
     insertOne_fault env (failedResult env bank e) = None ->
     br_close browser = Resolves tt ->
     let doc := failedResult env bank e in
     exists w',
       auditBank env code verbose w = (Rejects e, w') /\
       audits w' = (audits w ++ [doc])%list /\
       status doc = failed /\ riskScore doc = 100 /\ error doc = Some (message e) /\
       trace w' = (trace w2 ++ [CallInsertOne doc; CallClose])%list /\
       count is_close (trace w') = S (count is_close (trace w))) /\
  (forall env code verbose w bank w0 browser,
     getBankByCode env code w = (Resolves bank, w0) ->
     puppeteer_launch env = Resolves browser ->
     count is_close (trace (snd (auditBank env code verbose w)))
     = S (count is_close (trace w))).
Proof.
  split.
  - intros env code verbose w bank w0 browser e w2 Hbank Hlaunch Hbody Hins Hclose doc.
    eexists. split.
    { rewrite (auditBank_launched _ _ _ _ _ _ _ Hbank Hlaunch).
      eapply try_rejected; eassumption. }
    pose proof (post_run _ _ _ _ _
                  (auditBank_try_post is_close env bank browser (log CallLaunch w0)
                     session_only_close) Hbody) as (_ & Hc & Ha).
    pose proof (getBankByCode_world env code w) as Hw0.
    rewrite Hbank in Hw0. cbn [snd] in Hw0. subst w0.
    rewrite audits_log, audits_store, audits_log, Ha, !audits_log.
    rewrite count_log, trace_store, count_log, Hc, !count_log.
    repeat split.
    + unfold log, store. cbn [trace]. now rewrite <- app_assoc.
    + simpl. lia.
  - intros env code verbose w bank w0 browser Hbank Hlaunch.
    rewrite (auditBank_launched _ _ _ _ _ _ _ Hbank Hlaunch).
    pose proof (getBankByCode_world env code w) as Hw0.
    rewrite Hbank in Hw0. cbn [snd] in Hw0. subst w0.
    unfold try_catch_finally.
    pose proof (auditBank_guarded_post is_close env bank browser
                  (log CallLaunch (log (CallFindOne (JsString.toUpperCase code)) w))
                  session_only_close) as H.
    unfold post in H.
    destruct (catch (auditBank_try env bank browser) (auditBank_catch env bank)
                (log CallLaunch (log (CallFindOne (JsString.toUpperCase code)) w)))
      as [o w1].
    cbn [fst snd] in H. destruct H as (_ & Hc & _).
    unfold browser_close, call.
    destruct (br_close browser); cbn [snd];
      rewrite count_log, Hc, !count_log; simpl; lia.
Qed.

(** A navigation timeout: the failed record is stored, the timeout is
    raised again and the browser is closed once. *)
Lemma auditBank_failure_recorded_witness :
  let env := SamplePages.env_with
               (Resolves (SamplePages.browser_with SamplePages.unreachable_page)) in
  let e := Error "Navigation timeout of 30000 ms exceeded" in
  let doc := failedResult env SamplePages.bank_T1 e in
  exists w',
    auditBank env "t1" false SamplePages.world0 = (Rejects e, w') /\
    audits w' = (audits SamplePages.world0 ++ [doc])%list /\
    status doc = failed /\ riskScore doc = 100 /\ error doc = Some (message e) /\
    count is_close (trace w') = S (count is_close (trace SamplePages.world0)).
Proof.
  intros env e doc.
  destruct (proj1 auditBank_failure_recorded env "t1" false SamplePages.world0
              SamplePages.bank_T1
              (log (CallFindOne "T1") SamplePages.world0)
              (SamplePages.browser_with SamplePages.unreachable_page) e
              (after_navigation SamplePages.bank_T1
                 (log CallLaunch (log (CallFindOne "T1") SamplePages.world0)))
              eq_refl eq_refl eq_refl eq_refl eq_refl)
    as (w' & Hrun & Haud & Hst & Hrisk & Herr & _ & Hclose).
  exists w'. repeat split; assumption.
Defined.

(** Counterexample to C2 as worded: when the browser cannot be launched
    the target is already resolved, yet no failed record is stored. *)
Lemma launch_failure_not_recorded :
  ~ (forall env code verbose w bank w0 e w',
       getBankByCode env code w = (Resolves bank, w0) ->
       auditBank env code verbose w = (Rejects e, w') ->
       exists doc,
         audits w' = (audits w ++ [doc])%list /\ status doc = failed /\
         riskScore doc = 100 /\ error doc = Some (message e)).
Proof.
  intros claim.
  destruct (claim (SamplePages.env_with (Rejects (Error "Failed to launch the browser process")))
              "t1" false SamplePages.world0 SamplePages.bank_T1
              (log (CallFindOne "T1") SamplePages.world0)
              (Error "Failed to launch the browser process")
              (log CallLaunch (log (CallFindOne "T1") SamplePages.world0))
              eq_refl eq_refl) as (doc & Haud & _).
  simpl in Haud. discriminate Haud.
Qed.

(** C1 (amended). In a run whose navigation succeeded (with working
    persistence and close): a failure of the CSRF lookup is absorbed by the
    CSRF inspector itself, which reports grade F, and the audit completes;
    a failure thrown by the authentication inspector is not isolated: the
    CSRF inspector is not run, the audit is recorded as failed and the
    error is raised to the caller. *)
Theorem auditBank_extractor_failures env code verbose w bank w0 browser page response :
  getBankByCode env code w = (Resolves bank, w0) ->
  navigated env bank browser page response ->
  (forall doc, insertOne_fault env doc = None) ->
  br_close browser = Resolves tt ->
  (forall a,
     (exists w1, fst (analyzeAuthentication page w1) = Resolves a) ->
     exists r w',
       auditBank env code verbose w = (Resolves r, w') /\
       status r = completed /\ authentication r = a /\
       (~ csrf_token_readable page ->
          tokenPresent (csrf r) = false /\ csrf_grade (csrf r) = Grade_F) /\
       audits w' = (audits w ++ [r])%list) /\
  (forall e,
     (exists w1, fst (analyzeAuthentication page w1) = Rejects e) ->
     exists w',
       auditBank env code verbose w = (Rejects e, w') /\
       audits w' = (audits w ++ [failedResult env bank e])%list /\
       count is_eval (trace w') = count is_eval (trace w)).
Proof.
  intros Hbank Hnav Hins Hclose.
  pose proof (getBankByCode_world env code w) as Hw0.
  rewrite Hbank in Hw0. cbn [snd] in Hw0. subst w0.
  assert (Hlaunch : puppeteer_launch env = Resolves browser) by apply Hnav.
  split.
  - intros a Ha.
    destruct (extract_completes env bank page response
                (after_navigation bank
                   (log CallLaunch (log (CallFindOne (JsString.toUpperCase code)) w)))
                a Ha Hins)
      as (r & w2 & Hrun & (_ & Haud & _) & Hst & Hauth & Hno).
    rewrite <- (auditBank_try_navigated env bank browser page response _ Hnav) in Hrun.
    exists r. eexists. split.
    { rewrite (auditBank_launched _ _ _ _ _ _ _ Hbank Hlaunch).
      eapply try_returned; eassumption. }
    repeat split; try assumption; try (now apply Hno).
    rewrite audits_log, audits_store, audits_log, Haud.
    unfold after_navigation. now rewrite !audits_log.
  - intros e He.
    destruct (extract_auth_rejects env bank page response
                (after_navigation bank
                   (log CallLaunch (log (CallFindOne (JsString.toUpperCase code)) w)))
                e He)
      as (w2 & Hrun & (_ & Haud & Hev) & _).
    rewrite <- (auditBank_try_navigated env bank browser page response _ Hnav) in Hrun.
    eexists. split.
    { rewrite (auditBank_launched _ _ _ _ _ _ _ Hbank Hlaunch).
      eapply try_rejected; [eassumption | apply Hins | assumption]. }
    split.
    + rewrite audits_log, audits_store, audits_log, Haud.
      unfold after_navigation. now rewrite !audits_log.
    + rewrite count_log, trace_store, count_log, Hev.
      unfold after_navigation. rewrite !count_log. simpl. lia.
Qed.

(** A page without any CSRF input: the lookup fails inside the CSRF
    inspector, and the audit still completes with CSRF graded F. *)
Lemma auditBank_extractor_failures_witness :
  let env := SamplePages.env_with
               (Resolves (SamplePages.browser_with SamplePages.page_without_token)) in
  exists r w',
    auditBank env "t1" false SamplePages.world0 = (Resolves r, w') /\
    status r = completed /\
    tokenPresent (csrf r) = false /\ csrf_grade (csrf r) = Grade_F /\
    audits w' = (audits SamplePages.world0 ++ [r])%list.
Proof.
  intros env.
  assert (Hnone : ~ csrf_token_readable SamplePages.page_without_token).
  { intros (el & Hq & _). discriminate Hq. }
  destruct (proj1 (auditBank_extractor_failures env "t1" false SamplePages.world0
              SamplePages.bank_T1 (log (CallFindOne "T1") SamplePages.world0)
              (SamplePages.browser_with SamplePages.page_without_token)
              SamplePages.page_without_token
              {| resp_securityDetails :=
                   Some {| sd_protocol := "TLS 1.3"; sd_issuer := "Let's Encrypt" |} |}
              eq_refl
              (conj eq_refl (conj eq_refl (conj eq_refl (conj eq_refl eq_refl))))
              (fun _ => eq_refl) eq_refl)
              _ (ex_intro _ SamplePages.world0 eq_refl))
    as (r & w' & Hrun & Hst & _ & Hcsrf & Haud).
  exists r, w'. repeat split; try assumption; now apply Hcsrf.
Defined.

(** Counterexample to C1 as worded: navigation succeeded, the
    authentication inspector throws, and the audit is aborted instead of
    completed. *)
Lemma extractor_failure_aborts_audit :
  ~ (forall env code verbose w bank w0 browser page response,
       getBankByCode env code w = (Resolves bank, w0) ->
       navigated env bank browser page response ->
       (forall doc, insertOne_fault env doc = None) ->
       br_close browser = Resolves tt ->
       exists r w',
         auditBank env code verbose w = (Resolves r, w') /\ status r = completed).
Proof.
  intros claim.
  destruct (claim
              (SamplePages.env_with
                 (Resolves (SamplePages.browser_with SamplePages.detached_page)))
              "t1" false SamplePages.world0
              SamplePages.bank_T1 (log (CallFindOne "T1") SamplePages.world0)
              (SamplePages.browser_with SamplePages.detached_page)
              SamplePages.detached_page
              {| resp_securityDetails :=
                   Some {| sd_protocol := "TLS 1.3"; sd_issuer := "Let's Encrypt" |} |}
              eq_refl
              (conj eq_refl (conj eq_refl (conj eq_refl (conj eq_refl eq_refl))))
              (fun _ => eq_refl) eq_refl)
    as (r & w' & Hrun & _).
  vm_compute in Hrun. discriminate Hrun.
Qed.

(** The same run in full: the CSRF lookup is never made and the stored
    record is the failed one. *)
Example detached_page_run :
  let env := SamplePages.env_with
               (Resolves (SamplePages.browser_with SamplePages.detached_page)) in
  let e := Error "Execution context was destroyed" in
  let '(o, w') := auditBank env "t1" false SamplePages.world0 in
  o = Rejects e /\
  audits w' = [failedResult env SamplePages.bank_T1 e] /\
  count is_eval (trace w') = 0%nat /\ count is_close (trace w') = 1%nat.
Proof. vm_compute. repeat split. Qed.

(** ** TLS inspector *)

(** C7. Every SSL record the service produces satisfies "disabled implies
    grade F": [analyzeSSL] always returns such a record; for a URL that does
    not start with the secure scheme it returns at once, disabled, graded F
    and with a non-empty issue list, without asking the response for its
    security details (the world is untouched); the record of a failed audit
    is disabled and graded F; and every record [auditBank] returns or
    stores satisfies the invariant. *)
Theorem ssl_invariant_holds :
  (forall response url w,
     exists r w', analyzeSSL response url w = (Resolves r, w') /\ ssl_invariant r) /\
  (forall response url w,
     JsString.startsWith url "https://" = false ->
     exists r,
       analyzeSSL response url w = (Resolves r, w) /\
       ssl_enabled r = false /\ ssl_grade r = SSL_F /\ ssl_issues r <> []) /\
  (forall env bank e,
     status (failedResult env bank e) = failed /\
     ssl_enabled (ssl (failedResult env bank e)) = false /\
     ssl_grade (ssl (failedResult env bank e)) = SSL_F) /\
  (forall env code verbose w o w',
     auditBank env code verbose w = (o, w') ->
     (forall r, o = Resolves r -> ssl_sound r) /\
     (forall r, In r (audits w') -> In r (audits w) \/ ssl_sound r)).
Proof.
  split; [| split; [| split]].
  - intros response url w.
    destruct (analyzeSSL_resolves response url w) as (r & Hr & Hinv).
    destruct (analyzeSSL response url w) as [o w'] eqn:E. simpl in Hr. subst o.
    now exists r, w'.
  - intros response url w Hurl. unfold analyzeSSL. rewrite Hurl. simpl.
    eexists. split; [reflexivity |]. repeat split. discriminate.
  - intros env bank e. repeat split.
  - intros env code verbose w o w' Hrun.
    destruct (getBankByCode env code w) as [[bank | e0] w0] eqn:Hbank.
    2:{ rewrite (auditBank_unresolved _ _ _ _ _ _ Hbank) in Hrun.
        inversion Hrun; subst. pose proof (getBankByCode_world env code w) as Hw.
        rewrite Hbank in Hw. cbn [snd] in Hw. subst w'.
        split; [discriminate | now left]. }
    pose proof (getBankByCode_world env code w) as Hw.
    rewrite Hbank in Hw. cbn [snd] in Hw. subst w0.
    destruct (puppeteer_launch env) as [browser | e0] eqn:Hlaunch.
    2:{ rewrite (auditBank_launch_rejects _ _ _ _ _ _ _ Hbank Hlaunch) in Hrun.
        inversion Hrun; subst. split; [discriminate | now left]. }
    rewrite (auditBank_launched _ _ _ _ _ _ _ Hbank Hlaunch) in Hrun.
    unfold try_catch_finally in Hrun.
    pose proof (auditBank_guarded_post is_close env bank browser
                  (log CallLaunch (log (CallFindOne (JsString.toUpperCase code)) w))
                  session_only_close) as H.
    unfold post in H.
    destruct (catch (auditBank_try env bank browser) (auditBank_catch env bank)
                (log CallLaunch (log (CallFindOne (JsString.toUpperCase code)) w)))
      as [o1 w1].
    cbn [fst snd] in H. destruct H as (_ & _ & Haud & Ho).
    assert (Hw' : audits w' = audits w1 /\ (forall r, o = Resolves r -> o1 = Resolves r)).
    { unfold browser_close, call in Hrun.
      destruct (br_close browser); inversion Hrun; subst;
        (split; [reflexivity |]); [tauto | discriminate]. }
    destruct Hw' as (Ew & Eo). split.
    + intros r Hr. apply Eo in Hr. now subst o1.
    + intros r Hin. rewrite Ew in Hin. rewrite !audits_log in Haud.
      destruct Haud as [Hsame | (r0 & Hadd & Hsound)].
      * left. now rewrite <- Hsame.
      * rewrite Hadd in Hin. apply in_app_or in Hin as [Hin | [-> | []]];
          [now left | now right].
Qed.

Lemma ssl_invariant_holds_witness :
  let env := SamplePages.env_with
               (Resolves (SamplePages.browser_with SamplePages.unreachable_page)) in
  (exists r,
     analyzeSSL {| resp_securityDetails := None |} "http://test.com" SamplePages.world0
     = (Resolves r, SamplePages.world0) /\
     ssl_enabled r = false /\ ssl_grade r = SSL_F /\ ssl_issues r <> []) /\
  (forall r,
     In r (audits (snd (auditBank env "t1" false SamplePages.world0))) ->
     In r (audits SamplePages.world0) \/ ssl_sound r).
Proof.
  intros env. split.
  - apply (proj1 (proj2 ssl_invariant_holds)). reflexivity.
  - apply (proj2 (proj2 (proj2 ssl_invariant_holds))
             env "t1" false SamplePages.world0
             (fst (auditBank env "t1" false SamplePages.world0))
             (snd (auditBank env "t1" false SamplePages.world0))).
    apply surjective_pairing.
Defined.

(** For a secure URL the security details are read, once. *)
Example analyzeSSL_reads_details :
  snd (analyzeSSL {| resp_securityDetails := None |} "https://test.com" SamplePages.world0)
  = log CallSecurityDetails SamplePages.world0 /\
  exists r,
    fst (analyzeSSL {| resp_securityDetails := None |} "https://test.com" SamplePages.world0)
    = Resolves r /\ ssl_enabled r = true /\ ssl_grade r = SSL_C.
Proof. split; [reflexivity |]. eexists. repeat split. Qed.

(** The prefix test is case-sensitive: an upper-case scheme is treated as
    not secure. *)
Example analyzeSSL_uppercase_scheme :
  exists r,
    analyzeSSL {| resp_securityDetails := None |} "HTTPS://test.com" SamplePages.world0
    = (Resolves r, SamplePages.world0) /\ ssl_enabled r = false /\ ssl_grade r = SSL_F.
Proof. eexists. repeat split. Qed.

(** ** End to end *)

(** The repository's end-to-end scenario: a secure URL with TLS details,
    the six headers, user and password fields, the keyword "token" in the
    text and a CSRF input with a value give a completed audit with risk
    score 0, stored once, the browser launched and closed once. *)
Example hardened_page_run :
  let env := SamplePages.env_with
               (Resolves (SamplePages.browser_with SamplePages.hardened_page)) in
  let '(o, w') := auditBank env "t1" false SamplePages.world0 in
  exists r,
    o = Resolves r /\ audits w' = [r] /\
    status r = completed /\ riskScore r = 0 /\
    recommendations r = ["✅ Excellent security posture!"] /\
    ssl_grade (ssl r) = SSL_Aplus /\ hdr_grade (headers r) = Grade_A /\
    auth_grade (authentication r) = Grade_A /\ csrf_grade (csrf r) = Grade_A /\
    count is_launch (trace w') = 1%nat /\ count is_close (trace w') = 1%nat.
Proof. vm_compute. eexists. repeat split. Qed.

(* ================================================================== *)
(** * Further properties of the service *)

(** ** Upper-casing *)

Ltac all_bytes b :=
  destruct b as [[] [] [] [] [] [] [] []]; try reflexivity; try discriminate.

Lemma toUpperCase_low b r :
  (N_of_ascii b <? 128)%N = true ->
  JsString.toUpperCase (String b r) =
  String (JsString.toUpperChar b) (JsString.toUpperCase r).
Proof. intros H. cbn [JsString.toUpperCase]. now rewrite H. Qed.

Lemma toUpperCase_seq b r cp bytes rest :
  (N_of_ascii b <? 128)%N = false ->
  JsString.head_seq b r = Some (cp, bytes, rest) ->
  JsString.toUpperCase (String b r) =
  (JsString.upper_seq cp bytes ++ JsString.toUpperCase rest)%string.
Proof.
  intros H Hs. cbn [JsString.toUpperCase]. rewrite H.
  unfold JsString.head_seq in Hs.
  destruct r as [| b2 r2]; [discriminate |].
  destruct (Utf8.decode2 b b2); [now inversion Hs |].
  destruct r2 as [| b3 r3]; [discriminate |].
  destruct (Utf8.decode3 b b2 b3); [now inversion Hs |].
  destruct r3 as [| b4 r4]; [discriminate |].
  destruct (Utf8.decode4 b b2 b3 b4); [now inversion Hs | discriminate].
Qed.

Lemma toUpperCase_stray b r :
  (N_of_ascii b <? 128)%N = false ->
  JsString.head_seq b r = None ->
  JsString.toUpperCase (String b r) = String b (JsString.toUpperCase r).
Proof.
  intros H Hs. cbn [JsString.toUpperCase]. rewrite H.
  unfold JsString.head_seq in Hs.
  destruct r as [| b2 r2]; [reflexivity |].
  destruct (Utf8.decode2 b b2); [discriminate |].
  destruct r2 as [| b3 r3]; [reflexivity |].
  destruct (Utf8.decode3 b b2 b3); [discriminate |].
  destruct r3 as [| b4 r4]; [reflexivity |].
  now destruct (Utf8.decode4 b b2 b3 b4).
Qed.

Lemma head_seq_shorter b r cp bytes rest :
  JsString.head_seq b r = Some (cp, bytes, rest) ->
  (String.length rest < String.length r)%nat.
Proof.
  unfold JsString.head_seq. intros Hs.
  destruct r as [| b2 r2]; [discriminate |].
  destruct (Utf8.decode2 b b2); [inversion Hs; subst; simpl; lia |].
  destruct r2 as [| b3 r3]; [discriminate |].
  destruct (Utf8.decode3 b b2 b3); [inversion Hs; subst; simpl; lia |].
  destruct r3 as [| b4 r4]; [discriminate |].
  destruct (Utf8.decode4 b b2 b3 b4); [inversion Hs; subst; simpl; lia | discriminate].
Qed.

(** Induction on a string by the steps of [toUpperCase]. *)
Lemma toUpperCase_steps (P : string -> Prop) :
  P EmptyString ->
  (forall b r, (N_of_ascii b <? 128)%N = true -> P r -> P (String b r)) ->
  (forall b r cp bytes rest,
     (N_of_ascii b <? 128)%N = false ->
     JsString.head_seq b r = Some (cp, bytes, rest) -> P rest -> P (String b r)) ->
  (forall b r,
     (N_of_ascii b <? 128)%N = false ->
     JsString.head_seq b r = None -> P r -> P (String b r)) ->
  forall s, P s.
Proof.
  intros H0 Hlow Hseq Hstray s.
  assert (H : forall n s, (String.length s < n)%nat -> P s).
  { induction n as [| n IH]; intros s' Hn; [lia |].
    destruct s' as [| b r]; [exact H0 |]. simpl in Hn.
    destruct (N_of_ascii b <? 128)%N eqn:Hb.
    - apply Hlow; [exact Hb | apply IH; lia].
    - destruct (JsString.head_seq b r) as [[[cp bytes] rest] |] eqn:Hs.
      + apply (Hseq b r cp bytes rest Hb Hs). apply IH.
        apply head_seq_shorter in Hs. lia.
      + apply Hstray; [exact Hb | exact Hs | apply IH; lia]. }
  apply (H (S (String.length s))). lia.
Qed.

Lemma lower_free_app s t :
  JsString.lower_free (s ++ t) = JsString.lower_free s && JsString.lower_free t.
Proof.
  induction s as [| b s IH]; simpl; [reflexivity |].
  now rewrite IH, andb_assoc.
Qed.

Lemma toUpperChar_not_lower b : JsString.is_lower (JsString.toUpperChar b) = false.
Proof. all_bytes b. Qed.

Lemma high_not_lower b :
  (N_of_ascii b <? 128)%N = false -> JsString.is_lower b = false.
Proof. all_bytes b. Qed.

Lemma cont_high b c : Utf8.cont b = Some c -> (N_of_ascii b <? 128)%N = false.
Proof. all_bytes b. Qed.

Lemma head_seq_bytes b r cp bytes rest :
  (N_of_ascii b <? 128)%N = false ->
  JsString.head_seq b r = Some (cp, bytes, rest) ->
  JsString.lower_free bytes = true.
Proof.
  unfold JsString.head_seq, Utf8.decode2, Utf8.decode3, Utf8.decode4.
  intros Hb Hs.
  destruct r as [| b2 r2]; [discriminate |].
  destruct (Utf8.cont b2) as [c2 |] eqn:H2.
  2:{ destruct r2 as [| b3 r3]; [discriminate |].
      destruct r3 as [| b4 r4]; discriminate. }
  apply cont_high in H2.
  destruct (_ && _) in Hs.
  { inversion Hs; subst. simpl. now rewrite !high_not_lower. }
  destruct r2 as [| b3 r3]; [discriminate |].
  destruct (Utf8.cont b3) as [c3 |] eqn:H3.
  2:{ destruct r3 as [| b4 r4]; discriminate. }
  apply cont_high in H3.
  destruct (_ && _) in Hs.
  { inversion Hs; subst. simpl. now rewrite !high_not_lower. }
  destruct r3 as [| b4 r4]; [discriminate |].
  destruct (Utf8.cont b4) as [c4 |] eqn:H4; [| discriminate].
  apply cont_high in H4.
  destruct (_ && _) in Hs; [| discriminate].
  inversion Hs; subst. simpl. now rewrite !high_not_lower.
Qed.

Lemma byte_not_lower n :
  (n < 97 \/ 122 < n)%N -> (n < 256)%N ->
  JsString.is_lower (ascii_of_N n) = false.
Proof.
  intros Hn Hlt. unfold JsString.is_lower.
  rewrite N_ascii_embedding by exact Hlt.
  destruct (97 <=? n)%N eqn:E1, (n <=? 122)%N eqn:E2; try reflexivity.
  apply N.leb_le in E1, E2. lia.
Qed.

Lemma encode_lower_free cp :
  (cp < 97 \/ 122 < cp)%N -> (cp < 1114112)%N ->
  JsString.lower_free (Utf8.encode cp) = true.
Proof.
  intros Hcp Hmax. unfold Utf8.encode, Utf8.byte.
  assert (M : forall a, (a mod 64 < 64)%N) by (intros a; now apply N.mod_lt).
  pose proof (M cp). pose proof (M (cp / 64)%N). pose proof (M (cp / 4096)%N).
  assert (D : forall d k, (d <> 0 -> cp < d * k -> cp / d < k)%N)
    by (intros d k Hd Hk; now apply N.Div0.div_lt_upper_bound).
  pose proof (D 64 32 ltac:(discriminate))%N as D1.
  pose proof (D 4096 16 ltac:(discriminate))%N as D2.
  pose proof (D 262144 5 ltac:(discriminate))%N as D3.
  set (m0 := (cp mod 64)%N) in *. set (m1 := ((cp / 64) mod 64)%N) in *.
  set (m2 := ((cp / 4096) mod 64)%N) in *.
  set (q1 := (cp / 64)%N) in *. set (q2 := (cp / 4096)%N) in *.
  set (q3 := (cp / 262144)%N) in *.
  clearbody m0 m1 m2 q1 q2 q3. clear M D.
  destruct (cp <? 128)%N eqn:E1;
    [apply N.ltb_lt in E1 | apply N.ltb_ge in E1;
     destruct (cp <? 2048)%N eqn:E2;
       [apply N.ltb_lt in E2 | apply N.ltb_ge in E2;
        destruct (cp <? 65536)%N eqn:E3;
          [apply N.ltb_lt in E3 | apply N.ltb_ge in E3]]];
    cbn [JsString.lower_free];
    rewrite !byte_not_lower by lia; reflexivity.
Qed.

Lemma encode_all_lower_free cps :
  Forall (fun cp => (cp < 97 \/ 122 < cp) /\ cp < 1114112)%N cps ->
  JsString.lower_free (Utf8.encode_all cps) = true.
Proof.
  induction 1 as [| cp cps [Hcp Hmax] _ IH]; simpl; [reflexivity |].
  now rewrite lower_free_app, encode_lower_free, IH.
Qed.

(** No upper-case form contains a letter [a] to [z]. *)
Definition upper_ok (cp : N) : bool :=
  (((cp <? 97) || (122 <? cp)) && (cp <? 1114112))%N.

Lemma special_upper_ok :
  forallb (fun e => forallb upper_ok (snd e)) UnicodeUpper.special = true.
Proof. vm_compute. reflexivity. Qed.

Lemma simple_upper_ok :
  forallb (fun r : N * N * N * Z =>
             let '(first, last, _, delta) := r in
             (((122 <? Z.of_N first + delta) || (Z.of_N last + delta <? 97))
              && (Z.of_N last + delta <? 1114112))%Z)
    UnicodeUpper.simple = true.
Proof. vm_compute. reflexivity. Qed.

Lemma lookup_upper_ok cp cps :
  UnicodeUpper.lookup cp = Some cps ->
  Forall (fun cp => (cp < 97 \/ 122 < cp) /\ cp < 1114112)%N cps.
Proof.
  assert (Hok : forall c, upper_ok c = true -> ((c < 97 \/ 122 < c) /\ c < 1114112)%N).
  { intros c H. unfold upper_ok in H. apply andb_true_iff in H as [H1 H2].
    apply orb_true_iff in H1. rewrite !N.ltb_lt in *. tauto. }
  unfold UnicodeUpper.lookup. intros H.
  destruct (find _ UnicodeUpper.special) as [e |] eqn:Fs.
  - inversion H; subst. apply find_some in Fs as [Hin _].
    pose proof special_upper_ok as Hall. rewrite forallb_forall in Hall.
    specialize (Hall e Hin). rewrite forallb_forall in Hall.
    apply Forall_forall. intros c Hc. apply Hok. now apply Hall.
  - destruct (find _ UnicodeUpper.simple) as [[[[first last] step] delta] |] eqn:Fr;
      [| discriminate].
    inversion H; subst. apply find_some in Fr as [Hin Hrun].
    pose proof simple_upper_ok as Hall. rewrite forallb_forall in Hall.
    specialize (Hall _ Hin). cbn beta iota in Hall.
    apply andb_true_iff in Hall as [H1 H2].
    apply orb_true_iff in H1. rewrite !Z.ltb_lt in H1. apply Z.ltb_lt in H2.
    unfold UnicodeUpper.in_run in Hrun.
    apply andb_true_iff in Hrun as [Hrun _].
    apply andb_true_iff in Hrun as [Hlo Hhi].
    apply N.leb_le in Hlo, Hhi.
    constructor; [| constructor]. lia.
Qed.

Lemma upper_seq_lower_free cp bytes :
  JsString.lower_free bytes = true ->
  JsString.lower_free (JsString.upper_seq cp bytes) = true.
Proof.
  intros Hb. unfold JsString.upper_seq.
  destruct (UnicodeUpper.lookup cp) as [cps |] eqn:L; [| exact Hb].
  apply encode_all_lower_free. now apply lookup_upper_ok in L.
Qed.

Lemma toUpperCase_lower_free s :
  JsString.lower_free (JsString.toUpperCase s) = true.
Proof.
  induction s as [| b r Hb IH | b r cp bytes rest Hb Hs IH | b r Hb Hs IH]
    using toUpperCase_steps.
  - reflexivity.
  - rewrite toUpperCase_low by exact Hb. simpl.
    now rewrite toUpperChar_not_lower, IH.
  - rewrite (toUpperCase_seq _ _ _ _ _ Hb Hs), lower_free_app, IH.
    rewrite upper_seq_lower_free; [reflexivity |].
    now apply (head_seq_bytes b r cp bytes rest).
  - rewrite toUpperCase_stray by assumption. simpl.
    now rewrite high_not_lower, IH.
Qed.

Lemma toUpperCase_is_ascii s :
  JsString.is_ascii s = true ->
  JsString.toUpperCase s = JsString.map_chars JsString.toUpperChar s.
Proof.
  induction s as [| b r IH]; [reflexivity |].
  cbn [JsString.is_ascii]. intros H. apply andb_true_iff in H as [Hb Hr].
  rewrite toUpperCase_low by exact Hb. cbn [JsString.map_chars]. now rewrite IH.
Qed.

Lemma toUpperChar_idem c :
  JsString.toUpperChar (JsString.toUpperChar c) = JsString.toUpperChar c.
Proof. all_bytes c. Qed.

Lemma toUpperChar_low b :
  (N_of_ascii (JsString.toUpperChar b) <? 128)%N = (N_of_ascii b <? 128)%N.
Proof. all_bytes b. Qed.

Lemma toUpperChar_high b :
  (N_of_ascii b <? 128)%N = false -> JsString.toUpperChar b = b.
Proof. all_bytes b. Qed.

Lemma cont_toUpperChar b : Utf8.cont (JsString.toUpperChar b) = Utf8.cont b.
Proof. all_bytes b. Qed.

Lemma head_seq_map_upper b r :
  JsString.head_seq b (JsString.map_chars JsString.toUpperChar r) =
  match JsString.head_seq b r with
  | Some (cp, bytes, rest) =>
      Some (cp, bytes, JsString.map_chars JsString.toUpperChar rest)
  | None => None
  end.
Proof.
  unfold JsString.head_seq, Utf8.decode2, Utf8.decode3, Utf8.decode4.
  destruct r as [| b2 r2]; [reflexivity |]. cbn [JsString.map_chars].
  rewrite cont_toUpperChar.
  destruct (Utf8.cont b2) as [c2 |] eqn:H2.
  2:{ destruct r2 as [| b3 r3]; [reflexivity |]. cbn [JsString.map_chars].
      destruct r3 as [| b4 r4]; reflexivity. }
  apply cont_high in H2. rewrite (toUpperChar_high b2 H2).
  destruct (_ && _); [reflexivity |].
  destruct r2 as [| b3 r3]; [reflexivity |]. cbn [JsString.map_chars].
  rewrite cont_toUpperChar.
  destruct (Utf8.cont b3) as [c3 |] eqn:H3.
  2:{ destruct r3 as [| b4 r4]; reflexivity. }
  apply cont_high in H3. rewrite (toUpperChar_high b3 H3).
  destruct (_ && _); [reflexivity |].
  destruct r3 as [| b4 r4]; [reflexivity |]. cbn [JsString.map_chars].
  rewrite cont_toUpperChar.
  destruct (Utf8.cont b4) as [c4 |] eqn:H4; [| reflexivity].
  apply cont_high in H4. rewrite (toUpperChar_high b4 H4).
  now destruct (_ && _).
Qed.

(** Upper-casing the ASCII letters first changes nothing. *)
Lemma toUpperCase_map_upper s :
  JsString.toUpperCase (JsString.map_chars JsString.toUpperChar s) =
  JsString.toUpperCase s.
Proof.
  induction s as [| b r Hb IH | b r cp bytes rest Hb Hs IH | b r Hb Hs IH]
    using toUpperCase_steps.
  - reflexivity.
  - cbn [JsString.map_chars].
    rewrite !toUpperCase_low by (rewrite ?toUpperChar_low; exact Hb).
    now rewrite toUpperChar_idem, IH.
  - cbn [JsString.map_chars]. rewrite (toUpperChar_high b Hb).
    rewrite (toUpperCase_seq _ _ _ _ _ Hb Hs).
    rewrite (toUpperCase_seq b _ cp bytes (JsString.map_chars JsString.toUpperChar rest) Hb).
    + now rewrite IH.
    + now rewrite head_seq_map_upper, Hs.
  - cbn [JsString.map_chars]. rewrite (toUpperChar_high b Hb).
    rewrite !toUpperCase_stray; try assumption.
    + now rewrite IH.
    + now rewrite head_seq_map_upper, Hs.
Qed.

Example toUpperCase_banco : JsString.toUpperCase "bañco" = "BAÑCO".
Proof. reflexivity. Qed.

Example toUpperCase_strasse : JsString.toUpperCase "straße" = "STRASSE".
Proof. reflexivity. Qed.

(** ** Bank registry *)

Lemma getBankByCode_run env code w :
  getBankByCode env code w =
  (match findOne_fault env with
   | Some e => Rejects e
   | None =>
       match find (fun b => String.eqb (bank_code b) (JsString.toUpperCase code))
               (banks w) with
       | Some bank => Resolves bank
       | None => Rejects (NotFoundException ("Bank with code " ++ code ++ " not found"))
       end
   end,
   log (CallFindOne (JsString.toUpperCase code)) w).
Proof.
  unfold getBankByCode, bind, findOne.
  destruct (findOne_fault env); [reflexivity |].
  now destruct (find _ (banks w)).
Qed.

(** X1. A bank returned by [getBankByCode] is a stored bank whose code is
    the upper-case form of the code asked for, and so holds no letter [a]
    to [z]: a bank stored under a code with such a letter is never
    returned, whatever code is asked for.  The lookup changes neither
    collection. *)
Theorem getBankByCode_resolves_normalised env code w bank w' :
  getBankByCode env code w = (Resolves bank, w') ->
  In bank (banks w) /\
  bank_code bank = JsString.toUpperCase code /\
  JsString.lower_free (bank_code bank) = true /\
  banks w' = banks w /\ audits w' = audits w.
Proof.
  rewrite getBankByCode_run. intros H.
  destruct (findOne_fault env); [discriminate |].
  destruct (find _ (banks w)) as [b |] eqn:F; [| discriminate].
  inversion H; subst. apply find_some in F as [Hin Heq].
  apply String.eqb_eq in Heq.
  repeat split; try assumption.
  rewrite Heq. apply toUpperCase_lower_free.
Qed.

Lemma getBankByCode_resolves_normalised_witness :
  In SampleBanks.bank_banco (banks SampleBanks.world_banco) /\
  bank_code SampleBanks.bank_banco = JsString.toUpperCase "bañco" /\
  JsString.lower_free (bank_code SampleBanks.bank_banco) = true /\
  banks (log (CallFindOne "BAÑCO") SampleBanks.world_banco) = banks SampleBanks.world_banco /\
  audits (log (CallFindOne "BAÑCO") SampleBanks.world_banco) = audits SampleBanks.world_banco.
Proof.
  apply (getBankByCode_resolves_normalised SampleBanks.env_ok "bañco"
           SampleBanks.world_banco SampleBanks.bank_banco
           (log (CallFindOne "BAÑCO") SampleBanks.world_banco)).
  reflexivity.
Defined.

(** X2. The lookup sees only the upper-case form of the code: two codes
    that differ only in the case of letters [a] to [z], or more generally
    have the same upper-case form (as straße and STRASSE), make the same
    database call and resolve to the same bank or both fail.  When the
    database answers and no bank is found, the error names the code as it
    was typed. *)
Theorem getBankByCode_case_insensitive env code1 code2 w :
  JsString.map_chars JsString.toUpperChar code1 =
    JsString.map_chars JsString.toUpperChar code2 \/
  JsString.toUpperCase code1 = JsString.toUpperCase code2 ->
  snd (getBankByCode env code1 w) = snd (getBankByCode env code2 w) /\
  (forall bank,
     fst (getBankByCode env code1 w) = Resolves bank <->
     fst (getBankByCode env code2 w) = Resolves bank) /\
  ((exists e, fst (getBankByCode env code1 w) = Rejects e) <->
   (exists e, fst (getBankByCode env code2 w) = Rejects e)) /\
  (findOne_fault env = None ->
   forall e, fst (getBankByCode env code1 w) = Rejects e ->
     e = NotFoundException ("Bank with code " ++ code1 ++ " not found") /\
     fst (getBankByCode env code2 w) =
       Rejects (NotFoundException ("Bank with code " ++ code2 ++ " not found"))).
Proof.
  intros Hc.
  assert (Hu : JsString.toUpperCase code1 = JsString.toUpperCase code2).
  { destruct Hc as [Hc | Hc]; [| exact Hc].
    rewrite <- (toUpperCase_map_upper code1), <- (toUpperCase_map_upper code2).
    now rewrite Hc. }
  rewrite !getBankByCode_run, Hu. cbn [fst snd].
  split; [reflexivity |].
  destruct (findOne_fault env) as [e |].
  - split; [intros bank; split; discriminate |].
    split; [split; intros _; now exists e | discriminate].
  - destruct (find _ (banks w)) as [b |].
    + split; [tauto |]. split; [split; intros (e & He); discriminate |].
      intros _ e He. discriminate.
    + split; [intros bank; split; discriminate |].
      split; [split; intros _; eexists; reflexivity |].
      intros _ e He. inversion He. now split.
Qed.

Lemma getBankByCode_case_insensitive_witness :
  (fst (getBankByCode SampleBanks.env_ok "bañco" SampleBanks.world_banco)
   = Resolves SampleBanks.bank_banco <->
   fst (getBankByCode SampleBanks.env_ok "BaÑcO" SampleBanks.world_banco)
   = Resolves SampleBanks.bank_banco) /\
  fst (getBankByCode SampleBanks.env_ok "bañco" SampleBanks.world_banco)
  = Resolves SampleBanks.bank_banco.
Proof.
  split; [| reflexivity].
  apply (proj1 (proj2 (getBankByCode_case_insensitive SampleBanks.env_ok
                         "bañco" "BaÑcO" SampleBanks.world_banco
                         (or_intror eq_refl)))).
Defined.

Lemma find_app_none {A} (f : A -> bool) l x :
  existsb f l = false -> f x = true -> find f (l ++ [x]) = Some x.
Proof.
  induction l as [| y l IH]; simpl; intros Hex Hx.
  - now rewrite Hx.
  - apply orb_false_iff in Hex as [Hy Hl]. rewrite Hy. now apply IH.
Qed.

Lemma createBank_run db t1 t2 dto w :
  exists bank0,
    bank_code bank0 = JsString.toUpperCase (dto_code dto) /\
    bank_id bank0 = None /\
    bank_name bank0 = dto_name dto /\
    bank_loginUrl bank0 = dto_loginUrl dto /\
    bank_active bank0 = match dto_active dto with Some b => b | None => true end /\
    createBank db t1 t2 dto w =
    match bank_insert_fault db with
    | Some e => (Rejects e, w)
    | None =>
        if code_taken (JsString.toUpperCase (dto_code dto)) w
        then (Rejects (Error "E11000 duplicate key error collection: chilean-banks-audit.banks index: code_1"), w)
        else (Resolves (with_id bank0 (bank_insert_id db)),
              add_bank (with_id bank0 (bank_insert_id db)) w)
    end.
Proof.
  exists {| bank_id := None;
            bank_name := dto_name dto;
            bank_code := JsString.toUpperCase (dto_code dto);
            bank_loginUrl := dto_loginUrl dto;
            bank_description := dto_description dto;
            bank_active := match dto_active dto with Some b => b | None => true end;
            bank_createdAt := Some t1;
            bank_updatedAt := Some t2 |}.
  repeat (split; [reflexivity |]).
  unfold createBank, bind, banks_insertOne, ret. cbn [bank_code bank_id].
  destruct (bank_insert_fault db); [reflexivity |].
  now destruct (code_taken _ w).
Qed.

(** X3. Registration and lookup round trip: the bank that [createBank]
    returns is stored last, under the upper-case form of the code and with
    an [_id],
    active unless the request says otherwise, and [getBankByCode] returns
    that very bank for every code with the same upper-case form (the code
    in another letter case, say). *)
Theorem createBank_then_getBankByCode db t1 t2 dto w bank w1 env code :
  createBank db t1 t2 dto w = (Resolves bank, w1) ->
  findOne_fault env = None ->
  JsString.toUpperCase code = JsString.toUpperCase (dto_code dto) ->
  banks w1 = (banks w ++ [bank])%list /\
  bank_code bank = JsString.toUpperCase (dto_code dto) /\
  bank_id bank = Some (bank_insert_id db) /\
  bank_active bank = match dto_active dto with Some b => b | None => true end /\
  fst (getBankByCode env code w1) = Resolves bank.
Proof.
  intros Hrun Hf Hc.
  destruct (createBank_run db t1 t2 dto w) as (b0 & Hcode & _ & _ & _ & Hact & Hrun').
  rewrite Hrun' in Hrun.
  destruct (bank_insert_fault db); [discriminate |].
  destruct (code_taken _ w) eqn:Htaken; [discriminate |].
  inversion Hrun; subst. cbn [banks add_bank bank_code bank_id bank_active with_id].
  repeat split; try assumption.
  rewrite getBankByCode_run, Hf, Hc. cbn [fst banks add_bank].
  rewrite (find_app_none _ _ (with_id b0 (bank_insert_id db)) Htaken).
  - reflexivity.
  - cbn [bank_code with_id]. rewrite Hcode. apply String.eqb_refl.
Qed.

Lemma createBank_then_getBankByCode_witness :
  exists bank w1,
    createBank SampleBanks.db_ok 1 2 SampleBanks.dto_banco SampleBanks.empty_world
    = (Resolves bank, w1) /\
    bank_code bank = "BAÑCO" /\ bank_active bank = true /\
    fst (getBankByCode SampleBanks.env_ok "Bañco" w1) = Resolves bank.
Proof.
  eexists. eexists. split; [reflexivity |].
  destruct (createBank_then_getBankByCode SampleBanks.db_ok 1 2 SampleBanks.dto_banco
              SampleBanks.empty_world _ _ SampleBanks.env_ok "Bañco"
              eq_refl eq_refl eq_refl) as (_ & Hcode & _ & Hact & Hget).
  repeat split; assumption.
Defined.

Lemma existsb_code_in code l :
  existsb (fun b => String.eqb (bank_code b) code) l = false ->
  ~ In code (map bank_code l).
Proof.
  induction l as [| b l IH]; simpl; intros H; [tauto |].
  apply orb_false_iff in H as [Hb Hl]. intros [Heq | Hin].
  - rewrite Heq, String.eqb_refl in Hb. discriminate.
  - now apply IH.
Qed.

Lemma createBank_taken db t1 t2 dto w :
  code_taken (JsString.toUpperCase (dto_code dto)) w = true ->
  exists e, createBank db t1 t2 dto w = (Rejects e, w).
Proof.
  intros Htaken.
  destruct (createBank_run db t1 t2 dto w) as (b0 & _ & _ & _ & _ & _ & Hrun).
  rewrite Hrun, Htaken. destruct (bank_insert_fault db); eexists; reflexivity.
Qed.

(** X4. The registry keeps codes unique.  Whatever it answers,
    [createBank] leaves a collection with pairwise distinct codes so; and
    once it has registered a bank, the code was new and every later
    request whose code has the same upper-case form (the same code in
    another letter case, say) is rejected and changes nothing. *)
Theorem createBank_keeps_codes_unique db t1 t2 dto w :
  (NoDup (map bank_code (banks w)) ->
   NoDup (map bank_code (banks (snd (createBank db t1 t2 dto w))))) /\
  (forall bank w1,
     createBank db t1 t2 dto w = (Resolves bank, w1) ->
     ~ In (bank_code bank) (map bank_code (banks w)) /\
     forall db' t1' t2' dto',
       JsString.toUpperCase (dto_code dto') = JsString.toUpperCase (dto_code dto) ->
       exists e, createBank db' t1' t2' dto' w1 = (Rejects e, w1)).
Proof.
  destruct (createBank_run db t1 t2 dto w) as (b0 & Hcode & _ & _ & _ & _ & Hrun).
  rewrite Hrun. split.
  - intros Hnd. destruct (bank_insert_fault db); [exact Hnd |].
    destruct (code_taken _ w) eqn:Htaken; [exact Hnd |].
    cbn [snd banks add_bank]. rewrite map_app. cbn [map bank_code with_id].
    rewrite Hcode.
    apply (Permutation.Permutation_NoDup
             (l := JsString.toUpperCase (dto_code dto) :: map bank_code (banks w))).
    + apply Permutation.Permutation_cons_append.
    + constructor; [| exact Hnd]. now apply existsb_code_in.
  - intros bank w1 Hres.
    destruct (bank_insert_fault db); [discriminate |].
    destruct (code_taken _ w) eqn:Htaken; [discriminate |].
    inversion Hres; subst. cbn [bank_code with_id]. rewrite Hcode. split.
    + now apply existsb_code_in.
    + intros db' t1' t2' dto' Hsame. apply createBank_taken.
      rewrite Hsame. unfold code_taken. cbn [banks add_bank].
      rewrite existsb_app. cbn [existsb bank_code with_id].
      now rewrite Hcode, String.eqb_refl, orb_true_r.
Qed.

Lemma createBank_keeps_codes_unique_witness :
  let w1 := snd (createBank SampleBanks.db_ok 1 2 SampleBanks.dto_banco
                   SampleBanks.empty_world) in
  let again :=
    {| dto_name := "Banco"; dto_code := "BAÑCO";
       dto_loginUrl := "https://example.test/login";
       dto_description := None; dto_active := Some false |} in
  (exists e, createBank SampleBanks.db_ok 3 4 again w1 = (Rejects e, w1)) /\
  NoDup (map bank_code (banks w1)).
Proof.
  intros w1 again. split.
  - apply (proj2 (proj2 (createBank_keeps_codes_unique SampleBanks.db_ok 1 2
                           SampleBanks.dto_banco SampleBanks.empty_world)
                    _ w1 eq_refl) SampleBanks.db_ok 3 4 again eq_refl).
  - apply (proj1 (createBank_keeps_codes_unique SampleBanks.db_ok 1 2
                    SampleBanks.dto_banco SampleBanks.empty_world)). constructor.
Defined.

(** ** Audit history *)

Lemma insert_desc_perm r l : Permutation (insert_desc r l) (r :: l).
Proof.
  induction l as [| x l IH]; simpl; [reflexivity |].
  destruct (timestamp r <? timestamp x); [| reflexivity].
  rewrite IH. apply perm_swap.
Qed.

Lemma sort_desc_perm l : Permutation (sort_desc l) l.
Proof.
  induction l as [| x l IH]; simpl; [constructor |].
  rewrite insert_desc_perm. now constructor.
Qed.

Lemma insert_desc_sorted r l :
  StronglySorted newer_or_equal l -> StronglySorted newer_or_equal (insert_desc r l).
Proof.
  induction l as [| x l IH]; simpl; intros Hs.
  - repeat constructor.
  - inversion Hs as [| ? ? Hl Hx]; subst.
    destruct (timestamp r <? timestamp x) eqn:E.
    + apply Z.ltb_lt in E. constructor; [now apply IH |].
      apply Forall_forall. intros y Hy.
      apply (Permutation_in _ (insert_desc_perm r l)) in Hy as [<- | Hy].
      * unfold newer_or_equal. lia.
      * now apply (proj1 (Forall_forall _ _) Hx).
    + apply Z.ltb_ge in E. constructor; [exact Hs |].
      constructor; [exact E |].
      apply Forall_forall. intros y Hy.
      specialize (proj1 (Forall_forall _ _) Hx y Hy). unfold newer_or_equal. lia.
Qed.

Lemma sort_desc_sorted l : StronglySorted newer_or_equal (sort_desc l).
Proof.
  induction l as [| x l IH]; simpl; [constructor | now apply insert_desc_sorted].
Qed.

Lemma firstn_incl {A} n (l : list A) x : In x (firstn n l) -> In x l.
Proof.
  revert n. induction l as [| z l IH]; intros n; destruct n; simpl; try tauto.
  intros [-> | H]; [now left | right; now apply (IH n)].
Qed.

Lemma firstn_sorted {A} (R : A -> A -> Prop) n l :
  StronglySorted R l -> StronglySorted R (firstn n l).
Proof.
  revert n. induction l as [| x l IH]; intros n Hs; destruct n; simpl;
    try constructor.
  - inversion Hs; subst. now apply IH.
  - inversion Hs as [| ? ? _ Hx]; subst.
    apply Forall_forall. intros y Hy.
    apply (proj1 (Forall_forall _ _) Hx). now apply firstn_incl in Hy.
Qed.

Lemma cursor_limit_incl n l x : In x (cursor_limit n l) -> In x l.
Proof.
  unfold cursor_limit. destruct (n =? 0); [trivial | apply firstn_incl].
Qed.

(** X5. [getAuditHistory], for an integer limit, changes nothing.  When
    the query fails it rejects with the database's error.  Otherwise it
    returns only stored audits whose bank code is the upper-case form of
    the argument, newest first; with a non-zero limit (10 when none is
    given) it returns at most that many (the absolute value), and when the
    limit is 0, or positive and not exceeded, it returns all of them. *)
Theorem getAuditHistory_shape (db : FindQuery) (code : string) (limit : option Z)
    (w : World) :
  let n := match limit with Some n => n | None => 10 end in
  snd (getAuditHistory db code limit w) = w /\
  match find_fault db with
  | Some e => fst (getAuditHistory db code limit w) = Rejects e
  | None =>
      exists h,
        fst (getAuditHistory db code limit w) = Resolves h /\
        Forall (fun r => bankCode r = JsString.toUpperCase code /\ In r (audits w)) h /\
        StronglySorted newer_or_equal h /\
        (n <> 0 -> (length h <= Z.abs_nat n)%nat) /\
        (n = 0 \/ (0 < n /\ (length (audits_of code w) <= Z.abs_nat n)%nat) ->
         Permutation h (audits_of code w))
  end.
Proof.
  intros n. unfold getAuditHistory.
  destruct (find_fault db) as [e |]; cbn [fst snd]; [now split |].
  split; [reflexivity |]. eexists. split; [reflexivity |].
  fold (audits_of code w). fold n.
  split; [| split; [| split]].
  - apply Forall_forall. intros r Hr.
    apply cursor_limit_incl in Hr.
    apply (Permutation_in _ (sort_desc_perm _)) in Hr.
    apply filter_In in Hr as [Hin Heq]. apply String.eqb_eq in Heq. now split.
  - unfold cursor_limit. destruct (n =? 0).
    + apply sort_desc_sorted.
    + apply firstn_sorted, sort_desc_sorted.
  - intros Hn. unfold cursor_limit.
    destruct (n =? 0) eqn:E; [apply Z.eqb_eq in E; contradiction |].
    apply firstn_le_length.
  - intros Hall. unfold cursor_limit.
    destruct (n =? 0) eqn:E; [apply sort_desc_perm |].
    destruct Hall as [H0 | [_ Hlen]]; [apply Z.eqb_neq in E; contradiction |].
    rewrite firstn_all2; [apply sort_desc_perm |].
    now rewrite (Permutation_length (sort_desc_perm _)).
Qed.

(** ** What a run of the audit leaves behind *)

Lemma auditBank_try_shape env bank browser w :
  post (auditBank_try env bank browser) w
    (fun o _ =>
       match o with
       | Resolves r =>
           exists page, br_newPage browser = Resolves page /\
                        completed_shape env bank page r
       | Rejects _ => True
       end).
Proof.
  unfold auditBank_try.
  apply post_bind, post_call.
  destruct (br_newPage browser) as [page | e] eqn:Hpage; [| exact I].
  apply post_bind, post_call. destruct (pg_setUserAgent page); [| exact I].
  apply post_bind, post_call. destruct (pg_setRequestInterception page); [| exact I].
  apply post_bind, post_call.
  destruct (pg_goto page (bank_loginUrl bank)) as [[response |] | e];
    [| exact I | exact I].
  apply post_bind. unfold post at 1.
  destruct (analyzeSSL response (bank_loginUrl bank) _) as [[ssl0 | e1] w1];
    cbn [fst snd]; [| exact I].
  apply post_bind. unfold post at 1.
  destruct (analyzeAuthentication page w1) as [[auth0 | e2] w2];
    cbn [fst snd]; [| exact I].
  apply post_bind. unfold post at 1.
  destruct (analyzeCSRF page w2) as [[csrf0 | e3] w3]; cbn [fst snd]; [| exact I].
  apply post_bind. unfold post at 1, insertOne.
  destruct (insertOne_fault env _); cbn [fst snd]; [exact I |].
  apply post_ret. exists page. split; [reflexivity |].
  unfold completed_shape. cbn. repeat split.
Qed.

Lemma auditBank_outcomes env code verbose w o w' :
  auditBank env code verbose w = (o, w') ->
  banks w' = banks w /\ audit_outcome env code w o w'.
Proof.
  intros Hrun. unfold audit_outcome.
  pose proof (getBankByCode_world env code w) as Hw.
  destruct (getBankByCode env code w) as [[bank | e0] w0] eqn:Hbank;
    cbn [snd fst] in *; subst w0.
  2:{ rewrite (auditBank_unresolved _ _ _ _ _ _ Hbank) in Hrun.
      inversion Hrun; subst. split; [reflexivity |]. left. split; [reflexivity |].
      now exists e0. }
  destruct (puppeteer_launch env) as [browser | e0] eqn:Hlaunch.
  2:{ rewrite (auditBank_launch_rejects _ _ _ _ _ _ _ Hbank Hlaunch) in Hrun.
      inversion Hrun; subst. split; [reflexivity |]. left. split; [reflexivity |].
      now exists e0. }
  rewrite (auditBank_launched _ _ _ _ _ _ _ Hbank Hlaunch) in Hrun.
  unfold try_catch_finally, catch in Hrun.
  set (w1 := log CallLaunch (log (CallFindOne (JsString.toUpperCase code)) w)) in *.
  pose proof (auditBank_try_post is_close env bank browser w1 session_only_close) as Hpost.
  pose proof (auditBank_try_shape env bank browser w1) as Hshape.
  unfold post in Hpost, Hshape.
  destruct (auditBank_try env bank browser w1) as [[r | e] w2];
    cbn [fst snd] in Hpost, Hshape; destruct Hpost as (Hb & _ & Ha).
  - destruct Ha as (Ha & _). destruct Hshape as (page & Hpage & Hsh).
    unfold browser_close, call in Hrun.
    assert (Hw' : banks w' = banks w /\ audits w' = (audits w ++ [r])%list).
    { destruct (br_close browser); inversion Hrun; subst;
        cbn [banks audits log]; rewrite Hb, Ha; now split. }
    destruct Hw' as (Hb' & Ha'). split; [exact Hb' |]. right. left.
    exists bank, browser, page, r. repeat (split; [assumption || reflexivity |]).
    destruct (br_close browser) as [u | e]; inversion Hrun; subst.
    + now left.
    + right. now exists e.
  - unfold auditBank_catch, bind, insertOne, throw in Hrun.
    unfold browser_close, call in Hrun.
    destruct (insertOne_fault env (failedResult env bank e)) as [e1 |].
    + assert (Hw' : banks w' = banks w /\ audits w' = audits w /\ exists e2, o = Rejects e2).
      { destruct (br_close browser); inversion Hrun; subst;
          cbn [banks audits log]; rewrite Hb, Ha; repeat split; eexists; reflexivity. }
      destruct Hw' as (Hb' & Ha' & He). split; [exact Hb' |]. left. now split.
    + assert (Hw' : banks w' = banks w /\
                    audits w' = (audits w ++ [failedResult env bank e])%list /\
                    exists e2, o = Rejects e2).
      { destruct (br_close browser); inversion Hrun; subst;
          cbn [banks audits log store]; rewrite Hb, Ha; repeat split;
          eexists; reflexivity. }
      destruct Hw' as (Hb' & Ha' & He). split; [exact Hb' |]. right. right.
      exists bank, e. repeat split; assumption.
Qed.

Lemma resolved_code env code w bank :
  fst (getBankByCode env code w) = Resolves bank ->
  bank_code bank = JsString.toUpperCase code.
Proof.
  rewrite getBankByCode_run. cbn [fst].
  destruct (findOne_fault env); [discriminate |].
  destruct (find _ (banks w)) as [b |] eqn:F; [| discriminate].
  intros H. inversion H; subst. apply find_some in F as [_ Heq].
  now apply String.eqb_eq in Heq.
Qed.

Lemma calculateRiskScore_recs_nonempty s h a c :
  ra_recommendations (calculateRiskScore s h a c) <> [].
Proof.
  unfold calculateRiskScore. rewrite push_if_none_recs.
  now destruct (ra_recommendations _).
Qed.

Lemma calculateRiskScore_range s h a c :
  0 <= ra_riskScore (calculateRiskScore s h a c) <= 90.
Proof.
  rewrite calculateRiskScore_sum.
  destruct (negb (ssl_enabled s)), (0 <? Z.of_nat (length (ssl_issues s)));
    destruct (negb (strictTransportSecurity h)), (negb (contentSecurityPolicy h)),
      (negb (xFrameOptions h)), (negb (mfaAvailable a)), (negb (isProtected c)); lia.
Qed.

Lemma completed_record_ok env code w bank page r :
  fst (getBankByCode env code w) = Resolves bank ->
  completed_shape env bank page r -> audit_record_ok env code r.
Proof.
  intros Hbank (Hc & _ & _ & Ht & Hs & He & _ & Hr & Hrec).
  unfold audit_record_ok. rewrite Hc, (resolved_code _ _ _ _ Hbank).
  split; [reflexivity |]. split; [exact Ht |].
  split; [rewrite Hrec; apply calculateRiskScore_recs_nonempty |].
  left. repeat split; try assumption; rewrite Hr; apply calculateRiskScore_range.
Qed.

Lemma failed_record_ok env code w bank e :
  fst (getBankByCode env code w) = Resolves bank ->
  audit_record_ok env code (failedResult env bank e).
Proof.
  intros Hbank. unfold audit_record_ok. cbn.
  rewrite (resolved_code _ _ _ _ Hbank).
  repeat split; try discriminate. right. repeat split; discriminate.
Qed.

(** X6. Every record a run of [auditBank] adds carries the upper-cased
    code asked for and the time of the run, and is either completed (no
    error, a risk score between 0 and 90 that is the scorer's result on the
    record's own four analyses, with its recommendations) or failed (risk
    score 100, an error message, the retry recommendation); the status
    "timeout" is never written.  A record returned to the caller is
    completed and is the record just stored. *)
Theorem auditBank_stored_records env code verbose w o w' :
  auditBank env code verbose w = (o, w') ->
  (forall r, In r (audits w') -> In r (audits w) \/ audit_record_ok env code r) /\
  (forall r, In r (audits w') -> In r (audits w) \/ status r <> timeout) /\
  (forall r, o = Resolves r ->
     audits w' = (audits w ++ [r])%list /\ status r = completed).
Proof.
  intros Hrun. apply auditBank_outcomes in Hrun as (_ & Hout).
  assert (Hok : forall r, In r (audits w') -> In r (audits w) \/ audit_record_ok env code r).
  { intros r Hin.
    destruct Hout as [(Ha & _) | [(bank & browser & page & r0 & Hb & _ & _ & Hsh & Ha & _)
                                 | (bank & e & Hb & Ha & _)]].
    - left. now rewrite <- Ha.
    - rewrite Ha in Hin. apply in_app_or in Hin as [Hin | [<- | []]]; [now left |].
      right. eapply completed_record_ok; eassumption.
    - rewrite Ha in Hin. apply in_app_or in Hin as [Hin | [<- | []]]; [now left |].
      right. eapply failed_record_ok; eassumption. }
  split; [exact Hok |]. split.
  - intros r Hin. destruct (Hok r Hin) as [Hold | (_ & _ & _ & [(Hs & _) | (Hs & _)])];
      [now left | right; rewrite Hs; discriminate ..].
  - intros r ->.
    destruct Hout as [(_ & e & He) | [(bank & browser & page & r0 & _ & _ & _ & Hsh & Ha & Ho)
                                     | (_ & _ & _ & _ & e' & He)]];
      try discriminate.
    destruct Ho as [Ho | (e & Ho & _)]; [| discriminate].
    inversion Ho; subst. split; [exact Ha | apply Hsh].
Qed.

Lemma auditBank_stored_records_witness :
  let env := SamplePages.env_with
               (Resolves (SamplePages.browser_with SamplePages.hardened_page)) in
  exists r,
    audits (snd (auditBank env "bañco" false SampleBanks.world_banco)) = [r] /\
    bankCode r = "BAÑCO" /\
    audit_record_ok env "bañco" r.
Proof.
  intros env. eexists. split; [vm_compute; reflexivity |]. split; [reflexivity |].
  destruct (proj1 (auditBank_stored_records env "bañco" false SampleBanks.world_banco
                     (fst (auditBank env "bañco" false SampleBanks.world_banco))
                     (snd (auditBank env "bañco" false SampleBanks.world_banco))
                     (surjective_pairing _)) _ (or_introl eq_refl)) as [[] | Hok].
  exact Hok.
Defined.

Lemma sort_desc_newest r m :
  (forall x, In x m -> timestamp x < timestamp r) ->
  sort_desc (m ++ [r]) = r :: sort_desc m.
Proof.
  induction m as [| x m IH]; intros Hlt; simpl; [reflexivity |].
  rewrite IH by (intros y Hy; apply Hlt; now right). simpl.
  assert (Hx : timestamp x < timestamp r) by (apply Hlt; now left).
  apply Z.ltb_lt in Hx. now rewrite Hx.
Qed.

Lemma cursor_limit_head n r l :
  exists h, cursor_limit n (r :: l) = r :: h.
Proof.
  unfold cursor_limit. destruct (n =? 0) eqn:E; [now exists l |].
  apply Z.eqb_neq in E. destruct (Z.abs_nat n) as [| k] eqn:K; [lia |].
  simpl. now eexists.
Qed.

(** X7. The audit just recorded heads the history: if a run of
    [auditBank] for a code stored a record, and the run's clock is later
    than every stored audit of that bank, then [getAuditHistory], when its
    query is answered, returns that record first, whatever the limit and
    for every code with the same upper-case form. *)
Theorem latest_audit_first env code verbose w o w' r db code2 limit :
  auditBank env code verbose w = (o, w') ->
  audits w' = (audits w ++ [r])%list ->
  (forall x, In x (audits_of code w) -> timestamp x < now env) ->
  JsString.toUpperCase code2 = JsString.toUpperCase code ->
  find_fault db = None ->
  exists h,
    getAuditHistory db code2 limit w' = (Resolves (r :: h), w') /\
    (forall x, In x h -> In x (audits_of code w)).
Proof.
  intros Hrun Hstored Hnew Hcode Hdb.
  assert (Hok : audit_record_ok env code r).
  { apply auditBank_outcomes in Hrun as (_ & Hout).
    destruct Hout as [(Ha & _) | [(bank & browser & page & r0 & Hb & _ & _ & Hsh & Ha & _)
                                 | (bank & e & Hb & Ha & _)]].
    - rewrite Hstored in Ha. exfalso.
      apply (f_equal (@length _)) in Ha. rewrite length_app in Ha. simpl in Ha. lia.
    - rewrite Hstored in Ha. apply app_inj_tail in Ha as [_ ->].
      eapply completed_record_ok; eassumption.
    - rewrite Hstored in Ha. apply app_inj_tail in Ha as [_ ->].
      eapply failed_record_ok; eassumption. }
  destruct Hok as (Hbc & Hts & _).
  unfold getAuditHistory. rewrite Hdb, Hcode, Hstored, filter_app. cbn [filter].
  rewrite Hbc, String.eqb_refl.
  fold (audits_of code w).
  rewrite sort_desc_newest by (intros x Hx; rewrite Hts; now apply Hnew).
  set (n := match limit with Some n => n | None => 10 end).
  destruct (cursor_limit_head n r (sort_desc (audits_of code w))) as (h & Hh).
  exists h. rewrite Hh. split; [reflexivity |].
  intros x Hx.
  assert (Hin : In x (cursor_limit n (r :: sort_desc (audits_of code w)))).
  { rewrite Hh. now right. }
  apply cursor_limit_incl in Hin.
  destruct Hin as [<- | Hin].
  - (* the new record occurs once at the head; a second copy in [h] is a
       copy among the sorted older audits *)
    unfold cursor_limit in Hh. destruct (n =? 0).
    + inversion Hh; subst h.
      now apply (Permutation_in _ (sort_desc_perm _)) in Hx.
    + destruct (Z.abs_nat n) as [| k]; [discriminate |].
      cbn [firstn] in Hh. inversion Hh; subst h.
      apply firstn_incl in Hx.
      now apply (Permutation_in _ (sort_desc_perm _)) in Hx.
  - now apply (Permutation_in _ (sort_desc_perm _)) in Hin.
Qed.

Lemma latest_audit_first_witness :
  let env := SamplePages.env_with
               (Resolves (SamplePages.browser_with SamplePages.unreachable_page)) in
  let w' := snd (auditBank env "t1" false SampleBanks.world_with_history) in
  audits_of "t1" SampleBanks.world_with_history = [SampleBanks.earlier_audit] /\
  exists h,
    getAuditHistory SampleBanks.find_ok "T1" (Some 5) w'
    = (Resolves (failedResult env SamplePages.bank_T1
                   (Error "Navigation timeout of 30000 ms exceeded") :: h),
       w') /\
    (forall x, In x h -> In x (audits_of "t1" SampleBanks.world_with_history)).
Proof.
  intros env w'. split; [reflexivity |].
  apply (latest_audit_first env "t1" false SampleBanks.world_with_history
           (fst (auditBank env "t1" false SampleBanks.world_with_history))
           w'
           (failedResult env SamplePages.bank_T1
              (Error "Navigation timeout of 30000 ms exceeded"))
           SampleBanks.find_ok "T1" (Some 5)).
  - apply surjective_pairing.
  - reflexivity.
  - intros x [<- | []]. reflexivity.
  - reflexivity.
  - reflexivity.
Defined.

(** The same history, evaluated: the new record, then the earlier audit of
    the bank; the later audit of the other bank is not listed. *)
Example latest_audit_first_run :
  let env := SamplePages.env_with
               (Resolves (SamplePages.browser_with SamplePages.unreachable_page)) in
  fst (getAuditHistory SampleBanks.find_ok "T1" (Some 5)
         (snd (auditBank env "t1" false SampleBanks.world_with_history)))
  = Resolves [failedResult env SamplePages.bank_T1
                (Error "Navigation timeout of 30000 ms exceeded");
              SampleBanks.earlier_audit].
Proof. reflexivity. Qed.

(** X8. A failure to close the browser after a successful audit: the
    completed record stays stored and no failed record is written, yet
    [auditBank] rejects with the close error instead of returning the
    record. *)
Theorem close_failure_after_success env code verbose w bank w0 browser r w2 e :
  getBankByCode env code w = (Resolves bank, w0) ->
  puppeteer_launch env = Resolves browser ->
  auditBank_try env bank browser (log CallLaunch w0) = (Resolves r, w2) ->
  br_close browser = Rejects e ->
  auditBank env code verbose w = (Rejects e, log CallClose w2) /\
  audits (log CallClose w2) = (audits w ++ [r])%list /\
  status r = completed.
Proof.
  intros Hbank Hlaunch Hbody Hclose.
  rewrite (auditBank_launched _ _ _ _ _ _ _ Hbank Hlaunch).
  unfold try_catch_finally, catch. rewrite Hbody.
  unfold browser_close, call. rewrite Hclose.
  split; [reflexivity |].
  pose proof (post_run _ _ _ _ _
                (auditBank_try_post is_close env bank browser (log CallLaunch w0)
                   session_only_close) Hbody) as (_ & _ & Ha & Hs & _).
  pose proof (getBankByCode_world env code w) as Hw0.
  rewrite Hbank in Hw0. cbn [snd] in Hw0. subst w0.
  rewrite audits_log, Ha, !audits_log. now split.
Qed.

Lemma close_failure_after_success_witness :
  let env := SamplePages.env_with (Resolves (stuck_browser SamplePages.hardened_page)) in
  exists r w2,
    auditBank env "t1" false SamplePages.world0
    = (Rejects (Error "Protocol error: Connection closed"), log CallClose w2) /\
    audits (log CallClose w2) = (audits SamplePages.world0 ++ [r])%list /\
    status r = completed.
Proof.
  intros env. eexists. eexists.
  eapply (close_failure_after_success env "t1" false SamplePages.world0
            SamplePages.bank_T1 (log (CallFindOne "T1") SamplePages.world0)
            (stuck_browser SamplePages.hardened_page)).
  - reflexivity.
  - reflexivity.
  - vm_compute. reflexivity.
  - reflexivity.
Defined.

Lemma session_only_launch : session_only is_launch.
Proof. intros ev H. now left. Qed.

Lemma auditBank_session_counts env code verbose w :
  let w' := snd (auditBank env code verbose w) in
  (count is_launch (trace w') = count is_launch (trace w) /\
   count is_close (trace w') = count is_close (trace w)) \/
  (count is_launch (trace w') = S (count is_launch (trace w)) /\
   (count is_close (trace w') = count is_close (trace w) \/
    count is_close (trace w') = S (count is_close (trace w)))).
Proof.
  intros w'. subst w'.
  pose proof (getBankByCode_world env code w) as Hw.
  destruct (getBankByCode env code w) as [[bank | e0] w0] eqn:Hbank;
    cbn [snd] in Hw; subst w0.
  2:{ rewrite (auditBank_unresolved _ _ _ _ _ _ Hbank). cbn [snd].
      left. rewrite !count_log. simpl. lia. }
  destruct (puppeteer_launch env) as [browser | e0] eqn:Hlaunch.
  2:{ rewrite (auditBank_launch_rejects _ _ _ _ _ _ _ Hbank Hlaunch). cbn [snd].
      right. rewrite !count_log. simpl. lia. }
  rewrite (auditBank_launched _ _ _ _ _ _ _ Hbank Hlaunch).
  unfold try_catch_finally.
  set (w1 := log CallLaunch (log (CallFindOne (JsString.toUpperCase code)) w)).
  pose proof (auditBank_guarded_post is_close env bank browser w1 session_only_close) as Hc.
  pose proof (auditBank_guarded_post is_launch env bank browser w1 session_only_launch) as Hl.
  unfold post in Hc, Hl.
  destruct (catch (auditBank_try env bank browser) (auditBank_catch env bank) w1)
    as [o1 w2].
  cbn [fst snd] in Hc, Hl. destruct Hc as (_ & Hc & _). destruct Hl as (_ & Hl & _).
  unfold browser_close, call. right.
  destruct (br_close browser); cbn [snd]; rewrite !count_log, Hc, Hl; subst w1;
    rewrite !count_log; simpl; lia.
Qed.

(** X9. What [auditBank] never does: it never changes the banks
    collection, never removes or rewrites a stored audit and adds at most
    one, launches at most one browser, and closes a browser at most once
    and only if it launched one. *)
Theorem auditBank_frame env code verbose w :
  let w' := snd (auditBank env code verbose w) in
  banks w' = banks w /\
  (exists added, audits w' = (audits w ++ added)%list /\ (length added <= 1)%nat) /\
  (count is_launch (trace w') <= S (count is_launch (trace w)))%nat /\
  (count is_close (trace w') - count is_close (trace w)
   <= count is_launch (trace w') - count is_launch (trace w))%nat.
Proof.
  intros w'.
  destruct (auditBank_outcomes env code verbose w (fst (auditBank env code verbose w)) w'
              (surjective_pairing _)) as (Hb & Hout).
  split; [exact Hb |]. split.
  - destruct Hout as [(Ha & _) | [(bank & browser & page & r0 & _ & _ & _ & _ & Ha & _)
                                 | (bank & e & _ & Ha & _)]].
    + exists []. rewrite app_nil_r. split; [exact Ha | simpl; lia].
    + exists [r0]. split; [exact Ha | simpl; lia].
    + eexists. split; [exact Ha | simpl; lia].
  - pose proof (auditBank_session_counts env code verbose w) as H. fold w' in H.
    cbv zeta in H. lia.
Qed.

(** ** Header inspector: normalisation *)

Lemma get_set o k v k' :
  JsObject.get (JsObject.set o k v) k' =
  if String.eqb k k' then Some v else JsObject.get o k'.
Proof.
  induction o as [| [k0 v0] o IH]; simpl.
  - reflexivity.
  - destruct (String.eqb_spec k0 k) as [-> | Hne]; simpl.
    + now destruct (String.eqb k k').
    + destruct (String.eqb_spec k0 k') as [-> | Hne'].
      * destruct (String.eqb_spec k k') as [-> | _]; [contradiction | reflexivity].
      * exact IH.
Qed.

Lemma find_snoc {A} (p : A -> bool) l x :
  find p (l ++ [x]) =
  match find p l with
  | Some y => Some y
  | None => if p x then Some x else None
  end.
Proof.
  induction l as [| y l IH]; simpl; [reflexivity |].
  now destruct (p y).
Qed.

Lemma get_fold_set es o k :
  JsObject.get (fold_left (fun o kv => JsObject.set o (fst kv) (snd kv)) es o) k =
  match find (fun kv => String.eqb (fst kv) k) (rev es) with
  | Some kv => Some (snd kv)
  | None => JsObject.get o k
  end.
Proof.
  revert o. induction es as [| [k0 v0] es IH]; intros o; simpl; [reflexivity |].
  rewrite IH, find_snoc. cbn [fst snd].
  destruct (find _ (rev es)); [reflexivity |].
  rewrite get_set. now destruct (String.eqb k0 k).
Qed.

Lemma find_map_lower raw name :
  option_map snd
    (find (fun kv => String.eqb (fst kv) name)
       (rev (map (fun kv : string * string => (JsString.toLowerCase (fst kv), snd kv)) raw)))
  = sent_last raw name.
Proof.
  unfold sent_last. rewrite <- map_rev.
  induction (rev raw) as [| [k v] l IH]; simpl; [reflexivity |].
  destruct (String.eqb (JsString.toLowerCase k) name); [reflexivity | exact IH].
Qed.

Lemma lowered_get raw name :
  JsObject.get
    (JsObject.fromEntries
       (map (fun kv => (JsString.toLowerCase (fst kv), snd kv)) (JsObject.entries raw)))
    name
  = sent_last raw name.
Proof.
  unfold JsObject.fromEntries, JsObject.entries. rewrite get_fold_set.
  rewrite <- find_map_lower.
  now destruct (find _ _).
Qed.

Lemma analyzeSecurityHeaders_flags raw :
  let r := analyzeSecurityHeaders raw in
  let sent name := JsString.truthy (sent_last raw name) in
  strictTransportSecurity r = sent "strict-transport-security" /\
  contentSecurityPolicy r = sent "content-security-policy" /\
  xFrameOptions r = sent "x-frame-options" /\
  xContentTypeOptions r = sent "x-content-type-options" /\
  referrerPolicy r = sent "referrer-policy" /\
  permissionsPolicy r = sent "permissions-policy".
Proof.
  intros r sent. subst r sent. unfold analyzeSecurityHeaders.
  rewrite !lowered_get.
  match goal with |- context [headerScore ?a] => generalize (headerScore a) end.
  intros score.
  destruct (score >=? 90), (score >=? 75), (score >=? 60), (score >=? 40);
    repeat split.
Qed.

Lemma truthy_counted raw name :
  JsString.truthy (sent_last raw name) = RawHeaderSpec.counted raw name.
Proof.
  unfold RawHeaderSpec.counted. now destruct (sent_last raw name) as [[| c v] |].
Qed.

Lemma weighted_sum_raw_score raw :
  HeaderSpec.weighted_sum (analyzeSecurityHeaders raw) = RawHeaderSpec.score raw.
Proof.
  destruct (analyzeSecurityHeaders_flags raw) as (H1 & H2 & H3 & H4 & H5 & H6).
  cbv zeta in H1, H2, H3, H4, H5, H6. rewrite truthy_counted in H1, H2, H3, H4, H5, H6.
  unfold HeaderSpec.weighted_sum, HeaderSpec.weights, RawHeaderSpec.score,
    RawHeaderSpec.weights.
  cbn [fold_right fst snd]. now rewrite H1, H2, H3, H4, H5, H6.
Qed.

Lemma analyzeSecurityHeaders_grade_raw raw :
  hdr_grade (analyzeSecurityHeaders raw) = RawHeaderSpec.grade raw.
Proof.
  unfold RawHeaderSpec.grade. rewrite <- weighted_sum_raw_score.
  unfold analyzeSecurityHeaders.
  rewrite cascade_weighted_sum, grade_cascade_bucket by reflexivity.
  now rewrite headerScore_weighted_sum.
Qed.

(** C5. For every raw header map the grade is the bucket (A from 90, B from
    75, C from 60, D from 40, else F) of the weighted sum (20, 25, 15, 15,
    10, 15) over the six headers, a header counting when the value sent
    last under its name is not empty; that sum is the weighted sum of the
    six flags of the record.  When exactly HSTS and CSP are sent with a
    non-empty value the sum is 45 and the grade is D. *)
Theorem analyzeSecurityHeaders_grade :
  (forall raw : JsObject.t,
     hdr_grade (analyzeSecurityHeaders raw) = RawHeaderSpec.grade raw /\
     hdr_grade (analyzeSecurityHeaders raw)
     = HeaderSpec.grade_of (analyzeSecurityHeaders raw) /\
     HeaderSpec.weighted_sum (analyzeSecurityHeaders raw) = RawHeaderSpec.score raw) /\
  (forall raw : JsObject.t,
     RawHeaderSpec.counted raw "strict-transport-security" = true ->
     RawHeaderSpec.counted raw "content-security-policy" = true ->
     RawHeaderSpec.counted raw "x-frame-options" = false ->
     RawHeaderSpec.counted raw "x-content-type-options" = false ->
     RawHeaderSpec.counted raw "referrer-policy" = false ->
     RawHeaderSpec.counted raw "permissions-policy" = false ->
     RawHeaderSpec.score raw = 45 /\
     hdr_grade (analyzeSecurityHeaders raw) = Grade_D).
Proof.
  split.
  - intros raw. split; [apply analyzeSecurityHeaders_grade_raw |].
    split; [| apply weighted_sum_raw_score].
    unfold HeaderSpec.grade_of. rewrite weighted_sum_raw_score.
    apply analyzeSecurityHeaders_grade_raw.
  - intros raw H1 H2 H3 H4 H5 H6.
    assert (S45 : RawHeaderSpec.score raw = 45).
    { unfold RawHeaderSpec.score, RawHeaderSpec.weights. cbn [fold_right fst snd].
      now rewrite H1, H2, H3, H4, H5, H6. }
    split; [exact S45 |].
    rewrite analyzeSecurityHeaders_grade_raw. unfold RawHeaderSpec.grade.
    now rewrite S45.
Qed.

Lemma analyzeSecurityHeaders_grade_witness :
  RawHeaderSpec.score Samples.hsts_csp_headers = 45 /\
  hdr_grade (analyzeSecurityHeaders Samples.hsts_csp_headers) = Grade_D.
Proof.
  apply (proj2 analyzeSecurityHeaders_grade Samples.hsts_csp_headers); reflexivity.
Defined.

(** Counterexample to C5 as worded: HSTS and CSP are both present and no
    other of the six headers is, but HSTS is sent with an empty value; the
    score is 25 and the grade F, so presence alone does not give 45 and
    D. *)
Lemma analyzeSecurityHeaders_present_but_empty :
  ~ (forall raw : JsObject.t,
       RawHeaderSpec.present raw "strict-transport-security" = true ->
       RawHeaderSpec.present raw "content-security-policy" = true ->
       RawHeaderSpec.present raw "x-frame-options" = false ->
       RawHeaderSpec.present raw "x-content-type-options" = false ->
       RawHeaderSpec.present raw "referrer-policy" = false ->
       RawHeaderSpec.present raw "permissions-policy" = false ->
       headerScore (analyzeSecurityHeaders raw) = 45 /\
       hdr_grade (analyzeSecurityHeaders raw) = Grade_D).
Proof.
  intros claim.
  destruct (claim hsts_empty_csp eq_refl eq_refl eq_refl eq_refl eq_refl eq_refl)
    as (_ & Hgrade).
  vm_compute in Hgrade. discriminate Hgrade.
Qed.

(** The same response, evaluated. *)
Example hsts_empty_csp_run :
  headerScore (analyzeSecurityHeaders hsts_empty_csp) = 25 /\
  hdr_grade (analyzeSecurityHeaders hsts_empty_csp) = Grade_F /\
  strictTransportSecurity (analyzeSecurityHeaders hsts_empty_csp) = false /\
  contentSecurityPolicy (analyzeSecurityHeaders hsts_empty_csp) = true.
Proof. repeat split. Qed.

(** X10. A header is flagged present exactly when the last entry sent
    under its name, compared without regard to ASCII letter case, has a
    non-empty value: an earlier duplicate or a differently cased name
    changes nothing, and an empty last value counts as absent. *)
Theorem header_flags_follow_last_value (raw : JsObject.t) :
  let r := analyzeSecurityHeaders raw in
  let sent name :=
    match sent_last raw name with
    | Some v => negb (String.eqb v EmptyString)
    | None => false
    end in
  strictTransportSecurity r = sent "strict-transport-security" /\
  contentSecurityPolicy r = sent "content-security-policy" /\
  xFrameOptions r = sent "x-frame-options" /\
  xContentTypeOptions r = sent "x-content-type-options" /\
  referrerPolicy r = sent "referrer-policy" /\
  permissionsPolicy r = sent "permissions-policy".
Proof.
  intros r sent.
  assert (E : forall name, JsString.truthy (sent_last raw name) = sent name).
  { intros name. subst sent. cbv beta. destruct (sent_last raw name) as [[| c v] |];
      reflexivity. }
  rewrite <- !E. apply analyzeSecurityHeaders_flags.
Qed.

Lemma toLowerChar_idem c :
  JsString.toLowerChar (JsString.toLowerChar c) = JsString.toLowerChar c.
Proof.
  destruct c as [b0 b1 b2 b3 b4 b5 b6 b7];
    destruct b0, b1, b2, b3, b4, b5, b6, b7; reflexivity.
Qed.

Lemma toLowerCase_idem s :
  JsString.toLowerCase (JsString.toLowerCase s) = JsString.toLowerCase s.
Proof.
  unfold JsString.toLowerCase. induction s as [| c s IH]; simpl.
  - reflexivity.
  - now rewrite toLowerChar_idem, IH.
Qed.

Lemma set_fresh o k v :
  ~ In k (map fst o) -> JsObject.set o k v = (o ++ [(k, v)])%list.
Proof.
  induction o as [| [k0 v0] o IH]; simpl; intros Hk; [reflexivity |].
  destruct (String.eqb_spec k0 k) as [-> | _]; [tauto |].
  rewrite IH by tauto. reflexivity.
Qed.

Lemma set_keys o k v :
  In k (map fst o) -> map fst (JsObject.set o k v) = map fst o.
Proof.
  induction o as [| [k0 v0] o IH]; simpl; intros Hk; [tauto |].
  destruct (String.eqb_spec k0 k) as [-> | Hne]; [reflexivity |].
  simpl. rewrite IH; [reflexivity |]. destruct Hk; [contradiction | assumption].
Qed.

(** An object whose keys are pairwise distinct and in lower case. *)
Lemma set_keeps_lower o k v :
  NoDup (map fst o) /\ Forall (fun k' => JsString.toLowerCase k' = k') (map fst o) ->
  JsString.toLowerCase k = k ->
  NoDup (map fst (JsObject.set o k v)) /\
  Forall (fun k' => JsString.toLowerCase k' = k') (map fst (JsObject.set o k v)).
Proof.
  intros (Hnd & Hlow) Hk.
  destruct (in_dec string_dec k (map fst o)) as [Hin | Hout].
  - now rewrite set_keys.
  - rewrite set_fresh by assumption. rewrite map_app. cbn [map fst]. split.
    + apply (Permutation_NoDup (l := k :: map fst o)).
      * apply Permutation_cons_append.
      * now constructor.
    + apply Forall_app. split; [assumption | now repeat constructor].
Qed.

Lemma lowered_keys raw :
  let o := JsObject.fromEntries
             (map (fun kv => (JsString.toLowerCase (fst kv), snd kv))
                (JsObject.entries raw)) in
  NoDup (map fst o) /\ Forall (fun k => JsString.toLowerCase k = k) (map fst o).
Proof.
  unfold JsObject.fromEntries, JsObject.entries, JsObject.empty.
  assert (G : forall es o,
             NoDup (map fst o) /\
             Forall (fun k => JsString.toLowerCase k = k) (map fst o) ->
             let o' := fold_left (fun o kv => JsObject.set o (fst kv) (snd kv))
                         (map (fun kv : string * string =>
                                 (JsString.toLowerCase (fst kv), snd kv)) es) o in
             NoDup (map fst o') /\
             Forall (fun k => JsString.toLowerCase k = k) (map fst o')).
  { induction es as [| [k v] es IH]; intros o Ho; simpl; [exact Ho |].
    apply IH. apply set_keeps_lower; [exact Ho | apply toLowerCase_idem]. }
  apply G. split; constructor.
Qed.

Lemma rebuild_distinct o acc :
  NoDup (map fst (acc ++ o)) ->
  fold_left (fun o kv => JsObject.set o (fst kv) (snd kv)) o acc = (acc ++ o)%list.
Proof.
  revert acc. induction o as [| [k v] o IH]; intros acc Hnd; simpl.
  - now rewrite app_nil_r.
  - rewrite set_fresh.
    + rewrite IH; rewrite <- app_assoc; [reflexivity | exact Hnd].
    + rewrite map_app in Hnd. cbn [map fst] in Hnd.
      apply NoDup_remove_2 in Hnd. intros Hin. apply Hnd.
      apply in_or_app. now left.
Qed.

Lemma map_lower_id (o : JsObject.t) :
  Forall (fun k => JsString.toLowerCase k = k) (map fst o) ->
  map (fun kv : string * string => (JsString.toLowerCase (fst kv), snd kv)) o = o.
Proof.
  induction o as [| [k v] o IH]; simpl; intros H; [reflexivity |].
  inversion H as [| ? ? Hk Ho]; subst. cbn [fst snd]. now rewrite Hk, IH.
Qed.

Lemma analyzeSecurityHeaders_headers raw :
  hdr_headers (analyzeSecurityHeaders raw) =
  JsObject.fromEntries
    (map (fun kv => (JsString.toLowerCase (fst kv), snd kv)) (JsObject.entries raw)).
Proof.
  unfold analyzeSecurityHeaders.
  match goal with |- context [headerScore ?a] => generalize (headerScore a) end.
  intros score.
  destruct (score >=? 90), (score >=? 75), (score >=? 60), (score >=? 40); reflexivity.
Qed.

(** X11. The header map kept in the analysis is normalised: its names are
    in lower case and pairwise distinct; and analysing that map again
    gives back the same analysis (flags, map and grade), so normalisation
    is idempotent. *)
Theorem analyzeSecurityHeaders_normalises (raw : JsObject.t) :
  let r := analyzeSecurityHeaders raw in
  NoDup (map fst (hdr_headers r)) /\
  (forall k, In k (map fst (hdr_headers r)) -> JsString.toLowerCase k = k) /\
  analyzeSecurityHeaders (hdr_headers r) = r.
Proof.
  intros r. subst r. rewrite analyzeSecurityHeaders_headers.
  destruct (lowered_keys raw) as (Hnd & Hlow). cbv zeta in Hnd, Hlow.
  split; [exact Hnd |]. split; [now apply Forall_forall |].
  set (o := JsObject.fromEntries _) in *.
  assert (Ho : JsObject.fromEntries
                 (map (fun kv => (JsString.toLowerCase (fst kv), snd kv))
                    (JsObject.entries o)) = o).
  { unfold JsObject.entries. rewrite map_lower_id by exact Hlow.
    unfold JsObject.fromEntries. now rewrite rebuild_distinct. }
  unfold analyzeSecurityHeaders. rewrite Ho. reflexivity.
Qed.

(** ** Header inspector: grades *)

Lemma analyzeSecurityHeaders_grade_score raw :
  hdr_grade (analyzeSecurityHeaders raw) =
  HeaderSpec.bucket HeaderSpec.thresholds (headerScore (analyzeSecurityHeaders raw)).
Proof.
  rewrite headerScore_weighted_sum. unfold analyzeSecurityHeaders.
  rewrite cascade_weighted_sum, grade_cascade_bucket by reflexivity.
  now rewrite headerScore_weighted_sum.
Qed.

(** X12. The header grade is A exactly when HSTS, CSP, X-Frame-Options,
    X-Content-Type-Options and Permissions-Policy are all flagged (only
    Referrer-Policy may be missing), and F exactly when the weights of the
    flagged headers add up to less than 40. *)
Theorem header_grade_extremes (raw : JsObject.t) :
  let r := analyzeSecurityHeaders raw in
  (hdr_grade r = Grade_A <->
   strictTransportSecurity r = true /\ contentSecurityPolicy r = true /\
   xFrameOptions r = true /\ xContentTypeOptions r = true /\
   permissionsPolicy r = true) /\
  (hdr_grade r = Grade_F <-> headerScore r < 40).
Proof.
  intros r. subst r. rewrite analyzeSecurityHeaders_grade_score.
  generalize (analyzeSecurityHeaders raw). intros r.
  unfold headerScore, HeaderSpec.thresholds, HeaderSpec.bucket.
  destruct (strictTransportSecurity r), (contentSecurityPolicy r), (xFrameOptions r),
    (xContentTypeOptions r), (referrerPolicy r), (permissionsPolicy r);
    cbn; (split; split; intros H; try discriminate; try lia; try tauto;
          try (repeat split; reflexivity)).
Qed.

Lemma headerScore_mono h1 h2 : flags_le h1 h2 -> headerScore h1 <= headerScore h2.
Proof.
  intros (H1 & H2 & H3 & H4 & H5 & H6). unfold headerScore.
  assert (M : forall (a b : bool) w, 0 <= w -> (a = true -> b = true) ->
                (if a then w else 0) <= (if b then w else 0)).
  { intros [] [] w Hw Hab; try lia; specialize (Hab eq_refl); discriminate. }
  pose proof (M _ _ 20 ltac:(lia) H1). pose proof (M _ _ 25 ltac:(lia) H2).
  pose proof (M _ _ 15 ltac:(lia) H3). pose proof (M _ _ 15 ltac:(lia) H4).
  pose proof (M _ _ 10 ltac:(lia) H5). pose proof (M _ _ 15 ltac:(lia) H6).
  lia.
Qed.

Lemma bucket_mono s1 s2 :
  s1 <= s2 ->
  grade_rank (HeaderSpec.bucket HeaderSpec.thresholds s1)
  <= grade_rank (HeaderSpec.bucket HeaderSpec.thresholds s2).
Proof.
  intros H. unfold HeaderSpec.thresholds, HeaderSpec.bucket.
  destruct (90 <=? s1) eqn:A1, (75 <=? s1) eqn:B1, (60 <=? s1) eqn:C1, (40 <=? s1) eqn:D1,
    (90 <=? s2) eqn:A2, (75 <=? s2) eqn:B2, (60 <=? s2) eqn:C2, (40 <=? s2) eqn:D2;
    cbn; try lia;
    repeat match goal with
           | E : (_ <=? _) = true |- _ => apply Z.leb_le in E
           | E : (_ <=? _) = false |- _ => apply Z.leb_gt in E
           end; lia.
Qed.

(** X13. Sending more security headers never lowers the grade: if every
    header flagged for one response is flagged for another, the grade of
    the second is at least that of the first. *)
Theorem header_grade_monotone (raw1 raw2 : JsObject.t) :
  flags_le (analyzeSecurityHeaders raw1) (analyzeSecurityHeaders raw2) ->
  grade_rank (hdr_grade (analyzeSecurityHeaders raw1))
  <= grade_rank (hdr_grade (analyzeSecurityHeaders raw2)).
Proof.
  intros Hle. rewrite !analyzeSecurityHeaders_grade_score.
  now apply bucket_mono, headerScore_mono.
Qed.

Lemma header_grade_monotone_witness :
  grade_rank (hdr_grade (analyzeSecurityHeaders Samples.hsts_csp_headers))
  <= grade_rank (hdr_grade (analyzeSecurityHeaders SamplePages.all_six_headers)).
Proof.
  apply (header_grade_monotone Samples.hsts_csp_headers SamplePages.all_six_headers).
  repeat split.
Defined.

Lemma no_matching_response url evs acc :
  (forall ev, In ev evs -> fst ev <> url) ->
  fold_left (onResponse url) evs acc = acc.
Proof.
  revert acc. induction evs as [| ev evs IH]; intros acc H; simpl; [reflexivity |].
  unfold onResponse at 2.
  destruct (String.eqb_spec (fst ev) url) as [E | _].
  - exfalso. apply (H ev); [now left | exact E].
  - apply IH. intros ev' Hin. apply H. now right.
Qed.

(** X14. Response headers are captured only from responses whose URL is
    character for character the stored login URL.  If the page produced no
    such response (a redirect, or a trailing slash added by the browser),
    a completed audit records no header at all: all six flags off, grade
    F, and a risk score of at least 25. *)
Theorem headers_need_exact_url env code verbose w r w' bank browser page :
  auditBank env code verbose w = (Resolves r, w') ->
  fst (getBankByCode env code w) = Resolves bank ->
  puppeteer_launch env = Resolves browser ->
  br_newPage browser = Resolves page ->
  (forall ev, In ev (pg_responses page) -> fst ev <> bank_loginUrl bank) ->
  headers r = analyzeSecurityHeaders JsObject.empty /\
  hdr_headers (headers r) = JsObject.empty /\
  hdr_grade (headers r) = Grade_F /\
  25 <= riskScore r.
Proof.
  intros Hrun Hbank Hlaunch Hpage Hnone.
  apply auditBank_outcomes in Hrun as (_ & Hout).
  destruct Hout as [(_ & e & He) | [(bank' & browser' & page' & r0 & Hb & Hl & Hp & Hsh & _ & Ho)
                                   | (_ & _ & _ & _ & e' & He)]];
    try discriminate.
  rewrite Hbank in Hb. inversion Hb; subst bank'.
  rewrite Hlaunch in Hl. inversion Hl; subst browser'.
  rewrite Hpage in Hp. inversion Hp; subst page'.
  destruct Ho as [Ho | (e & Ho & _)]; [| discriminate]. inversion Ho; subst r0.
  destruct Hsh as (_ & _ & _ & _ & _ & _ & Hh & Hr & _).
  rewrite (no_matching_response _ _ _ Hnone) in Hh.
  split; [exact Hh |].
  rewrite Hr, Hh, calculateRiskScore_sum. cbn.
  repeat split.
  destruct (negb (ssl_enabled (ssl r))), (0 <? Z.of_nat (length (ssl_issues (ssl r)))),
    (negb (mfaAvailable (authentication r))), (negb (isProtected (csrf r))); lia.
Qed.

Lemma headers_need_exact_url_witness :
  let env := SamplePages.env_with (Resolves (SamplePages.browser_with slash_page)) in
  exists r,
    fst (auditBank env "t1" false SamplePages.world0) = Resolves r /\
    hdr_grade (headers r) = Grade_F /\ 25 <= riskScore r.
Proof.
  intros env. eexists. split; [vm_compute; reflexivity |].
  eapply (headers_need_exact_url env "t1" false SamplePages.world0 _
            (snd (auditBank env "t1" false SamplePages.world0))
            SamplePages.bank_T1 (SamplePages.browser_with slash_page) slash_page).
  - vm_compute. reflexivity.
  - reflexivity.
  - reflexivity.
  - reflexivity.
  - intros ev [<- | []]. discriminate.
Defined.

(** ** Risk scorer: how score and recommendations go together *)

(** X15. The two outputs of the scorer agree: the risk score is 0 exactly
    when the recommendations are the single positive message; otherwise
    that message does not appear; and there are always between one and six
    recommendations. *)
Theorem risk_score_and_recommendations ssl headers authentication csrf :
  let r := calculateRiskScore ssl headers authentication csrf in
  (ra_riskScore r = 0 <-> ra_recommendations r = ["✅ Excellent security posture!"]) /\
  (ra_riskScore r <> 0 -> ~ In "✅ Excellent security posture!" (ra_recommendations r)) /\
  (1 <= length (ra_recommendations r) <= 6)%nat.
Proof.
  intros r. subst r. rewrite calculateRiskScore_sum, calculateRiskScore_order.
  destruct (negb (ssl_enabled ssl)), (0 <? Z.of_nat (length (ssl_issues ssl))),
    (negb (strictTransportSecurity headers)), (negb (contentSecurityPolicy headers)),
    (negb (xFrameOptions headers)), (negb (mfaAvailable authentication)),
    (negb (isProtected csrf));
    cbn; (split; [split; intros H; try discriminate; try lia; try reflexivity |]);
    (split; [| lia]); intros Hne Hin; try lia;
    repeat (destruct Hin as [Hin | Hin]; [discriminate Hin |]); exact Hin.
Qed.

Lemma risk_assessment_eq (a b : RiskAssessment) :
  ra_riskScore a = ra_riskScore b -> ra_recommendations a = ra_recommendations b -> a = b.
Proof. destruct a, b. simpl. now intros -> ->. Qed.

(** X16. The scorer reads seven signals only: whether TLS is enabled,
    whether the TLS issue list is empty, the HSTS, CSP and X-Frame-Options
    flags, MFA availability and CSRF protection.  Inputs that agree on
    these get the same score and recommendations, whatever their grades,
    their other three header flags and their detected methods. *)
Theorem risk_score_reads_seven_signals s1 h1 a1 c1 s2 h2 a2 c2 :
  ssl_enabled s1 = ssl_enabled s2 ->
  (ssl_issues s1 = [] <-> ssl_issues s2 = []) ->
  strictTransportSecurity h1 = strictTransportSecurity h2 ->
  contentSecurityPolicy h1 = contentSecurityPolicy h2 ->
  xFrameOptions h1 = xFrameOptions h2 ->
  mfaAvailable a1 = mfaAvailable a2 ->
  isProtected c1 = isProtected c2 ->
  calculateRiskScore s1 h1 a1 c1 = calculateRiskScore s2 h2 a2 c2.
Proof.
  intros He Hi Hh Hc Hx Hm Hp.
  assert (Hlen : (0 <? Z.of_nat (length (ssl_issues s1)))
                 = (0 <? Z.of_nat (length (ssl_issues s2)))).
  { destruct (ssl_issues s1) as [| x l], (ssl_issues s2) as [| y l']; try reflexivity.
    - destruct Hi as [Hi _]. specialize (Hi eq_refl). discriminate.
    - destruct Hi as [_ Hi]. specialize (Hi eq_refl). discriminate. }
  apply risk_assessment_eq.
  - rewrite !calculateRiskScore_sum. now rewrite He, Hlen, Hh, Hc, Hx, Hm, Hp.
  - rewrite !calculateRiskScore_order. now rewrite He, Hlen, Hh, Hc, Hx, Hm, Hp.
Qed.

Lemma risk_score_reads_seven_signals_witness :
  calculateRiskScore Samples.ssl_off Samples.headers_none Samples.auth_none Samples.csrf_off
  = calculateRiskScore
      {| ssl_enabled := false; ssl_protocol := None; ssl_validCertificate := None;
         ssl_issues := ["CRITICAL: Login page not served over HTTPS"];
         ssl_issuer := None; ssl_expiryDate := None; ssl_grade := SSL_UNKNOWN |}
      {| strictTransportSecurity := false; contentSecurityPolicy := false;
         xFrameOptions := false; xContentTypeOptions := true;
         referrerPolicy := true; permissionsPolicy := true;
         hdr_headers := JsObject.empty; hdr_grade := Grade_D |}
      {| auth_methods := ["username-password"]; mfaAvailable := false; mfaTypes := [];
         passwordRequirements := []; sessionManagement := Samples.no_session;
         auth_grade := Grade_C |}
      Samples.csrf_off.
Proof.
  apply risk_score_reads_seven_signals; try reflexivity.
  split; discriminate.
Defined.

(** ** What the inspectors report *)

(** X17. The TLS record in full: TLS is reported enabled exactly when the
    URL starts with the secure scheme; the grade is F when it is not, C
    when it is but the response carries no security details, and A+ as
    soon as details exist, whatever protocol and issuer they name; the
    issue list is empty exactly for grade A+; and an enabled record always
    says the certificate is valid. *)
Theorem analyzeSSL_report (response : HTTPResponse) (url : string) (w : World) :
  exists r,
    fst (analyzeSSL response url w) = Resolves r /\
    ssl_enabled r = JsString.startsWith url "https://" /\
    ssl_grade r =
      (if negb (JsString.startsWith url "https://") then SSL_F
       else match resp_securityDetails response with
            | Some _ => SSL_Aplus
            | None => SSL_C
            end) /\
    (ssl_issues r = [] <-> ssl_grade r = SSL_Aplus) /\
    (length (ssl_issues r) <= 1)%nat /\
    ssl_validCertificate r = (if ssl_enabled r then Some true else None) /\
    ssl_protocol r =
      (if ssl_enabled r then option_map sd_protocol (resp_securityDetails response)
       else None) /\
    ssl_issuer r =
      (if ssl_enabled r then option_map sd_issuer (resp_securityDetails response)
       else None).
Proof.
  unfold analyzeSSL.
  destruct (JsString.startsWith url "https://"); cbn.
  - destruct (resp_securityDetails response) as [d |]; cbn;
      eexists; (split; [reflexivity |]); cbn; repeat split;
      intros; try discriminate; try reflexivity; lia.
  - eexists. split; [reflexivity |]. cbn. repeat split; intros; try discriminate; lia.
Qed.

(** X18. The CSRF record never holds the token: for any two pages on
    which a non-empty token value can be read, the inspector returns the
    same record, with the marker "[PRESENT]" in place of the value and the
    type hidden-field; on any page without one the record has neither
    value nor type. *)
Theorem csrf_value_not_stored (page1 page2 : Page) (w1 w2 : World) :
  (csrf_token_readable page1 -> csrf_token_readable page2 ->
   fst (analyzeCSRF page1 w1) = fst (analyzeCSRF page2 w2) /\
   exists r, fst (analyzeCSRF page1 w1) = Resolves r /\
             tokenValue r = Some "[PRESENT]" /\ tokenType r = Some hidden_field) /\
  (~ csrf_token_readable page1 ->
   exists r, fst (analyzeCSRF page1 w1) = Resolves r /\
             tokenValue r = None /\ tokenType r = None).
Proof.
  assert (R : forall page w, csrf_token_readable page ->
           fst (analyzeCSRF page w) =
           Resolves {| tokenPresent := true; tokenType := Some hidden_field;
                       tokenValue := Some "[PRESENT]"; isProtected := true;
                       csrf_grade := Grade_A |}).
  { intros page w (el & Hq & Hv).
    unfold analyzeCSRF, bind, catch, page_eval_value, call, ret. rewrite Hq.
    destruct el as [[| c v]]; [now contradiction Hv | reflexivity]. }
  split.
  - intros H1 H2. rewrite (R page1 w1 H1), (R page2 w2 H2).
    split; [reflexivity |]. eexists. repeat split.
  - intros Hno.
    destruct (analyzeCSRF_run page1 w1) as (r & Hrun & _ & _ & Ht).
    rewrite (unreadable_token page1 Hno) in Ht.
    exists r. rewrite Hrun. split; [reflexivity |].
    revert Hrun. unfold analyzeCSRF, bind, catch, page_eval_value, call, ret.
    destruct (pg_query page1 csrfSelector) as [[[v] |] | e]; cbn;
      intros Hrun; inversion Hrun; subst; cbn in Ht |- *;
      try (split; reflexivity).
    destruct v; [split; reflexivity | discriminate Ht].
Qed.

Lemma csrf_value_not_stored_witness :
  fst (analyzeCSRF (SamplePages.login_page "7f3a9c") SamplePages.world0)
  = fst (analyzeCSRF (SamplePages.login_page "another-secret") SampleBanks.empty_world).
Proof.
  apply (proj1 (csrf_value_not_stored (SamplePages.login_page "7f3a9c")
                  (SamplePages.login_page "another-secret")
                  SamplePages.world0 SampleBanks.empty_world)).
  - eexists. split; [reflexivity | discriminate].
  - eexists. split; [reflexivity | discriminate].
Defined.

(** X19. The authentication record in full, when the inspector returns:
    the method "username-password" is reported exactly when both the
    password query and the user-field query find an element, and no other
    method ever is; MFA is judged from the page text alone, so it can be
    reported for a page without any login form; the MFA types list is
    non-empty exactly when MFA is reported; no password requirement is
    ever reported; the grade is never B or D; and each cookie flag says
    whether some cookie carries it. *)
Theorem analyzeAuthentication_report page w r w' :
  analyzeAuthentication page w = (Resolves r, w') ->
  exists pw un content cookies,
    pg_query page passwordSelector = Resolves pw /\
    pg_query page usernameSelector = Resolves un /\
    pg_content page = Resolves content /\
    pg_cookies page = Resolves cookies /\
    auth_methods r = (if isSome pw && isSome un then ["username-password"] else []) /\
    mfaAvailable r = mentionsMFA content /\
    (mfaTypes r <> [] <-> mfaAvailable r = true) /\
    passwordRequirements r = [] /\
    auth_grade r <> Grade_B /\ auth_grade r <> Grade_D /\
    sm_secureFlag (sessionManagement r) = Some (existsb cookie_secure cookies) /\
    sm_httpOnlyFlag (sessionManagement r) = Some (existsb cookie_httpOnly cookies).
Proof.
  unfold analyzeAuthentication, bind, page_query, page_content, page_cookies, call, ret.
  destruct (pg_query page passwordSelector) as [pw | e]; [| discriminate].
  destruct (pg_query page usernameSelector) as [un | e]; [| discriminate].
  destruct (pg_content page) as [content | e]; [| discriminate].
  destruct (pg_cookies page) as [cookies | e]; [| discriminate].
  intros H. inversion H; subst. exists pw, un, content, cookies.
  repeat (split; [reflexivity |]). cbn.
  destruct (isSome pw && isSome un), (mentionsMFA content); cbn;
    repeat split; intros; try discriminate; try reflexivity; try tauto.
Qed.

Lemma analyzeAuthentication_report_witness :
  exists r,
    auth_methods r = ["username-password"] /\ mfaAvailable r = true /\
    passwordRequirements r = [] /\
    sm_secureFlag (sessionManagement r) = Some true.
Proof.
  destruct (analyzeAuthentication SamplePages.hardened_page SamplePages.world0)
    as [[r | e] w'] eqn:E; [| vm_compute in E; discriminate E].
  destruct (analyzeAuthentication_report SamplePages.hardened_page SamplePages.world0
              r w' E)
    as (pw & un & content & cookies & Hpw & Hun & Hc & Hk & Hm & Hmfa & _ & Hreq & _ & _ & Hs & _).
  exists r. vm_compute in Hpw, Hun, Hc, Hk.
  inversion Hpw; subst pw. inversion Hun; subst un.
  inversion Hc; subst content. inversion Hk; subst cookies.
  repeat split; assumption.
Defined.

(** ** The audit runner *)

Lemma auditBank_resolves_completed env code verbose w r w' :
  auditBank env code verbose w = (Resolves r, w') -> status r = completed.
Proof.
  intros Hrun. apply auditBank_outcomes in Hrun as (_ & Hout).
  destruct Hout as [(_ & e & He) | [(bank & browser & page & r0 & _ & _ & _ & Hsh & _ & Ho)
                                   | (_ & _ & _ & _ & e' & He)]];
    try discriminate.
  destruct Ho as [Ho | (e & Ho & _)]; [| discriminate].
  inversion Ho; subst. apply Hsh.
Qed.

Lemma auditBank_resolved_stored env code verbose w r w' :
  auditBank env code verbose w = (Resolves r, w') ->
  status r = completed /\ bankCode r = JsString.toUpperCase code /\
  audits w' = (audits w ++ [r])%list.
Proof.
  intros Hrun. apply auditBank_outcomes in Hrun as (_ & Hout).
  destruct Hout as [(_ & e & He) | [(bank & browser & page & r0 & Hb & _ & _ & Hsh & Ha & Ho)
                                   | (_ & _ & _ & _ & e' & He)]];
    try discriminate.
  destruct Ho as [Ho | (e & Ho & _)]; [| discriminate].
  inversion Ho; subst. split; [apply Hsh |]. split; [| exact Ha].
  destruct Hsh as (Hc & _). rewrite Hc. now apply (resolved_code env code w).
Qed.

(** X20. One runner attempt, when the error log can be written.  It
    never rejects, whatever the service does, and appends exactly the
    attempt it returns to the runner's list; the attempt carries the code
    as typed and the attempt number (1 when none is given).  It looks the
    bank up and, if the lookup succeeds, runs the service's verbose audit
    once, leaving the database as that audit leaves it.  The attempt
    succeeds exactly when that audit returned, and then carries its
    completed record, the bank's name and no error; when the audit was
    rejected it carries the bank's name, the error's message and no record;
    when the lookup was rejected it carries the lookup's message, an empty
    name and no record, and no browser was launched.  Exactly the failed
    attempts are written to the error log. *)
Theorem runner_attempt_recorded env renv code n w st :
  run_log_fault renv = None ->
  let looked := getBankByCode env code w in
  let served := auditBank env code true (snd looked) in
  exists a w',
    runner_auditBank env renv code n w st =
      (Resolves a,
       (w', {| attempts := attempts st ++ [a];
               errorLog := if att_success a then errorLog st
                           else (errorLog st ++ [a])%list |})) /\
    att_bankCode a = code /\
    att_attempt a = match n with Some k => k | None => 1 end /\
    match fst looked with
    | Rejects e =>
        w' = snd looked /\
        att_success a = false /\ att_result a = None /\
        att_error a = Some (message e) /\ att_bankName a = EmptyString /\
        count is_launch (trace w') = count is_launch (trace w)
    | Resolves bank =>
        w' = snd served /\ att_bankName a = bank_name bank /\
        match fst served with
        | Resolves r =>
            att_success a = true /\ att_result a = Some r /\ att_error a = None /\
            status r = completed /\ audits w' = (audits w ++ [r])%list
        | Rejects e =>
            att_success a = false /\ att_result a = None /\
            att_error a = Some (message e)
        end
    end.
Proof.
  intros Hlog looked served. subst looked served. unfold runner_auditBank.
  pose proof (getBankByCode_world env code w) as Hw.
  destruct (getBankByCode env code w) as [[bank | e0] w1] eqn:Hbank; cbn [fst snd] in *.
  - destruct (auditBank env code true w1) as [[r | e] w2] eqn:Haudit; cbn [fst snd].
    + unfold runner_push.
      lazymatch goal with
      | |- exists a w', (Resolves ?x, (?y, _)) = _ /\ _ => exists x, y
      end.
      cbn. split; [reflexivity |]. split; [reflexivity |]. split; [reflexivity |].
      repeat split.
      * now apply auditBank_resolves_completed in Haudit.
      * apply auditBank_resolved_stored in Haudit as (_ & _ & Hst).
        rewrite Hst. subst w1. now rewrite audits_log.
    + unfold runner_catch. rewrite Hlog. unfold runner_push.
      lazymatch goal with
      | |- exists a w', (Resolves ?x, (?y, _)) = _ /\ _ => exists x, y
      end.
      cbn. repeat split.
  - unfold runner_catch. rewrite Hlog. unfold runner_push.
    lazymatch goal with
    | |- exists a w', (Resolves ?x, (?y, _)) = _ /\ _ => exists x, y
    end.
    cbn. split; [reflexivity |]. split; [reflexivity |]. split; [reflexivity |].
    repeat split. subst w1. rewrite count_log. cbn. lia.
Qed.

Lemma runner_attempt_recorded_witness :
  let env := SamplePages.env_with
               (Resolves (SamplePages.browser_with SamplePages.hardened_page)) in
  exists a w' r,
    runner_auditBank env sample_renv "bañco" None SampleBanks.world_banco no_attempts =
      (Resolves a, (w', {| attempts := [a]; errorLog := [] |})) /\
    att_success a = true /\ att_result a = Some r /\ att_bankName a = "Banco Ñandú" /\
    bankCode r = "BAÑCO" /\ audits w' = [r].
Proof.
  intros env.
  destruct (runner_attempt_recorded env sample_renv "bañco" None SampleBanks.world_banco
              no_attempts eq_refl) as (a & w' & Hrun & _ & _ & Hcase).
  destruct (fst (getBankByCode env "bañco" SampleBanks.world_banco))
    as [bank | e] eqn:Hlook; [| vm_compute in Hlook; discriminate Hlook].
  destruct Hcase as (_ & Hname & Hcase).
  destruct (fst (auditBank env "bañco" true
                   (snd (getBankByCode env "bañco" SampleBanks.world_banco))))
    as [r | e] eqn:Hserved; [| vm_compute in Hserved; discriminate Hserved].
  destruct Hcase as (Hsucc & Hres & _ & _ & Hst).
  exists a, w', r. rewrite Hrun, Hsucc. cbn [attempts errorLog no_attempts app].
  split; [reflexivity |]. split; [reflexivity |]. split; [exact Hres |].
  vm_compute in Hlook. inversion Hlook; subst bank.
  vm_compute in Hserved. inversion Hserved; subst r.
  split; [exact Hname |]. split; [reflexivity | exact Hst].
Defined.

(** The same attempt, evaluated: the navigation timeout is absorbed and
    ends up in the attempt and in the error log. *)
Example runner_attempt_timeout :
  let env := SamplePages.env_with
               (Resolves (SamplePages.browser_with SamplePages.unreachable_page)) in
  let '(o, (w', st)) :=
    runner_auditBank env sample_renv "t1" None SamplePages.world0 no_attempts in
  exists a,
    o = Resolves a /\ attempts st = [a] /\ errorLog st = [a] /\
    att_success a = false /\ att_bankName a = "Test Bank" /\
    att_error a = Some "Navigation timeout of 30000 ms exceeded" /\
    att_duration a = 4200 /\ categorizeError (error_or_empty a) = TIMEOUT /\
    length (audits w') = 1%nat.
Proof. vm_compute. eexists. repeat split. Qed.

(** ** Error patterns *)

Lemma errorType_eqb_eq a b : errorType_eqb a b = true <-> a = b.
Proof. destruct a, b; simpl; split; intros H; try reflexivity; discriminate. Qed.

Lemma errorType_eqb_refl a : errorType_eqb a a = true.
Proof. now apply errorType_eqb_eq. Qed.

Lemma errorMap_has_in m t : errorMap_has m t = true <-> In t (map errorType m).
Proof.
  unfold errorMap_has. rewrite existsb_exists, in_map_iff. split.
  - intros (p & Hin & Heq). apply errorType_eqb_eq in Heq. now exists p.
  - intros (p & Heq & Hin). exists p. split; [exact Hin |]. now apply errorType_eqb_eq.
Qed.

Lemma map_bumped_absent m t c :
  ~ In t (map errorType m) -> map (bumped t c) m = m.
Proof.
  induction m as [| p m IH]; simpl; intros H; [reflexivity |].
  rewrite IH by tauto. unfold bumped.
  destruct (errorType_eqb (errorType p) t) eqn:E; [| reflexivity].
  apply errorType_eqb_eq in E. tauto.
Qed.

Lemma errorMap_bump_map m t c :
  NoDup (map errorType m) -> errorMap_bump m t c = map (bumped t c) m.
Proof.
  induction m as [| p m IH]; simpl; intros Hnd; [reflexivity |].
  inversion Hnd as [| ? ? Hnotin Hnd']; subst. unfold bumped at 1.
  destruct (errorType_eqb (errorType p) t) eqn:E.
  - apply errorType_eqb_eq in E. rewrite map_bumped_absent; [reflexivity |].
    now rewrite <- E.
  - now rewrite IH.
Qed.

Lemma bumped_type t c p : errorType (bumped t c p) = errorType p.
Proof. unfold bumped. now destruct (errorType_eqb (errorType p) t). Qed.

Lemma map_bumped_types t c m : map errorType (map (bumped t c) m) = map errorType m.
Proof. rewrite map_map. apply map_ext. intros p. apply bumped_type. Qed.

Lemma total_bumped t c m :
  NoDup (map errorType m) -> In t (map errorType m) ->
  total_count (map (bumped t c) m) = total_count m + 1.
Proof.
  induction m as [| p m IH]; simpl; intros Hnd Hin; [tauto |].
  inversion Hnd as [| ? ? Hnotin Hnd']; subst.
  destruct Hin as [Heq | Hin].
  - rewrite map_bumped_absent by now rewrite <- Heq.
    unfold bumped. rewrite Heq, errorType_eqb_refl. simpl. lia.
  - rewrite IH by assumption. unfold bumped.
    destruct (errorType_eqb (errorType p) t) eqn:E; [| lia].
    apply errorType_eqb_eq in E. congruence.
Qed.

Lemma total_count_app m1 m2 : total_count (m1 ++ m2) = total_count m1 + total_count m2.
Proof. induction m1 as [| p m1 IH]; simpl; [reflexivity | rewrite IH; lia]. Qed.

Lemma count_of_snoc t l a :
  count_of t (l ++ [a]) = count_of t l + (if errorType_eqb (category a) t then 1 else 0).
Proof.
  unfold count_of. rewrite filter_app, length_app. simpl.
  destruct (errorType_eqb (category a) t); simpl; lia.
Qed.

Lemma existsb_eqb_in c l : existsb (String.eqb c) l = true <-> In c l.
Proof.
  rewrite existsb_exists. split.
  - intros (x & Hin & Heq). apply String.eqb_eq in Heq. now subst.
  - intros Hin. exists c. split; [exact Hin | apply String.eqb_refl].
Qed.

(** One more attempt [a]: an exact pattern stays exact once bumped. *)
Lemma bumped_exact l a p :
  pattern_exact l p ->
  pattern_exact (l ++ [a]) (bumped (category a) (att_bankCode a) p).
Proof.
  intros (Hc & Hnd & Hb). unfold bumped, pattern_exact.
  destruct (errorType_eqb (errorType p) (category a)) eqn:E.
  - apply errorType_eqb_eq in E. cbn [errorType pat_count affectedBanks].
    rewrite count_of_snoc, <- E, errorType_eqb_refl, Hc.
    split; [reflexivity |].
    destruct (existsb (String.eqb (att_bankCode a)) (affectedBanks p)) eqn:X.
    + split; [exact Hnd |]. intros c. rewrite Hb. split.
      * intros (a0 & Hin & Hcat & Hcode). exists a0. split; [| now split].
        apply in_or_app. now left.
      * intros (a0 & Hin & Hcat & Hcode).
        apply in_app_or in Hin as [Hin | [<- | []]]; [now exists a0 |].
        apply Hb. apply existsb_eqb_in in X. now rewrite <- Hcode.
    + assert (Hout : ~ In (att_bankCode a) (affectedBanks p)).
      { intros Hin. apply existsb_eqb_in in Hin. congruence. }
      split.
      * apply (Permutation_NoDup (l := att_bankCode a :: affectedBanks p)).
        -- apply Permutation_cons_append.
        -- now constructor.
      * intros c. rewrite in_app_iff, Hb. split.
        -- intros [(a0 & Hin & Hcat & Hcode) | [<- | []]].
           ++ exists a0. split; [| now split]. apply in_or_app. now left.
           ++ exists a. split; [| now split]. apply in_or_app. right. now left.
        -- intros (a0 & Hin & Hcat & Hcode).
           apply in_app_or in Hin as [Hin | [<- | []]].
           ++ left. now exists a0.
           ++ right. now left.
  - rewrite count_of_snoc.
    assert (E' : errorType_eqb (category a) (errorType p) = false).
    { destruct (errorType_eqb (category a) (errorType p)) eqn:E2; [| reflexivity].
      apply errorType_eqb_eq in E2. rewrite E2, errorType_eqb_refl in E. discriminate. }
    rewrite E', Z.add_0_r. split; [exact Hc |]. split; [exact Hnd |].
    intros c. rewrite Hb. split.
    + intros (a0 & Hin & Hcat & Hcode). exists a0. split; [| now split].
      apply in_or_app. now left.
    + intros (a0 & Hin & Hcat & Hcode).
      apply in_app_or in Hin as [Hin | [<- | []]]; [now exists a0 |].
      rewrite Hcat, errorType_eqb_refl in E'. discriminate.
Qed.

Lemma count_of_none t l :
  (forall a, In a l -> category a <> t) -> count_of t l = 0.
Proof.
  intros H. unfold count_of.
  assert (E : filter (fun a => errorType_eqb (category a) t) l = []).
  { induction l as [| a l IH]; simpl; [reflexivity |].
    destruct (errorType_eqb (category a) t) eqn:X.
    - apply errorType_eqb_eq in X. exfalso. apply (H a); [now left | exact X].
    - apply IH. intros a0 Hin. apply H. now right. }
  now rewrite E.
Qed.

Lemma errorMap_step_inv done m a :
  errorMap_inv done m -> errorMap_inv (done ++ [a]) (errorMap_step m a).
Proof.
  intros (Hnd & Hex & Hkeys & Htot). unfold errorMap_step. fold (category a).
  set (t := category a).
  set (m' := if negb (errorMap_has m t)
             then (m ++ [ {| errorType := t; pat_count := 0; affectedBanks := [];
                             sampleMessage := error_or_empty a |} ])%list
             else m).
  assert (Hpre : NoDup (map errorType m') /\ Forall (pattern_exact done) m' /\
                 total_count m' = Z.of_nat (length done) /\
                 (forall t', In t' (map errorType m') <->
                             t' = t \/ exists a0, In a0 done /\ category a0 = t')).
  { subst m'. destruct (errorMap_has m t) eqn:Hhas; cbn [negb].
    - apply errorMap_has_in in Hhas.
      repeat split; try assumption.
      + intros Hin. right. now apply Hkeys.
      + intros [-> | Hex']; [exact Hhas | now apply Hkeys].
    - assert (Hout : ~ In t (map errorType m)).
      { intros Hin. apply errorMap_has_in in Hin. congruence. }
      assert (Hnone : forall a0, In a0 done -> category a0 <> t).
      { intros a0 Hin Hcat. apply Hout, Hkeys. now exists a0. }
      rewrite map_app. cbn [map errorType]. repeat split.
      + apply (Permutation_NoDup (l := t :: map errorType m)).
        * apply Permutation_cons_append.
        * now constructor.
      + apply Forall_app. split; [exact Hex |]. constructor; [| constructor].
        unfold pattern_exact. cbn [errorType pat_count affectedBanks].
        rewrite (count_of_none _ _ Hnone). split; [reflexivity |].
        split; [constructor |]. intros c. split; [intros [] |].
        intros (a0 & Hin & Hcat & _). now apply (Hnone a0).
      + rewrite total_count_app. simpl. lia.
      + intros Hin. apply in_app_or in Hin as [Hin | [<- | []]].
        * right. now apply Hkeys.
        * now left.
      + intros [-> | Hex']; apply in_or_app.
        * right. now left.
        * left. now apply Hkeys. }
  destruct Hpre as (Hnd' & Hex' & Htot' & Hkeys').
  rewrite (errorMap_bump_map _ _ _ Hnd').
  unfold errorMap_inv. rewrite map_bumped_types.
  split; [exact Hnd' |]. split; [| split].
  - apply Forall_map. eapply Forall_impl; [| exact Hex'].
    intros p Hp. subst t. now apply bumped_exact.
  - intros t'. rewrite Hkeys'. split.
    + intros [-> | (a0 & Hin & Hcat)].
      * exists a. split; [apply in_or_app; right; now left | reflexivity].
      * exists a0. split; [apply in_or_app; now left | exact Hcat].
    + intros (a0 & Hin & Hcat). apply in_app_or in Hin as [Hin | [<- | []]].
      * right. now exists a0.
      * left. now rewrite <- Hcat.
  - rewrite total_bumped by (try assumption; apply Hkeys'; now left).
    rewrite Htot', length_app. simpl. lia.
Qed.

Lemma errorMap_fold_inv l done m :
  errorMap_inv done m -> errorMap_inv (done ++ l) (fold_left errorMap_step l m).
Proof.
  revert done m. induction l as [| a l IH]; intros done m H; simpl.
  - now rewrite app_nil_r.
  - replace (done ++ a :: l)%list with ((done ++ [a]) ++ l)%list
      by now rewrite <- app_assoc.
    apply IH. now apply errorMap_step_inv.
Qed.

Lemma insert_by_count_perm p l : Permutation (insert_by_count p l) (p :: l).
Proof.
  induction l as [| x l IH]; simpl; [reflexivity |].
  destruct (pat_count p <? pat_count x); [| reflexivity].
  rewrite IH. apply perm_swap.
Qed.

Lemma sort_by_count_perm l : Permutation (sort_by_count l) l.
Proof.
  induction l as [| x l IH]; simpl; [constructor |].
  rewrite insert_by_count_perm. now constructor.
Qed.

Lemma insert_by_count_sorted p l :
  StronglySorted more_frequent l -> StronglySorted more_frequent (insert_by_count p l).
Proof.
  induction l as [| x l IH]; simpl; intros Hs.
  - repeat constructor.
  - inversion Hs as [| ? ? Hl Hx]; subst.
    destruct (pat_count p <? pat_count x) eqn:E.
    + apply Z.ltb_lt in E. constructor; [now apply IH |].
      apply Forall_forall. intros y Hy.
      apply (Permutation_in _ (insert_by_count_perm p l)) in Hy as [<- | Hy].
      * unfold more_frequent. lia.
      * now apply (proj1 (Forall_forall _ _) Hx).
    + apply Z.ltb_ge in E. constructor; [exact Hs |].
      constructor; [exact E |].
      apply Forall_forall. intros y Hy.
      specialize (proj1 (Forall_forall _ _) Hx y Hy). unfold more_frequent. lia.
Qed.

Lemma sort_by_count_sorted l : StronglySorted more_frequent (sort_by_count l).
Proof.
  induction l as [| x l IH]; simpl; [constructor | now apply insert_by_count_sorted].
Qed.

Lemma total_count_perm l1 l2 : Permutation l1 l2 -> total_count l1 = total_count l2.
Proof. induction 1; simpl; lia. Qed.

Lemma analyzeErrorPatterns_inv st :
  errorMap_inv (failed_attempts st) (analyzeErrorPatterns st) /\
  StronglySorted more_frequent (analyzeErrorPatterns st).
Proof.
  unfold analyzeErrorPatterns. fold (failed_attempts st).
  split; [| apply sort_by_count_sorted].
  assert (H : errorMap_inv (failed_attempts st)
                (fold_left errorMap_step (failed_attempts st) [])).
  { apply (errorMap_fold_inv (failed_attempts st) [] []).
    repeat split; try constructor; simpl; try tauto.
    intros (a & [] & _). }
  destruct H as (Hnd & Hex & Hkeys & Htot).
  pose proof (sort_by_count_perm (fold_left errorMap_step (failed_attempts st) [])) as P.
  repeat split.
  - apply (Permutation_NoDup (l := map errorType (fold_left errorMap_step (failed_attempts st) []))).
    + apply Permutation_map. now symmetry.
    + exact Hnd.
  - eapply Permutation_Forall; [symmetry; exact P | exact Hex].
  - intros Hin. apply Hkeys.
    apply (Permutation_in _ (Permutation_map errorType P)). exact Hin.
  - intros Hex'. apply Hkeys in Hex'.
    apply (Permutation_in _ (Permutation_sym (Permutation_map errorType P))). exact Hex'.
  - rewrite (total_count_perm _ _ P). exact Htot.
Qed.

(** X21. The error patterns report the failed attempts exactly: there is
    one pattern for each category that occurs among them and none for any
    other; a pattern's count is the number of failed attempts in its
    category, hence at least 1; its affected banks are, without
    repetition, the codes of those attempts; the counts add up to the
    number of failed attempts; and the patterns come most frequent first. *)
Theorem analyzeErrorPatterns_exact (st : RunnerState) :
  let ps := analyzeErrorPatterns st in
  let failed := failed_attempts st in
  NoDup (map errorType ps) /\
  (forall t, In t (map errorType ps) <-> exists a, In a failed /\ category a = t) /\
  Forall (fun p => pattern_exact failed p /\ 1 <= pat_count p) ps /\
  total_count ps = Z.of_nat (length failed) /\
  StronglySorted more_frequent ps.
Proof.
  intros ps failed.
  destruct (analyzeErrorPatterns_inv st) as ((Hnd & Hex & Hkeys & Htot) & Hsorted).
  fold ps failed in Hnd, Hex, Hkeys, Htot, Hsorted.
  repeat split; try assumption; try (now apply Hkeys).
  apply Forall_forall. intros p Hp.
  pose proof (proj1 (Forall_forall _ _) Hex p Hp) as Hpe. split; [exact Hpe |].
  destruct Hpe as (Hc & _).
  assert (Hin : In (errorType p) (map errorType ps)) by now apply in_map.
  apply Hkeys in Hin as (a & Hin & Hcat).
  rewrite Hc. unfold count_of.
  assert (Hf : In a (filter (fun a0 => errorType_eqb (category a0) (errorType p)) failed)).
  { apply filter_In. split; [exact Hin | now apply errorType_eqb_eq]. }
  destruct (filter _ failed); [destruct Hf | simpl; lia].
Qed.

(** ** Improvement recommendations *)

Lemma flat_map_nil {A B} (f : A -> list B) l :
  (forall x, In x l -> f x = []) -> flat_map f l = [].
Proof.
  induction l as [| x l IH]; simpl; intros H; [reflexivity |].
  rewrite (H x) by now left. apply IH. intros y Hy. apply H. now right.
Qed.

Lemma flat_map_head {A B} (f : A -> list B) l x b bs :
  In x l -> f x = b :: bs -> exists b' bs', flat_map f l = b' :: bs'.
Proof.
  induction l as [| y l IH]; simpl; intros Hin Hf; [tauto |].
  destruct (f y) as [| b0 bs0] eqn:E.
  - destruct Hin as [-> | Hin]; [congruence |]. simpl. now apply IH.
  - simpl. now eexists; eexists.
Qed.

(** X22. The improvement text depends on the categories of the failed
    attempts only.  When every failed attempt falls in the unknown
    category (for instance each bank was simply not registered), the
    runner reports that all audits were successful and nothing needs
    improving, although attempts failed; as soon as one failed attempt
    falls in a known category the text is a numbered list starting at 1. *)
Theorem improvements_ignore_unknown_errors (st : RunnerState) :
  ((forall a, In a (failed_attempts st) -> category a = UNKNOWN_ERROR) ->
   generateImprovementRecommendations st
   = "✅ All audits successful! No improvements needed at this time.") /\
  ((exists a, In a (failed_attempts st) /\ category a <> UNKNOWN_ERROR) ->
   exists rest, generateImprovementRecommendations st = "1. " ++ rest).
Proof.
  destruct (analyzeErrorPatterns_inv st) as ((_ & _ & Hkeys & _) & _).
  unfold generateImprovementRecommendations. split.
  - intros Hall. rewrite flat_map_nil; [reflexivity |].
    intros p Hp.
    assert (Hin : In (errorType p) (map errorType (analyzeErrorPatterns st)))
      by now apply in_map.
    apply Hkeys in Hin as (a & Hin & Hcat).
    rewrite <- Hcat, (Hall a Hin). reflexivity.
  - intros (a & Hin & Hcat).
    assert (Hk : In (category a) (map errorType (analyzeErrorPatterns st))).
    { apply Hkeys. now exists a. }
    apply in_map_iff in Hk as (p & Hp & Hpin).
    assert (Hne : exists b bs, improvements_for (errorType p) = b :: bs).
    { rewrite Hp. destruct (category a);
        try (eexists; eexists; reflexivity). now contradiction Hcat. }
    destruct Hne as (b & bs & Hb).
    destruct (flat_map_head (fun p => improvements_for (errorType p)) _ _ _ _ Hpin Hb)
      as (b' & bs' & Hfm).
    rewrite Hfm. cbn [length Z.of_nat Z.eqb numbered_from join].
    change (nat_to_string (0 + 1)) with "1".
    destruct (numbered_from 1 bs') as [| y ys].
    + exists b'. reflexivity.
    + eexists. cbn. reflexivity.
Qed.

Lemma improvements_ignore_unknown_errors_witness :
  failed_attempts two_unknown_banks <> [] /\
  generateImprovementRecommendations two_unknown_banks
  = "✅ All audits successful! No improvements needed at this time.".
Proof.
  split; [discriminate |].
  apply (proj1 (improvements_ignore_unknown_errors two_unknown_banks)).
  intros a [<- | [<- | []]]; reflexivity.
Defined.

(* ------------------------------------------------------------------ *)
(** ** The cached endpoints of the controller *)

(** X23. A verbose request to the audit endpoint never touches the cache,
    working or not: it behaves exactly as the service's [auditBank] in
    verbose mode, and its response carries no [cached] field. *)
Theorem controller_verbose_bypasses_cache env cenv dto w calls :
  req_verbose dto = Some true ->
  controller_auditBank env cenv dto (w, calls) =
    (match fst (auditBank env (req_bankCode dto) true w) with
     | Resolves r => Resolves {| res_body := r; res_cached := None |}
     | Rejects e => Rejects e
     end,
     (snd (auditBank env (req_bankCode dto) true w), calls)).
Proof.
  intros Hv. unfold controller_auditBank. rewrite Hv. cbn [truthy_flag negb].
  now destruct (auditBank env (req_bankCode dto) true w) as [[r | e] w'].
Qed.

Lemma controller_verbose_bypasses_cache_witness :
  let env := SamplePages.env_with
               (Resolves (SamplePages.browser_with SamplePages.hardened_page)) in
  let dto := {| req_bankCode := "t1"; req_verbose := Some true |} in
  let broken := {| cached_audit := fun _ => None;
                   cached_history := fun _ => None;
                   cache_get_fault := Some (Error "ECONNREFUSED");
                   cache_set_fault := Some (Error "ECONNREFUSED") |} in
  snd (snd (controller_auditBank env broken dto (SamplePages.world0, []))) = [].
Proof.
  intros env dto broken.
  now rewrite (controller_verbose_bypasses_cache env broken dto SamplePages.world0 []
                 eq_refl).
Defined.

(** X24. Every response of the audit endpoint is of one of two kinds.
    Either it is flagged [cached: true]: then the request was not verbose,
    the body is what the cache held under "audit:result:" followed by the
    code as sent, the service was not called (no lookup, no browser,
    nothing stored) and the cache was only read.  Or it has no [cached]
    field: then the body is a completed record for the upper-cased code,
    just stored as the newest audit, and a non-verbose request has read the
    cache and then written this record under the same key for 300000 ms. *)
Theorem controller_auditBank_response env cenv dto w calls resp w' calls' :
  controller_auditBank env cenv dto (w, calls) = (Resolves resp, (w', calls')) ->
  let key := CacheKeys.AUDIT_RESULT (req_bankCode dto) in
  (res_cached resp = Some true /\
   truthy_flag (req_verbose dto) = false /\
   cached_audit cenv key = Some (res_body resp) /\
   w' = w /\
   calls' = (calls ++ [CacheGet key])%list)
  \/
  (res_cached resp = None /\
   status (res_body resp) = completed /\
   bankCode (res_body resp) = JsString.toUpperCase (req_bankCode dto) /\
   audits w' = (audits w ++ [res_body resp])%list /\
   calls' =
     (calls ++
      if truthy_flag (req_verbose dto) then []
      else [CacheGet key; CacheSetAudit key (res_body resp) 300000])%list).
Proof.
  intros Hrun key. unfold controller_auditBank in Hrun. fold key in Hrun.
  destruct (truthy_flag (req_verbose dto)) eqn:Hv; cbn [negb] in Hrun.
  - destruct (auditBank env (req_bankCode dto) true w) as [[r | e] w1] eqn:Ha;
      [| discriminate].
    inversion Hrun; subst. right. cbn [res_body res_cached].
    apply auditBank_resolved_stored in Ha as (Hs & Hc & Hst).
    rewrite app_nil_r. now repeat split.
  - destruct (cache_get_fault cenv); [discriminate |].
    destruct (cached_audit cenv key) as [c |] eqn:Hc.
    + inversion Hrun; subst. left. cbn [res_body res_cached]. now repeat split.
    + destruct (auditBank env (req_bankCode dto) false w) as [[r | e] w1] eqn:Ha;
        [| discriminate].
      destruct (cache_set_fault cenv); [discriminate |].
      inversion Hrun; subst. right. cbn [res_body res_cached].
      apply auditBank_resolved_stored in Ha as (Hs & Hcode & Hst).
      rewrite <- app_assoc. now repeat split.
Qed.

Lemma controller_auditBank_response_witness :
  let env := SamplePages.env_with
               (Resolves (SamplePages.browser_with SamplePages.hardened_page)) in
  let dto := {| req_bankCode := "bañco"; req_verbose := None |} in
  exists resp w',
    controller_auditBank env cold_cache dto (SampleBanks.world_banco, []) =
      (Resolves resp,
       (w', [CacheGet "audit:result:bañco";
             CacheSetAudit "audit:result:bañco" (res_body resp) 300000])) /\
    res_cached resp = None /\ bankCode (res_body resp) = "BAÑCO" /\
    audits w' = [res_body resp].
Proof.
  intros env dto.
  destruct (controller_auditBank env cold_cache dto (SampleBanks.world_banco, []))
    as [[resp | e] [w' c]] eqn:Hrun; [| vm_compute in Hrun; discriminate Hrun].
  exists resp, w'.
  destruct (controller_auditBank_response env cold_cache dto SampleBanks.world_banco []
              resp w' c Hrun)
    as [(_ & _ & Hc & _) | (Hc & _ & Hcode & Hst & Hcalls)]; [discriminate Hc |].
  rewrite Hcalls. now repeat split.
Defined.

(** X25. What one request to the audit endpoint writes to the cache,
    whatever its outcome: at most one audit, and only a completed record
    that the service has just stored as the newest audit; so a failed audit
    is never cached, and a request whose audit fails, whose answer comes
    from the cache or that is verbose writes nothing. *)
Theorem controller_caches_completed_only env cenv dto w calls o w' calls' :
  controller_auditBank env cenv dto (w, calls) = (o, (w', calls')) ->
  exists new,
    calls' = (calls ++ new)%list /\
    (cached_audits new = [] \/
     exists r,
       cached_audits new = [r] /\
       status r = completed /\
       audits w' = (audits w ++ [r])%list /\
       fst (auditBank env (req_bankCode dto) false w) = Resolves r /\
       truthy_flag (req_verbose dto) = false /\
       cached_audit cenv (CacheKeys.AUDIT_RESULT (req_bankCode dto)) = None).
Proof.
  intros Hrun. unfold controller_auditBank in Hrun.
  set (key := CacheKeys.AUDIT_RESULT (req_bankCode dto)) in *.
  destruct (truthy_flag (req_verbose dto)) eqn:Hv; cbn [negb] in Hrun.
  - exists []. rewrite app_nil_r. split; [| now left].
    destruct (auditBank env (req_bankCode dto) true w) as [[r | e] w1];
      now inversion Hrun.
  - destruct (cache_get_fault cenv).
    { exists [CacheGet key]. inversion Hrun. split; [reflexivity | now left]. }
    destruct (cached_audit cenv key) as [c |] eqn:Hc.
    { exists [CacheGet key]. inversion Hrun. split; [reflexivity | now left]. }
    destruct (auditBank env (req_bankCode dto) false w) as [[r | e] w1] eqn:Ha.
    2:{ exists [CacheGet key]. inversion Hrun. split; [reflexivity | now left]. }
    exists [CacheGet key; CacheSetAudit key r CacheTTL.AUDIT_RESULT].
    assert (Hw : w' = w1 /\
                 calls' = ((calls ++ [CacheGet key]) ++
                           [CacheSetAudit key r CacheTTL.AUDIT_RESULT])%list).
    { destruct (cache_set_fault cenv); inversion Hrun; now split. }
    destruct Hw as (-> & ->). rewrite <- app_assoc. split; [reflexivity |].
    right. exists r. apply auditBank_resolved_stored in Ha as (Hs & _ & Hst).
    now repeat split.
Qed.

Lemma controller_caches_completed_only_witness :
  let env := SamplePages.env_with
               (Resolves (SamplePages.browser_with SamplePages.detached_page)) in
  let dto := {| req_bankCode := "T1"; req_verbose := None |} in
  let run := controller_auditBank env cold_cache dto (SamplePages.world0, []) in
  map status (audits (fst (snd run))) = [failed] /\
  exists new,
    snd (snd run) = ([] ++ new)%list /\
    (cached_audits new = [] \/
     exists r,
       cached_audits new = [r] /\
       status r = completed /\
       audits (fst (snd run)) = (audits SamplePages.world0 ++ [r])%list /\
       fst (auditBank env (req_bankCode dto) false SamplePages.world0) = Resolves r /\
       truthy_flag (req_verbose dto) = false /\
       cached_audit cold_cache (CacheKeys.AUDIT_RESULT (req_bankCode dto)) = None).
Proof.
  intros env dto run. split; [vm_compute; reflexivity |].
  apply (controller_caches_completed_only env cold_cache dto SamplePages.world0 []
           (fst run) (fst (snd run)) (snd (snd run))).
  subst run.
  now destruct (controller_auditBank env cold_cache dto (SamplePages.world0, []))
    as [o [w' c]].
Defined.



Lemma append_inj_r (p a b : string) : (p ++ a = p ++ b)%string -> a = b.
Proof.
  induction p as [| c p IH]; cbn; [trivial |].
  intros H. injection H as H. now apply IH.
Qed.

Lemma z_to_string_inj a b :
  CacheKeys.z_to_string a = CacheKeys.z_to_string b -> a = b.
Proof.
  unfold CacheKeys.z_to_string. intros H.
  assert (Hnil : forall z, Z.to_int z <> Decimal.Pos Decimal.Nil /\
                           Z.to_int z <> Decimal.Neg Decimal.Nil).
  { intros z. split; intros E; pose proof (f_equal Z.of_int E) as E0;
      rewrite DecimalZ.of_to in E0; cbn in E0; subst z; discriminate E. }
  apply (f_equal DecimalString.NilZero.int_of_string) in H.
  rewrite !DecimalString.NilZero.isi in H by apply Hnil.
  injection H as H. now apply DecimalZ.to_int_inj.
Qed.

Lemma AUDIT_HISTORY_inj code a b :
  CacheKeys.AUDIT_HISTORY code a = CacheKeys.AUDIT_HISTORY code b -> a = b.
Proof.
  unfold CacheKeys.AUDIT_HISTORY. intros H.
  apply append_inj_r in H. apply append_inj_r in H. apply append_inj_r in H.
  now apply z_to_string_inj.
Qed.

(** X27. Among the keys that [getInvalidationKeys] lists for a bank code,
    the history keys are exactly those for the limits 5, 10, ..., 50: the
    history cached for the default limit 10 is covered, one cached for any
    other limit, such as 3 or 100, is not listed. *)
Theorem getInvalidationKeys_history code n :
  In (CacheKeys.AUDIT_HISTORY code n) (getInvalidationKeys code) <->
  exists k, 1 <= k <= 10 /\ n = 5 * k.
Proof.
  unfold getInvalidationKeys. rewrite in_app_iff, in_map_iff. split.
  - intros [[H | [H | [H | []]]] | (i & H & Hi)].
    + discriminate H.
    + discriminate H.
    + discriminate H.
    + apply AUDIT_HISTORY_inj in H. apply in_seq in Hi.
      exists (Z.of_nat i + 1). lia.
  - intros (k & Hk & ->). right. exists (Z.to_nat (k - 1)). split.
    + f_equal. lia.
    + apply in_seq. lia.
Qed.
